(** * Verification of the Reduce hydrogenation plugin (plugin/ReducePlugin.py)

    A shallow embedding of the plugin's position key, partner search,
    reconciliation loop ([match_and_update]), Reduce adapter ([call_Reduce])
    and batch driver ([add_hydrogens]), with the properties of its
    specification stated and settled against it.

    Numbers.  A Python float is modelled by the rational it denotes ([Q]);
    [round], [*] and [int] are the exact operations on that rational, so the
    binary64 rounding of a product is not part of the model.  The library
    function [Vector3.distance] is a parameter of the development. *)

From Stdlib Require Import ZArith QArith Qround Qabs Lia Lqa String Ascii List Sorted.
From stdpp Require Import gmap strings list fin_maps.

Local Open Scope Z_scope.

(** ** Python numerics *)

Module Py.

(** [round(x)] to the nearest integer, ties to the even neighbour. *)
Definition round_half_even (q : Q) : Z :=
  let f := Qfloor q in
  match (q - inject_Z f ?= 1 # 2)%Q with
  | Lt => f
  | Gt => f + 1
  | Eq => if Z.even f then f else f + 1
  end.

(** [round(x, ndigits)] for [ndigits >= 0]. *)
Definition round (x : Q) (ndigits : nat) : Q :=
  let scale := inject_Z (10 ^ Z.of_nat ndigits) in
  (inject_Z (round_half_even (x * scale)) / scale)%Q.

(** [int(x)]: truncation toward zero. *)
Definition int (x : Q) : Z := Z.quot (Qnum x) (Z.pos (Qden x)).

End Py.

(** ** Positions and the position key *)

Record Vector3 := mkVector3 { vx : Q; vy : Q; vz : Q }.

Definition Key : Type := Z * Z * Z.

(** [tuple(map(f, v))] for a [Vector3], which iterates as x, y, z. *)
Definition tuple_map (f : Q -> Z) (v : Vector3) : Key :=
  (f (vx v), f (vy v), f (vz v)).

(** The per-coordinate lambda of [get_position_key]. *)
Definition key_coord (x : Q) : Z := Py.int (50 * Py.round x 4).

(** The quantization unit of the key: one key step is 1/50. *)
Definition quantum : Q := 1 # 50.

(** ** Python strings

    A [str] is a [string] of code points below 256; [bytes] written to a
    file and the text read back from it are the same [string]. *)

Module PyStr.

Definition LF : ascii := "010"%char.
Definition CR : ascii := "013"%char.

Definition startswith (s p : string) : bool := String.prefix p s.

Definition endswith (s p : string) : bool :=
  let n := String.length s in
  let m := String.length p in
  (m <=? n)%nat && String.eqb (String.substring (n - m) m s) p.

(** The line boundaries of [str.splitlines] other than CR: LF, VT, FF, FS,
    GS, RS and NEL. *)
Definition is_boundary (c : ascii) : bool :=
  match nat_of_ascii c with
  | 10%nat | 11%nat | 12%nat | 28%nat | 29%nat | 30%nat | 133%nat => true
  | _ => false
  end.

Fixpoint splitlines_from (cur : string) (s : string) : list string :=
  match s with
  | EmptyString => if String.eqb cur "" then [] else [cur]
  | String c rest =>
      if Ascii.eqb c CR then
        match rest with
        | String c' rest' =>
            if Ascii.eqb c' LF then cur :: splitlines_from "" rest'
            else cur :: splitlines_from "" rest
        | EmptyString => [cur]
        end
      else if is_boundary c then cur :: splitlines_from "" rest
      else splitlines_from (cur +:+ String c "") rest
  end.

(** [s.splitlines()] *)
Definition splitlines (s : string) : list string := splitlines_from "" s.

(** Lines of a text file opened with universal newlines: each line keeps its
    terminator, and CR and CR LF read as LF. *)
Fixpoint readlines_from (cur : string) (s : string) : list string :=
  match s with
  | EmptyString => if String.eqb cur "" then [] else [cur]
  | String c rest =>
      if Ascii.eqb c CR then
        match rest with
        | String c' rest' =>
            if Ascii.eqb c' LF then (cur +:+ String LF "") :: readlines_from "" rest'
            else (cur +:+ String LF "") :: readlines_from "" rest
        | EmptyString => [cur +:+ String LF ""]
        end
      else if Ascii.eqb c LF then (cur +:+ String LF "") :: readlines_from "" rest
      else readlines_from (cur +:+ String c "") rest
  end.

(** [f.readlines()] *)
Definition readlines (s : string) : list string := readlines_from "" s.

(** [' '.join(args)] *)
Definition join (sep : string) (l : list string) : string := String.concat sep l.

End PyStr.

(** ** The molecular graph of the host library

    Atoms, bonds and residues are objects: a reference into the store of
    their class.  A complex is the sequence of its residues (molecules and
    chains only group them), and its atoms are those of its residues in
    order. *)

Definition ref : Type := positive.

Inductive Kind := KUnknown | CovalentSingle | CovalentDouble | CovalentTriple | Aromatic.

Record Atom := mkAtom {
  symbol : string;
  serial : Z;
  atom_name : string;
  position : Vector3;
  display_mode : Z;
  is_het : bool;
  selected : bool;
  bfactor : Q;
  occupancy : Q;
  residue : option ref
}.

Record Bond := mkBond {
  kind : Kind;
  atom1 : option ref;
  atom2 : option ref;
  bond_parent : option ref
}.

Record Residue := mkResidue {
  res_atoms : list ref;
  res_bonds : list ref
}.

Record Complex := mkComplex { residues : list ref }.

(** [get_position_key(atom)] *)
Definition get_position_key (atom : Atom) : Key :=
  tuple_map (fun x => Py.int (50 * Py.round x 4)) (position atom).

(** ** Files, logs and the state of a run *)

Record FileObj := mkFileObj { name : string; closed : bool }.

Inductive Level := LDebug | LWarning | LError.

Inductive LogArg :=
  | AInt (z : Z)
  | AStr (s : string)
  | AArgs (l : list string)
  | APos (p : Vector3).

Record LogEntry := mkLog { level : Level; message : string; log_args : list LogArg }.

Inductive Notification := NotifyError (msg : string).

Record World := mkWorld {
  atoms_of : gmap ref Atom;
  bonds_of : gmap ref Bond;
  residues_of : gmap ref Residue;
  files_of : gmap ref FileObj;
  fs : gmap string string;
  current_output : string;
  logs : list LogEntry;
  notifications : list Notification;
  responses : list (list Complex)
}.

Definition with_atoms (f : gmap ref Atom -> gmap ref Atom) (w : World) : World :=
  mkWorld (f (atoms_of w)) (bonds_of w) (residues_of w) (files_of w) (fs w)
          (current_output w) (logs w) (notifications w) (responses w).

Definition with_bonds (f : gmap ref Bond -> gmap ref Bond) (w : World) : World :=
  mkWorld (atoms_of w) (f (bonds_of w)) (residues_of w) (files_of w) (fs w)
          (current_output w) (logs w) (notifications w) (responses w).

Definition with_residues (f : gmap ref Residue -> gmap ref Residue) (w : World) : World :=
  mkWorld (atoms_of w) (bonds_of w) (f (residues_of w)) (files_of w) (fs w)
          (current_output w) (logs w) (notifications w) (responses w).

Definition with_files (f : gmap ref FileObj -> gmap ref FileObj) (w : World) : World :=
  mkWorld (atoms_of w) (bonds_of w) (residues_of w) (f (files_of w)) (fs w)
          (current_output w) (logs w) (notifications w) (responses w).

Definition with_fs (f : gmap string string -> gmap string string) (w : World) : World :=
  mkWorld (atoms_of w) (bonds_of w) (residues_of w) (files_of w) (f (fs w))
          (current_output w) (logs w) (notifications w) (responses w).

Definition with_current_output (f : string -> string) (w : World) : World :=
  mkWorld (atoms_of w) (bonds_of w) (residues_of w) (files_of w) (fs w)
          (f (current_output w)) (logs w) (notifications w) (responses w).

Definition with_logs (f : list LogEntry -> list LogEntry) (w : World) : World :=
  mkWorld (atoms_of w) (bonds_of w) (residues_of w) (files_of w) (fs w)
          (current_output w) (f (logs w)) (notifications w) (responses w).

Definition with_notifications (f : list Notification -> list Notification) (w : World) : World :=
  mkWorld (atoms_of w) (bonds_of w) (residues_of w) (files_of w) (fs w)
          (current_output w) (logs w) (f (notifications w)) (responses w).

Definition with_responses (f : list (list Complex) -> list (list Complex)) (w : World) : World :=
  mkWorld (atoms_of w) (bonds_of w) (residues_of w) (files_of w) (fs w)
          (current_output w) (logs w) (notifications w) (f (responses w)).

(** ** Computations: state and exceptions

    A raised exception keeps the state reached, as the mutations done before
    a Python exception stay done. *)

Inductive Exception :=
  | IndexError       (* a list index out of range *)
  | AttributeError   (* an attribute of [None] *)
  | ValueError       (* a write to a closed file *)
  | FileNotFound     (* a path that names no file *)
  | DanglingRef.     (* a reference outside the store: no Python object *)

Inductive Outcome (A : Type) :=
  | Return (a : A) (w : World)
  | Raise (e : Exception) (w : World).
Arguments Return {A} a w.
Arguments Raise {A} e w.

Definition Run (A : Type) : Type := World -> Outcome A.

#[global] Instance Run_ret : MRet Run := fun A a w => Return a w.
#[global] Instance Run_bind : MBind Run := fun A B f m w =>
  match m w with
  | Return a w' => f a w'
  | Raise e w' => Raise e w'
  end.

Definition raise {A} (e : Exception) : Run A := fun w => Raise e w.
Definition gets {A} (f : World -> A) : Run A := fun w => Return (f w) w.
Definition modify (f : World -> World) : Run unit := fun w => Return tt (f w).
Definition state {A} (f : World -> A * World) : Run A :=
  fun w => let '(a, w') := f w in Return a w'.

(** The state a computation ends in, returned or raised. *)
Definition final_world {A} (o : Outcome A) : World :=
  match o with Return _ w => w | Raise _ w => w end.

(** [for x in l: body(x)] *)
Fixpoint for_each {A} (body : A -> Run unit) (l : list A) : Run unit :=
  match l with
  | [] => mret tt
  | x :: l' => body x ;; for_each body l'
  end.

(** [for x in l:] with the local variables of the loop as [acc]. *)
Fixpoint for_fold {A S} (body : S -> A -> Run S) (l : list A) (acc : S) : Run S :=
  match l with
  | [] => mret acc
  | x :: l' => acc' ← body acc x; for_fold body l' acc'
  end.

(** *** Object access *)

Definition from_store {V} (m : World -> gmap ref V) (r : ref) : Run V :=
  fun w => match m w !! r with
           | Some v => Return v w
           | None => Raise DanglingRef w
           end.

Definition get_atom : ref -> Run Atom := from_store atoms_of.
Definition get_bond : ref -> Run Bond := from_store bonds_of.
Definition get_residue : ref -> Run Residue := from_store residues_of.
Definition get_file : ref -> Run FileObj := from_store files_of.

Definition update_atom (a : ref) (f : Atom -> Atom) : Run unit :=
  A ← get_atom a; modify (with_atoms <[a := f A]>).
Definition update_bond (b : ref) (f : Bond -> Bond) : Run unit :=
  B ← get_bond b; modify (with_bonds <[b := f B]>).
Definition update_residue (r : ref) (f : Residue -> Residue) : Run unit :=
  R ← get_residue r; modify (with_residues <[r := f R]>).

Definition new_atom_object (A : Atom) : Run ref :=
  fun w => let a := fresh (dom (atoms_of w)) in Return a (with_atoms <[a := A]> w).
Definition new_bond_object (B : Bond) : Run ref :=
  fun w => let b := fresh (dom (bonds_of w)) in Return b (with_bonds <[b := B]> w).

(** An attribute that holds an object, or [None]. *)
Definition deref {A} (o : option A) : Run A :=
  match o with Some x => mret x | None => raise AttributeError end.

(** [l[i]] for [0 <= i] *)
Definition getitem {A} (l : list A) (i : nat) : Run A :=
  match l !! i with Some x => mret x | None => raise IndexError end.

(** *** Field setters *)

Definition set_symbol (s : string) (A : Atom) : Atom :=
  mkAtom s (serial A) (atom_name A) (position A) (display_mode A) (is_het A)
         (selected A) (bfactor A) (occupancy A) (residue A).
Definition set_display_mode (d : Z) (A : Atom) : Atom :=
  mkAtom (symbol A) (serial A) (atom_name A) (position A) d (is_het A)
         (selected A) (bfactor A) (occupancy A) (residue A).
Definition set_is_het (b : bool) (A : Atom) : Atom :=
  mkAtom (symbol A) (serial A) (atom_name A) (position A) (display_mode A) b
         (selected A) (bfactor A) (occupancy A) (residue A).
Definition set_selected (b : bool) (A : Atom) : Atom :=
  mkAtom (symbol A) (serial A) (atom_name A) (position A) (display_mode A) (is_het A)
         b (bfactor A) (occupancy A) (residue A).
Definition set_bfactor (q : Q) (A : Atom) : Atom :=
  mkAtom (symbol A) (serial A) (atom_name A) (position A) (display_mode A) (is_het A)
         (selected A) q (occupancy A) (residue A).
Definition set_occupancy (q : Q) (A : Atom) : Atom :=
  mkAtom (symbol A) (serial A) (atom_name A) (position A) (display_mode A) (is_het A)
         (selected A) (bfactor A) q (residue A).
Definition set_residue (r : option ref) (A : Atom) : Atom :=
  mkAtom (symbol A) (serial A) (atom_name A) (position A) (display_mode A) (is_het A)
         (selected A) (bfactor A) (occupancy A) r.

Definition set_atom1 (a : option ref) (B : Bond) : Bond :=
  mkBond (kind B) a (atom2 B) (bond_parent B).
Definition set_atom2 (a : option ref) (B : Bond) : Bond :=
  mkBond (kind B) (atom1 B) a (bond_parent B).
Definition set_bond_parent (r : option ref) (B : Bond) : Bond :=
  mkBond (kind B) (atom1 B) (atom2 B) r.

Definition push_atom (a : ref) (R : Residue) : Residue :=
  mkResidue (res_atoms R ++ [a]) (res_bonds R).
Definition push_bond (b : ref) (R : Residue) : Residue :=
  mkResidue (res_atoms R) (res_bonds R ++ [b]).

(** *** The host library's structure API *)

(** [_Atom._shallow_copy]: a new atom object with the fields of [a] and no
    parent residue. *)
Definition Atom_shallow_copy (a : ref) : Run ref :=
  A ← get_atom a; new_atom_object (set_residue None A).

(** [_Bond._create] *)
Definition Bond_create : Run ref :=
  new_bond_object (mkBond KUnknown None None None).

(** [_Bond._shallow_copy]: a new bond object of the same kind, with no
    endpoints and no parent. *)
Definition Bond_shallow_copy (b : ref) : Run ref :=
  B ← get_bond b; new_bond_object (mkBond (kind B) None None None).

(** [residue.add_atom(atom)]: append and set the back-reference. *)
Definition Residue_add_atom (r a : ref) : Run unit :=
  update_residue r (push_atom a);;
  update_atom a (set_residue (Some r)).

(** [residue.add_bond(bond)], [residue._add_bond(bond)] *)
Definition Residue_add_bond (r b : ref) : Run unit :=
  update_residue r (push_bond b);;
  update_bond b (set_bond_parent (Some r)).

(** [complex.atoms] *)
Definition Complex_atoms (c : Complex) : Run (list ref) :=
  for_fold (fun acc r => R ← get_residue r; mret (acc ++ res_atoms R)) (residues c) [].

(** *** Logging and notifications *)

Definition Logs_write (l : Level) (msg : string) (args : list LogArg) : Run unit :=
  modify (with_logs (fun ls => ls ++ [mkLog l msg args])).
Definition Logs_debug := Logs_write LDebug.
Definition Logs_warning := Logs_write LWarning.
Definition Logs_error := Logs_write LError.

Definition send_notification (n : Notification) : Run unit :=
  modify (with_notifications (fun ns => ns ++ [n])).

(** *** Files *)

(** [f.write(data)]: appends to the file under [f.name]; a closed file
    object refuses the write. *)
Definition File_write (f : ref) (data : string) : Run unit :=
  F ← get_file f;
  if closed F then raise ValueError
  else modify (with_fs (fun m => <[name F := default ""%string (m !! name F) +:+ data]> m)).

(** [f.close()]: closing a closed file object does nothing. *)
Definition File_close (f : ref) : Run unit :=
  F ← get_file f; modify (with_files <[f := mkFileObj (name F) true]>).

(** [open(path).read()] *)
Definition read_text (path : string) : Run string :=
  fun w => match fs w !! path with
           | Some s => Return s w
           | None => Raise FileNotFound w
           end.

(** ** The collaborators outside the plugin

    The distance of the vector library, the Reduce executable (what it exits
    with and what it prints, given its arguments and the files it can read),
    the PDB writer and parser of the host library, and the install paths. *)

Record ProcessRun := mkProcessRun {
  exit_code : Z;
  stdout_chunks : list string;
  stderr_chunks : list string
}.

Class Host := {
  Vector3_distance : Vector3 -> Vector3 -> Q;
  Process_run : string -> list string -> gmap string string -> ProcessRun;
  pdb_of_complex : World -> Complex -> string;
  complex_of_pdb : string -> World -> option Complex * World;
  REDUCE_PATH : string;
  REDUCE_DICT_PATH : string
}.

Module Py_cmp.
(** [x < y] and [x > y] on floats *)
Definition lt (x y : Q) : bool :=
  match (x ?= y)%Q with Lt => true | _ => false end.
Definition gt (x y : Q) : bool := lt y x.
End Py_cmp.

Section Plugin.
Context `{Host}.

Local Open Scope string_scope.

(** [complex.io.to_pdb(path)] *)
Definition Complex_to_pdb (c : Complex) (path : string) : Run unit :=
  fun w => Return tt (with_fs <[path := pdb_of_complex w c]> w).

(** [Complex.io.from_pdb(path=path)] *)
Definition Complex_from_pdb (path : string) : Run (option Complex) :=
  text ← read_text path;
  state (complex_of_pdb text).

(** [await p.start()]: the process runs to its end; each chunk of its error
    output goes to [on_error], each chunk of its output to [on_output]. *)
Definition Process_start (executable_path : string) (args : list string)
    (on_error : string -> Run unit) (on_output : list string -> Run unit) : Run Z :=
  files ← gets fs;
  let r := Process_run executable_path args files in
  for_each on_error (stderr_chunks r);;
  for_each (fun chunk => on_output [chunk]) (stdout_chunks r);;
  mret (exit_code r).

(** *** [get_closest_heavy_atom_in_residue] *)

Definition closest_body (atom : ref) (acc : option ref * Q) (a : ref)
    : Run (option ref * Q) :=
  let '(result, minD) := acc in
  if decide (a ≠ atom) then
    Aa ← get_atom a;
    if negb (String.eqb (symbol Aa) "H") then
      A ← get_atom atom;
      let d := Vector3_distance (position Aa) (position A) in
      if Py_cmp.lt d minD then mret (Some a, d) else mret (result, minD)
    else mret (result, minD)
  else mret (result, minD).

Definition get_closest_heavy_atom_in_residue (complex : Complex) (atom : ref)
    : Run (option ref * Q) :=
  A ← get_atom atom;
  r ← deref (residue A);
  R ← get_residue r;
  for_fold (closest_body atom) (res_atoms R) (None, 10000%Q).

(** *** [add_bond] *)

Definition set_kind (k : Kind) (B : Bond) : Bond :=
  mkBond k (atom1 B) (atom2 B) (bond_parent B).

Definition add_bond (atom1 atom2 : ref) : Run ref :=
  new_bond ← Bond_create;
  update_bond new_bond (set_kind CovalentSingle);;
  update_bond new_bond (set_atom1 (Some atom1));;
  update_bond new_bond (set_atom2 (Some atom2));;
  A2 ← get_atom atom2;
  r ← deref (residue A2);
  Residue_add_bond r new_bond;;
  mret new_bond.

(** *** [match_and_update]

    The loop body returns which way it left: one of the three [continue]s,
    or the end of the body with the atom and bond it inserted. *)

Inductive Matched :=
  | NoPartner
  | TooFar
  | Orphan
  | Grafted (new_atom new_bond : ref).

Definition match_and_update_body (atom_by_position : gmap Key ref)
    (result_complex : Complex) (atoms : list ref) (id : nat) : Run Matched :=
  h_atom ← getitem atoms id;
  update_atom h_atom (set_symbol "H");;
  '(bonded, dist) ← get_closest_heavy_atom_in_residue result_complex h_atom;
  match bonded with
  | None =>
      Logs_debug "Could not find heavy atom linked to the hydrogen" [AInt (Z.of_nat id)];;
      mret NoPartner
  | Some bonded_atom =>
      if Py_cmp.gt dist 2 then
        Logs_debug "Could not find heavy atom linked to the hydrogen"
                   [AInt (Z.of_nat id); AStr "(too far)"];;
        mret TooFar
      else
        bond ← add_bond h_atom bonded_atom;
        Ab ← get_atom bonded_atom;
        let bonded_atom_key := get_position_key Ab in
        match atom_by_position !! bonded_atom_key with
        | None =>
            Ah ← get_atom h_atom;
            Logs_warning "H {} bonded with unknown atom {} at {}"
                         [AInt (serial Ah); AStr (symbol Ab); APos (position Ab)];;
            mret Orphan
        | Some source_atom =>
            new_atom ← Atom_shallow_copy h_atom;
            As ← get_atom source_atom;
            update_atom new_atom (set_display_mode (display_mode As));;
            As ← get_atom source_atom;
            update_atom new_atom (set_is_het (is_het As));;
            As ← get_atom source_atom;
            update_atom new_atom (set_selected (selected As));;
            As ← get_atom source_atom;
            update_atom new_atom (set_bfactor (bfactor As));;
            As ← get_atom source_atom;
            update_atom new_atom (set_occupancy (occupancy As));;
            new_bond ← Bond_shallow_copy bond;
            update_bond new_bond (set_atom1 (Some source_atom));;
            update_bond new_bond (set_atom2 (Some new_atom));;
            As ← get_atom source_atom;
            residue ← deref (residue As);
            Residue_add_atom residue new_atom;;
            Residue_add_bond residue new_bond;;
            mret (Grafted new_atom new_bond)
        end
  end.

Definition match_and_update (atom_by_position : gmap Key ref)
    (result_complex : Complex) (hydrogen_ids : list nat) : Run unit :=
  Logs_debug "Matching atoms between Reduce-generated file and Nanome structure" [];;
  atoms ← Complex_atoms result_complex;
  for_each (fun id => match_and_update_body atom_by_position result_complex atoms id;; mret tt)
           hydrogen_ids;;
  Logs_debug "Matching done" [].

(** *** [call_Reduce] *)

(** The pair [(-1, -1)], or the parsed complex with the indices of the new
    hydrogens. *)
Inductive ReduceResult :=
  | Failure
  | Parsed (hydrogenated : option Complex) (new_hydrogens : list nat).

Definition output_to_file (args : list string) : Run unit :=
  let msg := PyStr.join " " args in
  modify (with_current_output (fun s => s +:+ msg)).

Definition is_structural (l : string) : bool :=
  PyStr.startswith l "ATOM" || PyStr.startswith l "HETATM" || PyStr.startswith l "CONECT".

Definition is_new_line (line : string) : bool :=
  (84 <? String.length line)%nat && PyStr.endswith line ("new" +:+ String PyStr.LF "").

(** The scan of the file's lines, with the counter [id]. *)
Fixpoint scan_lines (lines : list string) (id : nat) (new_hydrogens : list nat) : list nat :=
  match lines with
  | [] => new_hydrogens
  | line :: rest =>
      let new_hydrogens :=
        if is_new_line line then (new_hydrogens ++ [id])%list else new_hydrogens in
      scan_lines rest (id + 1) new_hydrogens
  end.

Definition call_Reduce (pdb_path : string) (output_pdb : ref) (flip histidines : bool)
    : Run ReduceResult :=
  let args := ["-DROP_HYDROGENS_ON_ATOM_RECORDS"; "-DROP_HYDROGENS_ON_OTHER_RECORDS";
               "-DB"; REDUCE_DICT_PATH; pdb_path; "-H2OOCCcutoff0.0"; "-H2OBcutoff99"] in
  let args := if flip then "-FLIP" :: args else args in
  let args := if histidines then "-HIS" :: args else args in
  Logs_debug "Starting Reduce with arguments:" [AArgs args];;
  exit_code ← Process_start REDUCE_PATH args (fun msg => Logs_error msg []) output_to_file;
  if (exit_code <? 0)%Z then
    Logs_error "Reduce returned an error" [AInt exit_code];;
    mret Failure
  else
    out ← gets current_output;
    for_each (fun l => if is_structural l
                       then File_write output_pdb (l +:+ String PyStr.LF "")
                       else mret tt)
             (PyStr.splitlines out);;
    File_close output_pdb;;
    F ← get_file output_pdb;
    hydrogenated ← Complex_from_pdb (name F);
    text ← read_text (name F);
    let new_hydrogens := scan_lines (PyStr.readlines text) 0 [] in
    mret (Parsed hydrogenated new_hydrogens).

(** *** [add_hydrogens] *)

Record Plugin := mkPlugin {
  input_file : ref;
  output_file : ref;
  reduce_flip : bool;
  reduce_HIS : bool
}.

Definition add_hydrogens_body (self : Plugin) (complex : Complex) : Run unit :=
  Fin ← get_file (input_file self);
  Complex_to_pdb complex (name Fin);;
  atoms ← Complex_atoms complex;
  atom_by_position ←
    for_fold (fun (d : gmap Key ref) atom =>
                A ← get_atom atom; mret (<[get_position_key A := atom]> d))
             atoms ∅;
  res ← call_Reduce (name Fin) (output_file self) (reduce_flip self) (reduce_HIS self);
  match res with
  | Failure =>
      send_notification (NotifyError "Error computing hydrogens, reduce failed")
  | Parsed None _ =>
      Logs_error "Could not read the PDB generated by Reduce" []
  | Parsed (Some result_complex) hydrogen_ids =>
      if (length hydrogen_ids =? 0)%nat then
        Logs_error "Could not read the PDB generated by Reduce" []
      else
        match_and_update atom_by_position result_complex hydrogen_ids
  end.

Definition add_hydrogens (self : Plugin) (request : option (list Complex))
    (complexes : list Complex) : Run (list Complex) :=
  let complexes := match request with Some args => args | None => complexes end in
  for_each (add_hydrogens_body self) complexes;;
  match request with
  | Some _ => modify (with_responses (fun rs => (rs ++ [complexes])%list))
  | None => mret tt
  end;;
  mret complexes.

End Plugin.

(** * Predicates, specification wordings and concrete scenes *)

(** ** The position key *)

(** Each coordinate of [p] is within [eps] of that of [q]. *)
Definition coords_within (eps : Q) (p q : Vector3) : Prop :=
  (Qabs (vx p - vx q) < eps)%Q /\ (Qabs (vy p - vy q) < eps)%Q /\
  (Qabs (vz p - vz q) < eps)%Q.

(** Some coordinate of [p] is at least [d] away from that of [q]. *)
Definition coord_apart (d : Q) (p q : Vector3) : Prop :=
  (d <= Qabs (vx p - vx q))%Q \/ (d <= Qabs (vy p - vy q))%Q \/
  (d <= Qabs (vz p - vz q))%Q.

(** Some coordinate of [p] is more than [d] away from that of [q]. *)
Definition coord_beyond (d : Q) (p q : Vector3) : Prop :=
  (d < Qabs (vx p - vx q))%Q \/ (d < Qabs (vy p - vy q))%Q \/
  (d < Qabs (vz p - vz q))%Q.

(** [x] and [y] lie on the same side of zero and more than [d] apart. *)
Definition same_side_apart (d x y : Q) : Prop :=
  (d < Qabs (x - y))%Q /\ ((0 <= x /\ 0 <= y) \/ (x <= 0 /\ y <= 0))%Q.

Definition coord_same_side_apart (d : Q) (p q : Vector3) : Prop :=
  same_side_apart d (vx p) (vx q) \/ same_side_apart d (vy p) (vy q) \/
  same_side_apart d (vz p) (vz q).

(** The keys differ by at most one step in each component. *)
Definition key_near (k1 k2 : Key) : Prop :=
  let '(x1, y1, z1) := k1 in
  let '(x2, y2, z2) := k2 in
  Z.abs (x1 - x2) <= 1 /\ Z.abs (y1 - y2) <= 1 /\ Z.abs (z1 - z2) <= 1.

(** The claim of the specification, as it is worded: sub-tolerance
    perturbations keep the key, and more than one quantization unit in some
    coordinate changes it. *)
Definition spec_key_tolerance : Prop :=
  forall a b : Atom,
    coords_within (quantum / 100) (position a) (position b) ->
    get_position_key a = get_position_key b.

Definition spec_key_separation : Prop :=
  forall a b : Atom,
    coord_beyond quantum (position a) (position b) ->
    get_position_key a <> get_position_key b.

(** An atom at a given position, all else blank. *)
Definition atom_at (x y z : Q) : Atom :=
  mkAtom "C" 0 "C" (mkVector3 x y z) 0 false false 0 0 None.

(** *** The scan of the output file *)

(** The specification's wording of a new-atom record, for a line of text:
    longer than 84 characters and ending with the token [new]. *)
Definition spec_is_new (line : string) : bool :=
  (84 <? String.length line)%nat && PyStr.endswith line "new".

(** A line and its terminator. *)
Definition terminated (l : string) : string := l +:+ String PyStr.LF "".

(** *** The Reduce adapter, step by step *)

(** Everything the process printed, in order. *)
Definition printed (r : ProcessRun) : string := String.concat "" (stdout_chunks r).

Definition error_logs (r : ProcessRun) : list LogEntry :=
  map (fun msg => mkLog LError msg []) (stderr_chunks r).

(** The state after the process has run: its error output logged and its
    output appended to the buffer. *)
Definition after_process (r : ProcessRun) (w : World) : World :=
  with_current_output (fun s => s +:+ printed r)
    (with_logs (fun ls => ls ++ error_logs r) w).

(** What the adapter writes for the lines of the buffer: the structural
    records, each with a line feed. *)
Definition written (lines : list string) : string :=
  String.concat "" (map terminated (List.filter is_structural lines)).

(** The body of the loop that writes the output file. *)
Definition write_structural (output_pdb : ref) (l : string) : Run unit :=
  if is_structural l then File_write output_pdb (terminated l) else mret tt.

Section AdapterSteps.
Context `{Host}.

(** The arguments Reduce is started with. *)
Definition reduce_args (pdb_path : string) (flip histidines : bool) : list string :=
  let args := ["-DROP_HYDROGENS_ON_ATOM_RECORDS"; "-DROP_HYDROGENS_ON_OTHER_RECORDS";
               "-DB"; REDUCE_DICT_PATH; pdb_path; "-H2OOCCcutoff0.0"; "-H2OBcutoff99"]%string in
  let args := if flip then "-FLIP"%string :: args else args in
  if histidines then "-HIS"%string :: args else args.

(** The state in which Reduce is started, and the run it makes there. *)
Definition started (pdb_path : string) (flip histidines : bool) (w : World) : World :=
  with_logs (fun ls => ls ++ [mkLog LDebug "Starting Reduce with arguments:"
                                    [AArgs (reduce_args pdb_path flip histidines)]]) w.

Definition reduce_run (pdb_path : string) (flip histidines : bool) (w : World) : ProcessRun :=
  Process_run REDUCE_PATH (reduce_args pdb_path flip histidines) (fs w).

End AdapterSteps.

(** ** Concrete collaborators for the examples

    The distance is the Euclidean one wherever the squared distance is the
    square of a rational (elsewhere its square root is rounded down to a
    multiple of the squared distance's denominator).  The engine stands in
    for Reduce: it fails on an empty or missing input file and otherwise
    prints its input.  The parser stands in for the host's: it builds no
    object and returns a complex of no residue for a non-empty text. *)

Definition euclid (p q : Vector3) : Q :=
  let dx := (vx p - vx q)%Q in
  let dy := (vy p - vy q)%Q in
  let dz := (vz p - vz q)%Q in
  let d2 := Qred (dx * dx + dy * dy + dz * dz) in
  Z.sqrt (Qnum d2 * Z.pos (Qden d2)) # Qden d2.

Definition echo_engine (exe : string) (args : list string)
    (files : gmap string string) : ProcessRun :=
  let path := nth (length args - 3) args ""%string in
  match files !! path with
  | None => mkProcessRun (-1) [] ["no input"%string]
  | Some text =>
      if String.eqb text "" then mkProcessRun (-1) [] ["empty input"%string]
      else mkProcessRun 0 [text] []
  end.

Definition blank_pdb (w : World) (c : Complex) : string :=
  match residues c with
  | [] => ""%string
  | _ => "ATOM      1  C   ALA A   1"%string
  end.

Definition blank_parser (text : string) (w : World) : option Complex * World :=
  (if String.eqb text "" then None else Some (mkComplex []), w).

#[local] Instance test_host : Host := {|
  Vector3_distance := euclid;
  Process_run := echo_engine;
  pdb_of_complex := blank_pdb;
  complex_of_pdb := blank_parser;
  REDUCE_PATH := "bin/linux/reduce";
  REDUCE_DICT_PATH := "data/reduce_wwPDB_het_dict.txt"
|}.

(** A state with two open temporary files and an input file. *)
Definition files_world (input : string) : World :=
  mkWorld ∅ ∅ ∅
    (<[1%positive := mkFileObj "in.pdb" false]>
       (<[2%positive := mkFileObj "out.pdb" false]>
          (<[3%positive := mkFileObj "out2.pdb" false]> ∅)))
    (<["in.pdb"%string := input]>
       (<["out.pdb"%string := ""%string]> (<["out2.pdb"%string := ""%string]> ∅)))
    "" [] [] [].

(** A record of 84 characters that ends with [new]. *)
Definition new_record : string :=
  "ATOM      0  H   MET A   1      27.999  24.123   5.123  1.00 38.06           H   new".

(** A record of the input. *)
Definition old_record : string :=
  "ATOM      1  N   MET A   1      27.340  24.430   2.614  1.00  9.67           N".

(** A record of a later run. *)
Definition second_record : string :=
  "HETATM    2  O   HOH A   2      30.112  21.005   4.871  1.00 12.30           O".

(** ** Well-formed stores and the two complexes

    The predicates are built from [Forall], [Exists] and [map_Forall] over
    decidable facts, so that they can be decided on a concrete store. *)

(** The residue an atom object points back to, if the object exists. *)
Definition parent_of (w : World) (a : ref) : option ref :=
  atoms_of w !! a ≫= residue.

(** The atom list of a residue object ([[]] if there is no such object). *)
Definition atoms_at (w : World) (r : ref) : list ref :=
  default [] (res_atoms <$> residues_of w !! r).

Definition bonds_at (w : World) (r : ref) : list ref :=
  default [] (res_bonds <$> residues_of w !! r).

(** Every atom listed in a residue exists and points back to that residue,
    and every bond listed in a residue exists. *)
Definition wf_heap (w : World) : Prop :=
  map_Forall (fun r R => Forall (fun a => parent_of w a = Some r) (res_atoms R) /\
                         Forall (fun b => is_Some (bonds_of w !! b)) (res_bonds R))
             (residues_of w).

(** The residues of the complex exist. *)
Definition wf_complex (w : World) (c : Complex) : Prop :=
  Forall (fun r => is_Some (residues_of w !! r)) (residues c).

(** [a] is an atom of the complex, [b] a bond of the complex. *)
Definition atom_in (w : World) (c : Complex) (a : ref) : Prop :=
  Exists (fun r => a ∈ atoms_at w r) (residues c).

Definition bond_in (w : World) (c : Complex) (b : ref) : Prop :=
  Exists (fun r => b ∈ bonds_at w r) (residues c).

(** The two complexes share no residue. *)
Definition separate (O Rc : Complex) : Prop :=
  Forall (fun r => r ∉ residues Rc) (residues O).

(** The position index holds atoms of the original complex only. *)
Definition index_of (w : World) (O : Complex) (atom_by_position : gmap Key ref) : Prop :=
  map_Forall (fun _ a => atom_in w O a) atom_by_position.

(** The position index built by the driver: later atoms overwrite. *)
Definition build_index (w : World) (atoms : list ref) : gmap Key ref :=
  fold_left (fun d a => match atoms_of w !! a with
                        | Some A => <[get_position_key A := a]> d
                        | None => d
                        end) atoms ∅.

(** The hypotheses under which the reconciliation is studied: a well-formed
    store holding an original complex [O] and a reparsed complex [Rc] that
    share no residue, and an index into [O]. *)
Record scene (w : World) (O Rc : Complex) (atom_by_position : gmap Key ref) : Prop := {
  scene_heap : wf_heap w;
  scene_original : wf_complex w O;
  scene_reparsed : wf_complex w Rc;
  scene_separate : separate O Rc;
  scene_index : index_of w O atom_by_position
}.

(** *** The partner search *)

(** The candidates of the search for [atom]: the other atoms of its residue
    whose symbol is not hydrogen. *)
Definition heavy_candidate (w : World) (atom : ref) (a : ref) (Aa : Atom) : Prop :=
  a ≠ atom /\ atoms_of w !! a = Some Aa /\ symbol Aa ≠ "H"%string.

(** The specification's wording of the search: with a candidate in the
    residue, the search returns a candidate of least distance. *)
Definition spec_partner_search `{Host} : Prop :=
  forall (complex : Complex) (atom : ref) (w : World) (A : Atom) (r : ref) (R : Residue),
    atoms_of w !! atom = Some A -> residue A = Some r -> residues_of w !! r = Some R ->
    Forall (fun a => is_Some (atoms_of w !! a)) (res_atoms R) ->
    (exists c Ac, c ∈ res_atoms R /\ heavy_candidate w atom c Ac) ->
    exists b Ab minD,
      get_closest_heavy_atom_in_residue complex atom w = Return (Some b, minD) w /\
      b ∈ res_atoms R /\ heavy_candidate w atom b Ab /\
      forall c Ac, c ∈ res_atoms R -> heavy_candidate w atom c Ac ->
        (Vector3_distance (position Ab) (position A)
         <= Vector3_distance (position Ac) (position A))%Q.

(** What the search holds after the atoms [seen]: a distance that no
    candidate among them undercuts, with the first candidate at that distance
    if one is nearer than the initial 10000, and otherwise nothing. *)
Definition best_so_far `{Host} (w : World) (atom : ref) (A : Atom) (seen : list ref)
    (acc : option ref * Q) : Prop :=
  (forall c Ac, c ∈ seen -> heavy_candidate w atom c Ac ->
     (acc.2 <= Vector3_distance (position Ac) (position A))%Q) /\
  match acc.1 with
  | Some b =>
      exists Ab, b ∈ seen /\ heavy_candidate w atom b Ab /\
        acc.2 = Vector3_distance (position Ab) (position A) /\ (acc.2 < 10000)%Q
  | None => acc.2 = 10000%Q
  end.

(** *** The states of one round of the reconciliation loop *)

(** The atom the loop inserts: the fields of the hydrogen [Ah], the
    presentation fields of the source atom [As], in the residue [rs]. *)
Definition grafted_atom (Ah As : Atom) (rs : ref) : Atom :=
  mkAtom (symbol Ah) (serial Ah) (atom_name Ah) (position Ah)
         (display_mode As) (is_het As) (selected As) (bfactor As) (occupancy As)
         (Some rs).

(** The state after the hydrogen [h] got its symbol. *)
Definition marked (h : ref) (Ah : Atom) (w : World) : World :=
  with_atoms <[h := set_symbol "H" Ah]> w.

(** The state after [add_bond] on the reparsed side: the bond [nb] from [h]
    to [b], registered in the residue [rb] of [b]. *)
Definition bonded (h b nb rb : ref) (Rb : Residue) (w : World) : World :=
  with_bonds <[nb := mkBond CovalentSingle (Some h) (Some b) (Some rb)]>
    (with_residues <[rb := push_bond nb Rb]> w).

(** The state after the graft: the atom [na] and the bond [nb'] from [src]
    to [na], both in the residue [rs] of [src]. *)
Definition grafted (na nb' src rs : ref) (NA : Atom) (Rs : Residue) (w : World) : World :=
  with_bonds <[nb' := mkBond CovalentSingle (Some src) (Some na) (Some rs)]>
    (with_residues <[rs := push_bond nb' (push_atom na Rs)]>
       (with_atoms <[na := NA]> w)).

Definition log_no_partner (id : nat) : LogEntry :=
  mkLog LDebug "Could not find heavy atom linked to the hydrogen" [AInt (Z.of_nat id)].

Definition log_too_far (id : nat) : LogEntry :=
  mkLog LDebug "Could not find heavy atom linked to the hydrogen"
        [AInt (Z.of_nat id); AStr "(too far)"].

Definition log_orphan (Ah Ab : Atom) : LogEntry :=
  mkLog LWarning "H {} bonded with unknown atom {} at {}"
        [AInt (serial Ah); AStr (symbol Ab); APos (position Ab)].

Definition logged (e : LogEntry) (w : World) : World :=
  with_logs (fun ls => ls ++ [e]) w.

(** *** What the reconciliation leaves of the original complex *)

(** The atoms of a complex, in the order of [complex.atoms]. *)
Definition atom_list (w : World) (c : Complex) : list ref :=
  concat (map (atoms_at w) (residues c)).

(** No atom or bond of [O] in [w] is removed from [O] or modified in [w']. *)
Definition preserved (O : Complex) (w w' : World) : Prop :=
  (forall a, atom_in w O a -> atom_in w' O a /\ atoms_of w' !! a = atoms_of w !! a) /\
  (forall b, bond_in w O b -> bond_in w' O b /\ bonds_of w' !! b = bonds_of w !! b).

(** [O] is in [w'] what it is in [w]: the same residues with the same atom
    and bond lists, the same atom objects and the same bond objects. *)
Definition untouched (O : Complex) (w w' : World) : Prop :=
  (forall r, r ∈ residues O -> residues_of w' !! r = residues_of w !! r) /\
  (forall a, atom_in w O a -> atoms_of w' !! a = atoms_of w !! a) /\
  (forall b, bond_in w O b -> bonds_of w' !! b = bonds_of w !! b).

(** The outcomes of a round in which the hydrogen is skipped. *)
Definition skipped (m : Matched) : Prop :=
  m = NoPartner \/ m = TooFar \/ m = Orphan.

(** *** The four ways of a round

    For the hydrogen [h] with object [Ah], in the residue [rh] with object
    [Rh], and the outcome [acc] of the partner search: the result of the round
    and the state it leaves, way by way. *)
Section RoundPost.
Context `{Host}.

Definition round_post (atom_by_position : gmap Key ref) (O Rc : Complex)
    (atoms : list ref) (id : nat) (w : World)
    (h : ref) (Ah : Atom) (rh : ref) (Rh : Residue) (acc : option ref * Q) : Prop :=
  let run := match_and_update_body atom_by_position Rc atoms id w in
  let w1 := marked h Ah w in
  let nb := fresh (dom (bonds_of w)) in
  match acc.1 with
  | None => run = Return NoPartner (logged (log_no_partner id) w1)
  | Some b =>
      if Py_cmp.gt acc.2 2 then run = Return TooFar (logged (log_too_far id) w1)
      else
        exists Ab,
          atoms_of w !! b = Some Ab /\ b ≠ h /\ b ∈ res_atoms Rh /\
          let w2 := bonded h b nb rh Rh w1 in
          match atom_by_position !! get_position_key Ab with
          | None => run = Return Orphan (logged (log_orphan (set_symbol "H" Ah) Ab) w2)
          | Some src =>
              exists As rs Rs,
                atoms_of w !! src = Some As /\ residue As = Some rs /\
                rs ∈ residues O /\ residues_of w !! rs = Some Rs /\
                src ∈ res_atoms Rs /\
                let na := fresh (dom (atoms_of w1)) in
                let nb' := fresh (dom (bonds_of w2)) in
                run = Return (Grafted na nb')
                        (grafted na nb' src rs
                           (grafted_atom (set_symbol "H" Ah) As rs) Rs w2)
          end
  end.

End RoundPost.

(** The body of the [for] statement of [match_and_update]. *)
Definition round `{Host} (atom_by_position : gmap Key ref) (result_complex : Complex)
    (atoms : list ref) (id : nat) : Run unit :=
  match_and_update_body atom_by_position result_complex atoms id;; mret tt.

(** *** Deciding the hypotheses on a concrete store *)

#[global] Instance wf_heap_dec (w : World) : Decision (wf_heap w).
Proof. unfold wf_heap. apply _. Defined.

#[global] Instance wf_complex_dec (w : World) (c : Complex) : Decision (wf_complex w c).
Proof. unfold wf_complex. apply _. Defined.

#[global] Instance atom_in_dec (w : World) (c : Complex) (a : ref) : Decision (atom_in w c a).
Proof. unfold atom_in. apply _. Defined.

#[global] Instance separate_dec (O Rc : Complex) : Decision (separate O Rc).
Proof. unfold separate. apply _. Defined.

#[global] Instance index_of_dec (w : World) (O : Complex) (m : gmap Key ref) :
  Decision (index_of w O m).
Proof. unfold index_of. apply _. Defined.

(** ** A concrete scene

    The original complex has one residue (1) with a nitrogen (atom 1) at the
    origin, shown, selected and flagged as heteroatom.  The reparsed complex
    has three residues: residue 2 with the nitrogen again (atom 2), a new
    atom at distance exactly 2 (atom 3) and a new atom at distance 3
    (atom 4); residue 3 with a lone new atom (atom 5); residue 4 with a
    carbon that the original does not have (atom 6) and a new atom next to
    it (atom 7). *)

Definition demo_atom (sym : string) (ser : Z) (x y z : Q) (r : ref) : Atom :=
  mkAtom sym ser sym (mkVector3 x y z) 0 false false 0 0 (Some r).

Definition demo_source : Atom :=
  mkAtom "N" 1 "N" (mkVector3 0 0 0) 7 true true (25 # 2) (1 # 2) (Some 1%positive).

Definition demo_world : World :=
  mkWorld
    (<[1%positive := demo_source]>
     (<[2%positive := demo_atom "N" 1 0 0 0 2%positive]>
      (<[3%positive := demo_atom "" 0 2 0 0 2%positive]>
       (<[4%positive := demo_atom "" 0 0 3 0 2%positive]>
        (<[5%positive := demo_atom "" 0 9 9 9 3%positive]>
         (<[6%positive := demo_atom "C" 2 50 50 50 4%positive]>
          (<[7%positive := demo_atom "" 0 51 50 50 4%positive]> ∅)))))))
    ∅
    (<[1%positive := mkResidue [1%positive] []]>
     (<[2%positive := mkResidue [2%positive; 3%positive; 4%positive] []]>
      (<[3%positive := mkResidue [5%positive] []]>
       (<[4%positive := mkResidue [6%positive; 7%positive] []]> ∅))))
    ∅ ∅ "" [] [] [].

Definition demo_original : Complex := mkComplex [1%positive].
Definition demo_reparsed : Complex := mkComplex [2%positive; 3%positive; 4%positive].

Definition demo_index : gmap Key ref :=
  build_index demo_world (atom_list demo_world demo_original).

(** A residue whose only heavy atom is 10000 away from its hydrogen. *)
Definition far_world : World :=
  mkWorld
    (<[1%positive := demo_atom "H" 1 0 0 0 1%positive]>
     (<[2%positive := demo_atom "C" 2 10000 0 0 1%positive]> ∅))
    ∅
    (<[1%positive := mkResidue [1%positive; 2%positive] []]> ∅)
    ∅ ∅ "" [] [] [].

(** The concrete scene with the plugin's temporary files, and a complex of
    no residue, which the stand-in engine fails on. *)
Definition demo_plugin : Plugin := mkPlugin 1%positive 2%positive true false.

Definition demo_files_world : World :=
  with_fs (fun _ => fs (files_world ""))
    (with_files (fun _ => files_of (files_world "")) demo_world).

Definition empty_complex : Complex := mkComplex [].

(** * Further definitions *)

(** ** Orders on positions and keys *)

(** Each coordinate of [p] is at most that of [q]. *)
Definition coords_le (p q : Vector3) : Prop :=
  (vx p <= vx q)%Q /\ (vy p <= vy q)%Q /\ (vz p <= vz q)%Q.

Definition key_le (k1 k2 : Key) : Prop :=
  let '(x1, y1, z1) := k1 in
  let '(x2, y2, z2) := k2 in
  x1 <= x2 /\ y1 <= y2 /\ z1 <= z2.

(** The mirror image of a position and of a key. *)
Definition Vector3_opp (p : Vector3) : Vector3 :=
  mkVector3 (- vx p) (- vy p) (- vz p).

Definition key_opp (k : Key) : Key :=
  let '(x, y, z) := k in (- x, - y, - z).

Definition with_position (p : Vector3) (A : Atom) : Atom :=
  mkAtom (symbol A) (serial A) (atom_name A) p (display_mode A) (is_het A)
         (selected A) (bfactor A) (occupancy A) (residue A).

(** The integer [k] is a nearest integer of [q], even if [q] is half way. *)
Definition nearest_even (q : Q) (k : Z) : Prop :=
  (inject_Z k - (1 # 2) <= q)%Q /\ (q <= inject_Z k + (1 # 2))%Q /\
  ((q == inject_Z k - (1 # 2) \/ q == inject_Z k + (1 # 2))%Q -> Z.even k = true).


(** ** Lines without line breaks *)

(** The string holds neither a carriage return nor any line boundary. *)
Fixpoint break_free (s : string) : bool :=
  match s with
  | EmptyString => true
  | String c rest =>
      negb (Ascii.eqb c PyStr.CR) && negb (PyStr.is_boundary c) && break_free rest
  end.

(** ** What the host's parser may touch

    The parser builds objects; it neither writes files nor opens or closes
    file objects. *)
Definition parser_keeps_files `{Host} : Prop :=
  forall (text : string) (w : World),
    fs (complex_of_pdb text w).2 = fs w /\
    files_of (complex_of_pdb text w).2 = files_of w.

(** The buffer after the process has run, line by line, and the records the
    adapter keeps of it. *)
Definition buffer_lines (r : ProcessRun) (w : World) : list string :=
  PyStr.splitlines (current_output w +:+ printed r).

Definition kept_records (r : ProcessRun) (w : World) : list string :=
  List.filter is_structural (buffer_lines r w).

(** ** The driver's position index *)

(** The loop of [add_hydrogens] that fills [atom_by_position]. *)
Definition index_loop (atoms : list ref) : Run (gmap Key ref) :=
  for_fold (fun (d : gmap Key ref) atom =>
              A ← get_atom atom; mret (<[get_position_key A := atom]> d))
           atoms ∅.

(** The key of an atom object of the store. *)
Definition key_of (w : World) (a : ref) : option Key :=
  get_position_key <$> atoms_of w !! a.

(** A concrete store with two atoms of the same key: atom 2 overwrites
    atom 1 in the index. *)
Definition twin_world : World :=
  mkWorld
    (<[1%positive := demo_atom "N" 1 0 0 0 1%positive]>
     (<[2%positive := demo_atom "C" 2 (1 # 100) 0 0 1%positive]>
      (<[3%positive := demo_atom "O" 3 5 5 5 1%positive]> ∅)))
    ∅
    (<[1%positive := mkResidue [1%positive; 2%positive; 3%positive] []]> ∅)
    ∅ ∅ "" [] [] [].

Definition twin_complex : Complex := mkComplex [1%positive].

(** A store with an atom that has no parent residue. *)
Definition stray_world : World :=
  mkWorld
    (<[1%positive := demo_atom "H" 1 0 0 0 1%positive]>
     (<[2%positive := mkAtom "C" 2 "C" (mkVector3 1 0 0) 0 false false 0 0 None]> ∅))
    ∅
    (<[1%positive := mkResidue [1%positive] []]> ∅)
    ∅ ∅ "" [] [] [].

(** One assignment of the index loop. *)
Definition index_step (w : World) (d : gmap Key ref) (a : ref) : gmap Key ref :=
  match atoms_of w !! a with
  | Some A => <[get_position_key A := a]> d
  | None => d
  end.


(** ** What a run does to existing atoms *)

(** Every atom object of [w] is in [w'] the same, or the same with the
    symbol H. *)
Definition renamed_at_most (w w' : World) : Prop :=
  forall a A, atoms_of w !! a = Some A ->
    exists A', atoms_of w' !! a = Some A' /\ (A' = A \/ A' = set_symbol "H" A).

(** The log entry that opens [match_and_update]. *)
Definition log_matching : LogEntry :=
  mkLog LDebug "Matching atoms between Reduce-generated file and Nanome structure" [].

(** ** The search keeps the first of equals *)

(** The partner held after the atoms [seen] stands in [seen] behind
    candidates that are all strictly farther than it. *)
Definition first_best `{Host} (w : World) (atom : ref) (A : Atom) (seen : list ref)
    (acc : option ref * Q) : Prop :=
  match acc.1 with
  | Some b =>
      exists l1 l2, seen = (l1 ++ b :: l2)%list /\
        forall c Ac, c ∈ l1 -> heavy_candidate w atom c Ac ->
          (acc.2 < Vector3_distance (position Ac) (position A))%Q
  | None => True
  end.

(** ** The buffer across calls *)

(** The parser does not touch the module's output buffer. *)
Definition parser_keeps_buffer `{Host} : Prop :=
  forall (text : string) (w : World),
    current_output (complex_of_pdb text w).2 = current_output w.

(** Some line is a record the adapter keeps. *)
Definition has_record (lines : list string) : Prop :=
  Exists (fun l => is_structural l = true) lines.

(** The log entry that closes [match_and_update]. *)
Definition log_done : LogEntry := mkLog LDebug "Matching done" [].

(** A residue in which three heavy atoms are at distance 1 of the hydrogen
    (atom 1): atoms 2, 3 and 4, in this order. *)
Definition tie_world : World :=
  mkWorld
    (<[1%positive := demo_atom "H" 1 0 0 0 1%positive]>
     (<[2%positive := demo_atom "C" 2 1 0 0 1%positive]>
      (<[3%positive := demo_atom "O" 3 (-1) 0 0 1%positive]>
       (<[4%positive := demo_atom "N" 4 0 1 0 1%positive]> ∅))))
    ∅
    (<[1%positive := mkResidue [4%positive; 1%positive; 2%positive; 3%positive] []]> ∅)
    ∅ ∅ "" [] [] [].

(** * Lemmas *)

(** ** Facts on rounding and truncation *)

(** Turn the outcome of a rational comparison into the order fact it states. *)
Ltac qcompare_props :=
  repeat match goal with
  | H : (_ ?= _)%Q = Datatypes.Eq |- _ => apply Qeq_alt in H
  | H : (_ ?= _)%Q = Lt |- _ => apply Qlt_alt in H
  | H : (_ ?= _)%Q = Gt |- _ => apply Qgt_alt in H
  end.

Section Rounding.

Lemma Qfloor_bounds (q : Q) :
  (inject_Z (Qfloor q) <= q)%Q /\ (q < inject_Z (Qfloor q + 1))%Q.
Proof. split; [apply Qfloor_le | apply Qlt_floor]. Qed.

Lemma Qfloor_unique (q : Q) (n : Z) :
  (inject_Z n <= q)%Q -> (q < inject_Z (n + 1))%Q -> Qfloor q = n.
Proof.
  intros Hl Hu. destruct (Qfloor_bounds q) as [Fl Fu].
  assert (H1 : (inject_Z n < inject_Z (Qfloor q + 1))%Q) by (eapply Qle_lt_trans; eauto).
  assert (H2 : (inject_Z (Qfloor q) < inject_Z (n + 1))%Q) by (eapply Qle_lt_trans; eauto).
  rewrite <- Zlt_Qlt in H1, H2. lia.
Qed.

Lemma Qfloor_add_Z (q : Q) (n : Z) : Qfloor (q + inject_Z n) = Qfloor q + n.
Proof.
  destruct (Qfloor_bounds q) as [Fl Fu].
  apply Qfloor_unique.
  - rewrite inject_Z_plus. apply Qplus_le_l. exact Fl.
  - replace (Qfloor q + n + 1) with ((Qfloor q + 1) + n) by lia.
    rewrite inject_Z_plus. apply Qplus_lt_l. exact Fu.
Qed.

Lemma Qfloor_mono (p q : Q) : (p <= q)%Q -> Qfloor p <= Qfloor q.
Proof. apply Qfloor_resp_le. Qed.

(** The rounded value is within one half of the argument. *)
Lemma round_half_even_cases (q : Q) :
  let f := Qfloor q in
  (Py.round_half_even q = f /\ (q - inject_Z f <= 1 # 2)%Q) \/
  (Py.round_half_even q = f + 1 /\ (1 # 2 <= q - inject_Z f)%Q).
Proof.
  cbv zeta. unfold Py.round_half_even.
  destruct (q - inject_Z (Qfloor q) ?= 1 # 2)%Q eqn:E.
  - apply Qeq_alt in E. destruct (Z.even (Qfloor q)).
    + left. split; [reflexivity | rewrite E; apply Qle_refl].
    + right. split; [reflexivity | rewrite E; apply Qle_refl].
  - apply Qlt_alt in E. left. split; [reflexivity | apply Qlt_le_weak, E].
  - apply Qgt_alt in E. right. split; [reflexivity | apply Qlt_le_weak, E].
Qed.

Lemma round_half_even_add_even (q : Q) (m : Z) :
  Py.round_half_even (q + inject_Z (2 * m)) = Py.round_half_even q + 2 * m.
Proof.
  unfold Py.round_half_even. rewrite Qfloor_add_Z.
  assert (E : (q + inject_Z (2 * m) - inject_Z (Qfloor q + 2 * m) == q - inject_Z (Qfloor q))%Q).
  { rewrite inject_Z_plus. ring. }
  rewrite E. rewrite Z.even_add_mul_2.
  destruct (q - inject_Z (Qfloor q) ?= 1 # 2)%Q; [destruct (Z.even (Qfloor q)) | |]; lia.
Qed.

Lemma round_half_even_mono (p q : Q) :
  (p <= q)%Q -> Py.round_half_even p <= Py.round_half_even q.
Proof.
  intros Hpq. pose proof (Qfloor_mono _ _ Hpq) as Hf.
  destruct (Z.eq_dec (Qfloor p) (Qfloor q)) as [Heq | Hne].
  - unfold Py.round_half_even. rewrite Heq.
    destruct (p - inject_Z (Qfloor q) ?= 1 # 2)%Q eqn:Ep; qcompare_props;
      destruct (q - inject_Z (Qfloor q) ?= 1 # 2)%Q eqn:Eq; qcompare_props;
      try (destruct (Z.even (Qfloor q))); try lia; exfalso; lra.
  - destruct (round_half_even_cases p) as [[-> _] | [-> _]];
      destruct (round_half_even_cases q) as [[-> _] | [-> _]]; lia.
Qed.

End Rounding.

Section KeyCoordinate.

Lemma int_Qeq (x y : Q) : (x == y)%Q -> Py.int x = Py.int y.
Proof.
  destruct x as [a b], y as [c d]. unfold Qeq, Py.int. simpl. intros E.
  rewrite <- (Z.quot_mul_cancel_r a (Z.pos b) (Z.pos d)) by lia.
  rewrite <- (Z.quot_mul_cancel_r c (Z.pos d) (Z.pos b)) by lia.
  rewrite E. f_equal. lia.
Qed.

Lemma key_coord_eq (x : Q) :
  key_coord x = Z.quot (Py.round_half_even (x * 10000)) 200.
Proof.
  unfold key_coord, Py.round.
  change (inject_Z (10 ^ Z.of_nat 4)) with (inject_Z 10000).
  set (k := Py.round_half_even (x * inject_Z 10000)).
  transitivity (Py.int (k # 200)).
  - apply int_Qeq. unfold Qeq, Qdiv, Qmult, Qinv, inject_Z. simpl. lia.
  - reflexivity.
Qed.

Lemma round_half_even_0 : Py.round_half_even 0 = 0.
Proof. reflexivity. Qed.

Lemma round_half_even_shift_le (x y : Q) (m : Z) :
  (y <= x + inject_Z (2 * m))%Q ->
  Py.round_half_even y <= Py.round_half_even x + 2 * m.
Proof.
  intros Hle. rewrite <- round_half_even_add_even.
  apply round_half_even_mono, Hle.
Qed.

Lemma quot_200_near (a b : Z) :
  a <= b + 2 -> b <= a + 2 -> Z.abs (Z.quot a 200 - Z.quot b 200) <= 1.
Proof.
  intros. Z.to_euclidean_division_equations. lia.
Qed.

Lemma quot_200_apart (a b : Z) : b + 400 <= a -> Z.quot a 200 <> Z.quot b 200.
Proof.
  intros. Z.to_euclidean_division_equations. lia.
Qed.

Lemma quot_200_apart_same_side (a b : Z) :
  b + 200 <= a -> 0 <= b \/ a <= 0 -> Z.quot a 200 <> Z.quot b 200.
Proof.
  intros. Z.to_euclidean_division_equations. lia.
Qed.

Lemma key_coord_near (x y : Q) :
  (Qabs (x - y) < quantum / 100)%Q -> Z.abs (key_coord x - key_coord y) <= 1.
Proof.
  intros Hc. apply Qabs_Qlt_condition in Hc. destruct Hc as [Hlo Hhi].
  change (quantum / 100)%Q with (1 # 5000)%Q in *.
  rewrite !key_coord_eq. apply quot_200_near.
  - apply (round_half_even_shift_le _ _ 1). change (inject_Z (2 * 1)) with 2%Q. lra.
  - apply (round_half_even_shift_le _ _ 1). change (inject_Z (2 * 1)) with 2%Q. lra.
Qed.

Lemma key_coord_ordered_apart (x y : Q) :
  (y + 2 * quantum <= x)%Q -> key_coord x <> key_coord y.
Proof.
  intros Hd. unfold quantum in Hd. rewrite !key_coord_eq. apply quot_200_apart.
  assert (Hs : Py.round_half_even (y * 10000 + inject_Z (2 * 200))
               <= Py.round_half_even (x * 10000)).
  { apply round_half_even_mono. change (inject_Z (2 * 200)) with 400%Q. lra. }
  rewrite round_half_even_add_even in Hs. lia.
Qed.

Lemma key_coord_apart (x y : Q) :
  (2 * quantum <= Qabs (x - y))%Q -> key_coord x <> key_coord y.
Proof.
  intros Hd. destruct (Qlt_le_dec (x - y) 0) as [Hneg | Hpos].
  - rewrite Qabs_neg in Hd by lra.
    intros E. symmetry in E. revert E. apply key_coord_ordered_apart. lra.
  - rewrite Qabs_pos in Hd by lra. apply key_coord_ordered_apart. lra.
Qed.

Lemma round_half_even_nonneg (x : Q) : (0 <= x)%Q -> 0 <= Py.round_half_even x.
Proof. intros Hx. rewrite <- round_half_even_0. apply round_half_even_mono, Hx. Qed.

Lemma round_half_even_nonpos (x : Q) : (x <= 0)%Q -> Py.round_half_even x <= 0.
Proof. intros Hx. rewrite <- round_half_even_0. apply round_half_even_mono, Hx. Qed.

Lemma key_coord_ordered_same_side (x y : Q) :
  (y + quantum <= x)%Q -> (0 <= y \/ x <= 0)%Q -> key_coord x <> key_coord y.
Proof.
  intros Hd Hs. unfold quantum in Hd. rewrite !key_coord_eq.
  apply quot_200_apart_same_side.
  - assert (Hm : Py.round_half_even (y * 10000 + inject_Z (2 * 100))
                 <= Py.round_half_even (x * 10000)).
    { apply round_half_even_mono. change (inject_Z (2 * 100)) with 200%Q. lra. }
    rewrite round_half_even_add_even in Hm. lia.
  - destruct Hs as [Hy | Hx].
    + left. apply round_half_even_nonneg. lra.
    + right. apply round_half_even_nonpos. lra.
Qed.

Lemma key_coord_same_side_apart (x y : Q) :
  same_side_apart quantum x y -> key_coord x <> key_coord y.
Proof.
  intros [Hd Hs]. destruct (Qlt_le_dec (x - y) 0) as [Hneg | Hpos].
  - rewrite Qabs_neg in Hd by lra.
    intros E. symmetry in E. revert E. apply key_coord_ordered_same_side; lra.
  - rewrite Qabs_pos in Hd by lra. apply key_coord_ordered_same_side; lra.
Qed.

End KeyCoordinate.

(** ** Strings *)

Section Strings.

Lemma append_cons (c : ascii) (a b : string) :
  String c a +:+ b = String c (a +:+ b).
Proof. reflexivity. Qed.

Lemma string_length_app (a b : string) :
  String.length (a +:+ b) = (String.length a + String.length b)%nat.
Proof. induction a as [| c a IH]; simpl; [reflexivity | now rewrite IH]. Qed.

Lemma substring_0_length (s : string) : substring 0 (String.length s) s = s.
Proof. induction s as [| c s IH]; simpl; [reflexivity | now rewrite IH]. Qed.

Lemma substring_app_skip (pre s : string) (m : nat) :
  substring (String.length pre) m (pre +:+ s) = substring 0 m s.
Proof. induction pre as [| c pre IH]; simpl; [reflexivity | exact IH]. Qed.

Lemma substring_split (s : string) (k : nat) :
  (k <= String.length s)%nat ->
  s = substring 0 k s +:+ substring k (String.length s - k) s.
Proof.
  revert k. induction s as [| c s IH]; intros k Hk; simpl in *.
  - replace k with 0%nat by lia. reflexivity.
  - destruct k as [| k]; simpl.
    + now rewrite substring_0_length.
    + rewrite append_cons. f_equal. apply IH. lia.
Qed.

Lemma endswith_spec (s p : string) :
  PyStr.endswith s p = true <-> exists pre, s = pre +:+ p.
Proof.
  unfold PyStr.endswith. rewrite andb_true_iff, Nat.leb_le, String.eqb_eq. split.
  - intros [Hle Hsub]. exists (substring 0 (String.length s - String.length p) s).
    pose proof (substring_split s (String.length s - String.length p)) as Hs.
    replace (String.length s - (String.length s - String.length p))%nat
      with (String.length p) in Hs by lia.
    rewrite Hsub in Hs. apply Hs. lia.
  - intros [pre ->]. rewrite string_length_app. split; [lia |].
    replace (String.length pre + String.length p - String.length p)%nat
      with (String.length pre) by lia.
    rewrite substring_app_skip. apply substring_0_length.
Qed.

Lemma string_app_assoc (a b c : string) : (a +:+ b) +:+ c = a +:+ (b +:+ c).
Proof.
  induction a as [| x a IH]; [reflexivity |].
  rewrite !append_cons. now rewrite IH.
Qed.

Lemma is_new_line_spec (line : string) :
  is_new_line line = true <->
  (84 < String.length line)%nat /\ exists pre, line = terminated (pre +:+ "new").
Proof.
  unfold is_new_line, terminated.
  rewrite andb_true_iff, Nat.ltb_lt, endswith_spec.
  split; intros [Hlen [pre Hpre]]; (split; [exact Hlen |]); exists pre; subst line.
  - now rewrite string_app_assoc.
  - now rewrite <- string_app_assoc.
Qed.

End Strings.

(** ** The scan of the lines *)

Section Scan.

Lemma scan_lines_elem (lines : list string) (id : nat) (acc : list nat) (i : nat) :
  i ∈ scan_lines lines id acc <->
  i ∈ acc \/ exists j line,
    i = (id + j)%nat /\ lines !! j = Some line /\ is_new_line line = true.
Proof.
  revert id acc. induction lines as [| l lines IH]; intros id acc; simpl.
  - split; [auto | intros [Hin | (j & line & _ & Hl & _)]; [exact Hin | discriminate Hl]].
  - rewrite IH. split.
    + intros [Hin | (j & line & -> & Hl & Hn)].
      * destruct (is_new_line l) eqn:El; [| auto].
        apply elem_of_app in Hin as [Hin | Hin]; [auto |].
        apply list_elem_of_singleton in Hin as ->.
        right. exists 0%nat, l. repeat split; [lia | exact El].
      * right. exists (S j), line. repeat split; [lia | exact Hl | exact Hn].
    + intros [Hin | (j & line & -> & Hl & Hn)].
      * left. destruct (is_new_line l); [apply elem_of_app |]; auto.
      * destruct j as [| j]; simpl in Hl.
        -- injection Hl as ->. left. rewrite Hn. apply elem_of_app. right.
           apply list_elem_of_singleton. lia.
        -- right. exists j, line. repeat split; [lia | exact Hl | exact Hn].
Qed.

Lemma scan_lines_index (lines : list string) (i : nat) :
  i ∈ scan_lines lines 0 [] <->
  exists line, lines !! i = Some line /\ is_new_line line = true.
Proof.
  rewrite scan_lines_elem. split.
  - intros [Hin | (j & line & -> & Hl & Hn)]; [inversion Hin | eauto].
  - intros (line & Hl & Hn). right. exists i, line. auto.
Qed.

End Scan.

(** ** Computations *)

Section RunLemmas.

Lemma bind_unfold {A B} (m : Run A) (f : A -> Run B) (w : World) :
  (m ≫= f) w = match m w with
               | Return a w' => f a w'
               | Raise e w' => Raise e w'
               end.
Proof. reflexivity. Qed.

Lemma bind_Return {A B} (m : Run A) (f : A -> Run B) (w w' : World) (a : A) :
  m w = Return a w' -> (m ≫= f) w = f a w'.
Proof. intros E. rewrite bind_unfold, E. reflexivity. Qed.

Lemma bind_Raise {A B} (m : Run A) (f : A -> Run B) (w w' : World) (e : Exception) :
  m w = Raise e w' -> (m ≫= f) w = Raise e w'.
Proof. intros E. rewrite bind_unfold, E. reflexivity. Qed.

Lemma bind_Return_inv {A B} (m : Run A) (f : A -> Run B) (w w2 : World) (b : B) :
  (m ≫= f) w = Return b w2 ->
  exists a w1, m w = Return a w1 /\ f a w1 = Return b w2.
Proof.
  rewrite bind_unfold. destruct (m w) as [a w1 | e w1]; [eauto | discriminate].
Qed.

Lemma from_store_Return {V} (m : World -> gmap ref V) (r : ref) (w : World) (v : V) :
  m w !! r = Some v -> from_store m r w = Return v w.
Proof. intros E. unfold from_store. rewrite E. reflexivity. Qed.

Lemma from_store_inv {V} (m : World -> gmap ref V) (r : ref) (w w' : World) (v : V) :
  from_store m r w = Return v w' -> w' = w /\ m w !! r = Some v.
Proof.
  unfold from_store. destruct (m w !! r); intros E; inversion E; subst; auto.
Qed.

Lemma with_logs_id (w : World) : with_logs (fun ls => ls ++ []) w = w.
Proof. destruct w. unfold with_logs. simpl. now rewrite app_nil_r. Qed.

Lemma with_logs_app (w : World) (l1 l2 : list LogEntry) :
  with_logs (fun ls => ls ++ l2) (with_logs (fun ls => ls ++ l1) w)
  = with_logs (fun ls => ls ++ (l1 ++ l2)) w.
Proof. destruct w. unfold with_logs. simpl. now rewrite app_assoc. Qed.

Lemma string_app_empty_r (s : string) : s +:+ "" = s.
Proof. induction s as [| c s IH]; [reflexivity |]. rewrite append_cons. now rewrite IH. Qed.

Lemma with_current_output_id (w : World) :
  with_current_output (fun s => s +:+ "") w = w.
Proof. destruct w. unfold with_current_output. simpl. now rewrite string_app_empty_r. Qed.

Lemma with_current_output_app (w : World) (s1 s2 : string) :
  with_current_output (fun s => s +:+ s2) (with_current_output (fun s => s +:+ s1) w)
  = with_current_output (fun s => s +:+ (s1 +:+ s2)) w.
Proof.
  destruct w. unfold with_current_output. simpl. now rewrite string_app_assoc.
Qed.

End RunLemmas.

(** ** The Reduce adapter *)

Section Adapter.
Context `{Host}.

Lemma for_each_log_errors (errs : list string) (w : World) :
  for_each (fun msg => Logs_error msg []) errs w
  = Return tt (with_logs (fun ls => ls ++ map (fun msg => mkLog LError msg []) errs) w).
Proof.
  revert w. induction errs as [| e errs IH]; intros w; simpl.
  - now rewrite with_logs_id.
  - rewrite bind_unfold. unfold Logs_error at 1, Logs_write, modify.
    rewrite IH, with_logs_app. reflexivity.
Qed.

Lemma concat_empty_cons (c : string) (cs : list string) :
  String.concat "" (c :: cs) = c +:+ String.concat "" cs.
Proof.
  destruct cs as [| c' cs]; simpl; [now rewrite string_app_empty_r | reflexivity].
Qed.

Lemma for_each_output (chunks : list string) (w : World) :
  for_each (fun chunk => output_to_file [chunk]) chunks w
  = Return tt (with_current_output (fun s => s +:+ String.concat "" chunks) w).
Proof.
  revert w. induction chunks as [| c chunks IH]; intros w.
  - simpl. now rewrite with_current_output_id.
  - rewrite concat_empty_cons. simpl for_each. rewrite bind_unfold.
    unfold output_to_file at 1, modify. rewrite IH.
    rewrite with_current_output_app. reflexivity.
Qed.

Lemma Process_start_spec (exe : string) (args : list string) (w : World) :
  let r := Process_run exe args (fs w) in
  Process_start exe args (fun msg => Logs_error msg []) output_to_file w
  = Return (exit_code r) (after_process r w).
Proof.
  intro r. unfold Process_start. rewrite bind_unfold. unfold gets at 1.
  fold r. rewrite bind_unfold, for_each_log_errors.
  rewrite bind_unfold, for_each_output. reflexivity.
Qed.

End Adapter.


Section AdapterRuns.
Context `{Host}.
Lemma call_Reduce_unfold (pdb_path : string) (output_pdb : ref)
    (flip histidines : bool) (w : World) :
  let r := reduce_run pdb_path flip histidines w in
  let w1 := after_process r (started pdb_path flip histidines w) in
  call_Reduce pdb_path output_pdb flip histidines w =
    if (exit_code r <? 0)%Z then
      Return Failure (with_logs (fun ls => ls ++ [mkLog LError "Reduce returned an error"
                                                   [AInt (exit_code r)]]) w1)
    else
      (for_each (fun l => if is_structural l
                          then File_write output_pdb (terminated l)
                          else mret tt)
                (PyStr.splitlines (current_output w1));;
       File_close output_pdb;;
       F ← get_file output_pdb;
       hydrogenated ← Complex_from_pdb (name F);
       text ← read_text (name F);
       mret (Parsed hydrogenated (scan_lines (PyStr.readlines text) 0 []))) w1.
Proof.
  intros r w1. unfold call_Reduce. cbv zeta.
  rewrite bind_unfold.
  change (Logs_debug _ _ w) with (Return tt (started pdb_path flip histidines w)).
  cbv iota beta.
  rewrite bind_unfold.
  pose proof (Process_start_spec REDUCE_PATH (reduce_args pdb_path flip histidines)
                (started pdb_path flip histidines w)) as Hp.
  cbv zeta in Hp.
  change (Process_run REDUCE_PATH (reduce_args pdb_path flip histidines)
            (fs (started pdb_path flip histidines w))) with r in Hp.
  fold w1 in Hp.
  unfold reduce_args in Hp at 1. cbv zeta in Hp. rewrite Hp. clear Hp.
  destruct (exit_code r <? 0)%Z; reflexivity.
Qed.

(** Writing never touches the file objects, whatever its outcome. *)
Lemma write_loop_files (output_pdb : ref) (lines : list string) (w : World) :
  files_of (final_world (for_each (write_structural output_pdb) lines w)) = files_of w.
Proof.
  revert w. induction lines as [| l lines IH]; intros w; [reflexivity |].
  simpl for_each. rewrite bind_unfold. unfold write_structural at 1.
  destruct (is_structural l).
  - unfold File_write. rewrite bind_unfold. unfold get_file, from_store.
    destruct (files_of w !! output_pdb) as [F |]; [| reflexivity].
    destruct (closed F); [reflexivity |].
    unfold modify. rewrite IH. reflexivity.
  - simpl. apply IH.
Qed.

(** Writing to an open file appends the structural records to it. *)
Lemma write_loop_open (output_pdb : ref) (F : FileObj) (lines : list string)
    (old : string) (w : World) :
  files_of w !! output_pdb = Some F -> closed F = false ->
  fs w !! name F = Some old ->
  for_each (write_structural output_pdb) lines w
  = Return tt (with_fs <[name F := old +:+ written lines]> w).
Proof.
  intros HF Hopen. revert old w HF.
  induction lines as [| l lines IH]; intros old w HF Hold.
  - simpl. unfold written. simpl. rewrite string_app_empty_r.
    f_equal. destruct w. unfold with_fs. simpl in *. f_equal.
    symmetry. apply insert_id. exact Hold.
  - simpl for_each. rewrite bind_unfold. unfold write_structural at 1.
    unfold written. simpl List.filter.
    destruct (is_structural l).
    + unfold File_write. rewrite bind_unfold. unfold get_file.
      rewrite (from_store_Return files_of _ _ _ HF). rewrite Hopen.
      unfold modify.
      rewrite (IH (old +:+ terminated l)).
      * f_equal. simpl map. rewrite concat_empty_cons. fold (written lines).
        destruct w. unfold with_fs. simpl in *. f_equal.
        rewrite insert_insert_eq. now rewrite string_app_assoc.
      * exact HF.
      * simpl. rewrite Hold. simpl. apply lookup_insert_eq.
    + simpl. apply IH; assumption.
Qed.

(** A closed file object refuses the first structural record. *)
Lemma write_loop_closed (output_pdb : ref) (F : FileObj) (lines : list string) (w : World) :
  files_of w !! output_pdb = Some F -> closed F = true ->
  List.filter is_structural lines <> [] ->
  for_each (write_structural output_pdb) lines w = Raise ValueError w.
Proof.
  intros HF Hclosed. induction lines as [| l lines IH]; intros Hne; [contradiction |].
  simpl for_each. rewrite bind_unfold. unfold write_structural at 1.
  simpl in Hne. destruct (is_structural l).
  - unfold File_write. rewrite bind_unfold. unfold get_file.
    rewrite (from_store_Return files_of _ _ _ HF). rewrite Hclosed. reflexivity.
  - simpl. apply IH, Hne.
Qed.

(** What a run that returns a parsed complex read its indices from. *)
Lemma call_Reduce_Parsed_inv (pdb_path : string) (output_pdb : ref)
    (flip histidines : bool) (w w' : World) (c : option Complex) (ids : list nat) :
  call_Reduce pdb_path output_pdb flip histidines w = Return (Parsed c ids) w' ->
  exists F text,
    files_of w !! output_pdb = Some F /\ fs w' !! name F = Some text /\
    ids = scan_lines (PyStr.readlines text) 0 [].
Proof.
  rewrite call_Reduce_unfold. cbv zeta.
  set (r := reduce_run pdb_path flip histidines w).
  set (w1 := after_process r (started pdb_path flip histidines w)).
  destruct (exit_code r <? 0)%Z; [discriminate |].
  fold (write_structural output_pdb).
  intros E. apply bind_Return_inv in E as ([] & w2 & Ewrite & E).
  pose proof (write_loop_files output_pdb (PyStr.splitlines (current_output w1)) w1) as Hfiles.
  rewrite Ewrite in Hfiles. simpl in Hfiles.
  apply bind_Return_inv in E as ([] & w3 & Eclose & E).
  unfold File_close in Eclose.
  apply bind_Return_inv in Eclose as (F0 & w2' & Eget & Eclose).
  apply from_store_inv in Eget as [-> HF0].
  unfold modify in Eclose. injection Eclose as <-.
  apply bind_Return_inv in E as (F & w3' & Eget & E).
  apply from_store_inv in Eget as [-> HF].
  simpl in HF. rewrite lookup_insert_eq in HF. injection HF as <-. simpl name in E.
  apply bind_Return_inv in E as (hyd & w4 & Eparse & E).
  apply bind_Return_inv in E as (text & w5 & Eread & E).
  unfold read_text in Eread. destruct (fs w4 !! name F0) as [t |] eqn:Et; [| discriminate].
  injection Eread as <- <-. injection E as <- <- <-.
  exists F0, t. split; [| split; [exact Et | reflexivity]].
  rewrite <- HF0, Hfiles. reflexivity.
Qed.

End AdapterRuns.

(** ** The partner search *)

Section Search.
Context `{Host}.

Lemma lt_true (x y : Q) : Py_cmp.lt x y = true <-> (x < y)%Q.
Proof.
  unfold Py_cmp.lt. rewrite Qlt_alt. destruct (x ?= y)%Q; split; congruence.
Qed.

Lemma lt_false (x y : Q) : Py_cmp.lt x y = false <-> (y <= x)%Q.
Proof.
  unfold Py_cmp.lt. rewrite Qle_alt, <- (Qcompare_antisym x y).
  destruct (x ?= y)%Q; simpl; split; congruence.
Qed.

Lemma best_so_far_skip (w : World) (atom : ref) (A : Atom) (seen : list ref)
    (acc : option ref * Q) (a : ref) :
  best_so_far w atom A seen acc ->
  (forall Aa, heavy_candidate w atom a Aa ->
     (acc.2 <= Vector3_distance (position Aa) (position A))%Q) ->
  best_so_far w atom A (seen ++ [a]) acc.
Proof.
  intros [Hmin Hbest] Hnew. split.
  - intros c Ac Hin Hc. apply elem_of_app in Hin as [Hin | Hin]; [eauto |].
    apply list_elem_of_singleton in Hin as ->. eauto.
  - destruct acc.1 as [b |]; [| exact Hbest].
    destruct Hbest as (Ab & Hin & Hrest). exists Ab.
    split; [apply elem_of_app; auto | exact Hrest].
Qed.

Lemma best_so_far_bound (w : World) (atom : ref) (A : Atom) (seen : list ref)
    (acc : option ref * Q) :
  best_so_far w atom A seen acc -> (acc.2 <= 10000)%Q.
Proof.
  intros [_ Hbest]. destruct acc.1 as [b |].
  - destruct Hbest as (Ab & _ & _ & _ & Hlt). lra.
  - rewrite Hbest. lra.
Qed.

Lemma best_so_far_take (w : World) (atom : ref) (A : Atom) (seen : list ref)
    (acc : option ref * Q) (a : ref) (Aa : Atom) :
  best_so_far w atom A seen acc ->
  heavy_candidate w atom a Aa ->
  (Vector3_distance (position Aa) (position A) < acc.2)%Q ->
  best_so_far w atom A (seen ++ [a])
    (Some a, Vector3_distance (position Aa) (position A)).
Proof.
  intros Hbest Hc Hlt. pose proof (best_so_far_bound _ _ _ _ _ Hbest) as Hb.
  destruct Hbest as [Hmin _]. split; simpl.
  - intros c Ac Hin Hcc. apply elem_of_app in Hin as [Hin | Hin].
    + specialize (Hmin c Ac Hin Hcc). lra.
    + apply list_elem_of_singleton in Hin as ->.
      destruct Hc as (_ & Hl & _), Hcc as (_ & Hl' & _).
      rewrite Hl in Hl'. injection Hl' as <-. lra.
  - exists Aa. split; [apply elem_of_app; right; apply list_elem_of_singleton; reflexivity |].
    split; [exact Hc |]. split; [reflexivity | lra].
Qed.

Lemma closest_body_spec (atom : ref) (A : Atom) (w : World) (seen : list ref)
    (acc : option ref * Q) (a : ref) :
  atoms_of w !! atom = Some A ->
  is_Some (atoms_of w !! a) ->
  best_so_far w atom A seen acc ->
  exists acc1,
    closest_body atom acc a w = Return acc1 w /\
    best_so_far w atom A (seen ++ [a]) acc1.
Proof.
  intros HA [Aa HAa] Hbest. destruct acc as [result minD]. unfold closest_body.
  destruct (decide (a ≠ atom)) as [Hne | Heq].
  - rewrite bind_unfold. unfold get_atom.
    rewrite (from_store_Return atoms_of _ _ _ HAa).
    destruct (String.eqb (symbol Aa) "H") eqn:Esym; unfold negb; cbv iota.
    + exists (result, minD). split; [reflexivity |].
      apply String.eqb_eq in Esym. apply best_so_far_skip; [exact Hbest |].
      intros Ac (_ & Hl & Hs). congruence.
    + apply String.eqb_neq in Esym.
      rewrite bind_unfold. rewrite (from_store_Return atoms_of _ _ _ HA).
      assert (Hcand : heavy_candidate w atom a Aa) by (repeat split; assumption).
      destruct (Py_cmp.lt (Vector3_distance (position Aa) (position A)) minD) eqn:Elt.
      * apply lt_true in Elt. eexists. split; [reflexivity |].
        apply (best_so_far_take _ _ _ _ (result, minD)); assumption.
      * apply lt_false in Elt. exists (result, minD). split; [reflexivity |].
        apply best_so_far_skip; [exact Hbest |].
        intros Ac (_ & Hl & _). rewrite HAa in Hl. injection Hl as <-. exact Elt.
  - exists (result, minD). split; [reflexivity |].
    apply best_so_far_skip; [exact Hbest |].
    intros Ac (Hne & _). contradiction.
Qed.

Lemma closest_fold (atom : ref) (A : Atom) (w : World) (l seen : list ref)
    (acc : option ref * Q) :
  atoms_of w !! atom = Some A ->
  Forall (fun a => is_Some (atoms_of w !! a)) l ->
  best_so_far w atom A seen acc ->
  exists acc',
    for_fold (closest_body atom) l acc w = Return acc' w /\
    best_so_far w atom A (seen ++ l) acc'.
Proof.
  intros HA. revert seen acc.
  induction l as [| a l IH]; intros seen acc Hres Hbest.
  - exists acc. rewrite app_nil_r. split; [reflexivity | exact Hbest].
  - apply Forall_cons in Hres as [Ha Hres].
    destruct (closest_body_spec atom A w seen acc a HA Ha Hbest) as (acc1 & Estep & Hbest1).
    destruct (IH (seen ++ [a]) acc1 Hres Hbest1) as (acc' & Efold & Hbest').
    exists acc'. split.
    + simpl for_fold. rewrite bind_unfold, Estep. exact Efold.
    + rewrite <- app_assoc in Hbest'. exact Hbest'.
Qed.

(** The search leaves the state as it is and returns the best of the whole
    residue. *)
Lemma get_closest_spec (complex : Complex) (atom : ref) (w : World)
    (A : Atom) (r : ref) (R : Residue) :
  atoms_of w !! atom = Some A -> residue A = Some r -> residues_of w !! r = Some R ->
  Forall (fun a => is_Some (atoms_of w !! a)) (res_atoms R) ->
  exists acc,
    get_closest_heavy_atom_in_residue complex atom w = Return acc w /\
    best_so_far w atom A (res_atoms R) acc.
Proof.
  intros HA Hr HR Hres. unfold get_closest_heavy_atom_in_residue.
  rewrite bind_unfold. unfold get_atom at 1.
  rewrite (from_store_Return atoms_of _ _ _ HA).
  rewrite Hr. simpl deref. rewrite bind_unfold. unfold mret, Run_ret.
  rewrite bind_unfold. unfold get_residue.
  rewrite (from_store_Return residues_of _ _ _ HR).
  apply (closest_fold atom A w (res_atoms R) [] (None, 10000%Q) HA Hres).
  split; [| reflexivity]. intros c Ac Hc. inversion Hc.
Qed.

End Search.

(** ** Object access, step by step *)

Ltac wsimpl :=
  cbn [atoms_of bonds_of residues_of files_of fs current_output logs notifications
       responses with_atoms with_bonds with_residues with_files with_fs
       with_current_output with_logs with_notifications with_responses].

Ltac wsimpl_in H :=
  cbn [atoms_of bonds_of residues_of files_of fs current_output logs notifications
       responses with_atoms with_bonds with_residues with_files with_fs
       with_current_output with_logs with_notifications with_responses] in H.

Section Primitives.

Lemma get_atom_eq (a : ref) (A : Atom) (w : World) :
  atoms_of w !! a = Some A -> get_atom a w = Return A w.
Proof. apply from_store_Return. Qed.

Lemma get_bond_eq (b : ref) (B : Bond) (w : World) :
  bonds_of w !! b = Some B -> get_bond b w = Return B w.
Proof. apply from_store_Return. Qed.

Lemma get_residue_eq (r : ref) (R : Residue) (w : World) :
  residues_of w !! r = Some R -> get_residue r w = Return R w.
Proof. apply from_store_Return. Qed.

Lemma update_atom_eq (a : ref) (f : Atom -> Atom) (A : Atom) (w : World) :
  atoms_of w !! a = Some A ->
  update_atom a f w = Return tt (with_atoms <[a := f A]> w).
Proof.
  intros E. unfold update_atom. rewrite bind_unfold, (get_atom_eq _ _ _ E). reflexivity.
Qed.

Lemma update_bond_eq (b : ref) (f : Bond -> Bond) (B : Bond) (w : World) :
  bonds_of w !! b = Some B ->
  update_bond b f w = Return tt (with_bonds <[b := f B]> w).
Proof.
  intros E. unfold update_bond. rewrite bind_unfold, (get_bond_eq _ _ _ E). reflexivity.
Qed.

Lemma update_residue_eq (r : ref) (f : Residue -> Residue) (R : Residue) (w : World) :
  residues_of w !! r = Some R ->
  update_residue r f w = Return tt (with_residues <[r := f R]> w).
Proof.
  intros E. unfold update_residue. rewrite bind_unfold, (get_residue_eq _ _ _ E). reflexivity.
Qed.

Lemma with_atoms_twice (a : ref) (A1 A2 : Atom) (w : World) :
  with_atoms <[a := A2]> (with_atoms <[a := A1]> w) = with_atoms <[a := A2]> w.
Proof. unfold with_atoms. wsimpl. f_equal. apply insert_insert_eq. Qed.

Lemma with_bonds_twice (b : ref) (B1 B2 : Bond) (w : World) :
  with_bonds <[b := B2]> (with_bonds <[b := B1]> w) = with_bonds <[b := B2]> w.
Proof. unfold with_bonds. wsimpl. f_equal. apply insert_insert_eq. Qed.

Lemma Residue_add_atom_eq (r a : ref) (R : Residue) (A : Atom) (w : World) :
  residues_of w !! r = Some R -> atoms_of w !! a = Some A ->
  Residue_add_atom r a w
  = Return tt (with_atoms <[a := set_residue (Some r) A]>
                 (with_residues <[r := push_atom a R]> w)).
Proof.
  intros Er Ea. unfold Residue_add_atom.
  rewrite bind_unfold, (update_residue_eq _ _ _ _ Er).
  now rewrite (update_atom_eq _ _ A).
Qed.

Lemma Residue_add_bond_eq (r b : ref) (R : Residue) (B : Bond) (w : World) :
  residues_of w !! r = Some R -> bonds_of w !! b = Some B ->
  Residue_add_bond r b w
  = Return tt (with_bonds <[b := set_bond_parent (Some r) B]>
                 (with_residues <[r := push_bond b R]> w)).
Proof.
  intros Er Eb. unfold Residue_add_bond.
  rewrite bind_unfold, (update_residue_eq _ _ _ _ Er).
  now rewrite (update_bond_eq _ _ B).
Qed.

End Primitives.

Section AddBond.
Context `{Host}.

Lemma add_bond_eq (atom1 atom2 : ref) (A2 : Atom) (r : ref) (R : Residue) (w : World) :
  atoms_of w !! atom2 = Some A2 -> residue A2 = Some r ->
  residues_of w !! r = Some R ->
  let nb := fresh (dom (bonds_of w)) in
  add_bond atom1 atom2 w
  = Return nb (with_bonds <[nb := mkBond CovalentSingle (Some atom1) (Some atom2) (Some r)]>
                 (with_residues <[r := push_bond nb R]> w)).
Proof.
  intros EA Er ER nb. unfold add_bond, Bond_create.
  rewrite bind_unfold. unfold new_bond_object at 1. fold nb.
  rewrite bind_unfold, (update_bond_eq nb _ (mkBond KUnknown None None None))
    by (wsimpl; apply lookup_insert_eq).
  rewrite with_bonds_twice.
  rewrite bind_unfold, (update_bond_eq nb _ (mkBond CovalentSingle None None None))
    by (wsimpl; apply lookup_insert_eq).
  rewrite with_bonds_twice.
  rewrite bind_unfold, (update_bond_eq nb _ (mkBond CovalentSingle (Some atom1) None None))
    by (wsimpl; apply lookup_insert_eq).
  rewrite with_bonds_twice.
  rewrite bind_unfold, (get_atom_eq atom2 A2) by exact EA.
  rewrite Er. simpl deref. rewrite bind_unfold. unfold mret at 1, Run_ret at 1.
  rewrite bind_unfold.
  rewrite (Residue_add_bond_eq r nb R (mkBond CovalentSingle (Some atom1) (Some atom2) None))
    by (wsimpl; first [exact ER | apply lookup_insert_eq]).
  unfold mret, Run_ret. f_equal.
  unfold with_bonds, with_residues. wsimpl. f_equal. apply insert_insert_eq.
Qed.

End AddBond.

(** ** One round of the reconciliation loop *)

Lemma World_eq (w w' : World) :
  atoms_of w = atoms_of w' -> bonds_of w = bonds_of w' ->
  residues_of w = residues_of w' -> files_of w = files_of w' -> fs w = fs w' ->
  current_output w = current_output w' -> logs w = logs w' ->
  notifications w = notifications w' -> responses w = responses w' -> w = w'.
Proof. destruct w, w'. simpl. intros. subst. reflexivity. Qed.

Section Body.
Context `{Host}.
Variables (atom_by_position : gmap Key ref) (result_complex : Complex).
Variables (atoms : list ref) (id : nat) (w : World).
Variables (h : ref) (Ah : Atom).
Hypothesis Hid : atoms !! id = Some h.
Hypothesis HAh : atoms_of w !! h = Some Ah.

Let w1 := marked h Ah w.

(** The round up to the outcome of the search. *)
Lemma body_unfold :
  match_and_update_body atom_by_position result_complex atoms id w =
  ('(bonded, dist) ← get_closest_heavy_atom_in_residue result_complex h;
   match bonded with
   | None =>
       Logs_debug "Could not find heavy atom linked to the hydrogen" [AInt (Z.of_nat id)];;
       mret NoPartner
   | Some bonded_atom =>
       if Py_cmp.gt dist 2 then
         Logs_debug "Could not find heavy atom linked to the hydrogen"
                    [AInt (Z.of_nat id); AStr "(too far)"];;
         mret TooFar
       else
         bond ← add_bond h bonded_atom;
         Ab ← get_atom bonded_atom;
         let bonded_atom_key := get_position_key Ab in
         match atom_by_position !! bonded_atom_key with
         | None =>
             Ah ← get_atom h;
             Logs_warning "H {} bonded with unknown atom {} at {}"
                          [AInt (serial Ah); AStr (symbol Ab); APos (position Ab)];;
             mret Orphan
         | Some source_atom =>
             new_atom ← Atom_shallow_copy h;
             As ← get_atom source_atom;
             update_atom new_atom (set_display_mode (display_mode As));;
             As ← get_atom source_atom;
             update_atom new_atom (set_is_het (is_het As));;
             As ← get_atom source_atom;
             update_atom new_atom (set_selected (selected As));;
             As ← get_atom source_atom;
             update_atom new_atom (set_bfactor (bfactor As));;
             As ← get_atom source_atom;
             update_atom new_atom (set_occupancy (occupancy As));;
             new_bond ← Bond_shallow_copy bond;
             update_bond new_bond (set_atom1 (Some source_atom));;
             update_bond new_bond (set_atom2 (Some new_atom));;
             As ← get_atom source_atom;
             residue ← deref (residue As);
             Residue_add_atom residue new_atom;;
             Residue_add_bond residue new_bond;;
             mret (Grafted new_atom new_bond)
         end
   end) w1.
Proof.
  unfold match_and_update_body. rewrite bind_unfold.
  unfold getitem. rewrite Hid. unfold mret at 1, Run_ret at 1.
  rewrite bind_unfold, (update_atom_eq h _ Ah) by exact HAh. reflexivity.
Qed.

Variables (result : option ref) (dist : Q).
Hypothesis Hsearch :
  get_closest_heavy_atom_in_residue result_complex h w1 = Return (result, dist) w1.

Lemma body_no_partner :
  result = None ->
  match_and_update_body atom_by_position result_complex atoms id w
  = Return NoPartner (logged (log_no_partner id) w1).
Proof.
  intros ->. rewrite body_unfold, bind_unfold, Hsearch. reflexivity.
Qed.

Lemma body_too_far (b : ref) :
  result = Some b -> Py_cmp.gt dist 2 = true ->
  match_and_update_body atom_by_position result_complex atoms id w
  = Return TooFar (logged (log_too_far id) w1).
Proof.
  intros -> Hgt. rewrite body_unfold, bind_unfold, Hsearch. cbv iota beta.
  rewrite Hgt. reflexivity.
Qed.

Variables (b : ref) (Ab : Atom) (rb : ref) (Rb : Residue).
Hypothesis Hresult : result = Some b.
Hypothesis Hnear : Py_cmp.gt dist 2 = false.
Hypothesis HAb : atoms_of w1 !! b = Some Ab.
Hypothesis Hrb : residue Ab = Some rb.
Hypothesis HRb : residues_of w !! rb = Some Rb.

Let nb := fresh (dom (bonds_of w)).
Let w2 := bonded h b nb rb Rb w1.

Lemma body_orphan :
  atom_by_position !! get_position_key Ab = None ->
  match_and_update_body atom_by_position result_complex atoms id w
  = Return Orphan (logged (log_orphan (set_symbol "H" Ah) Ab) w2).
Proof.
  intros Hkey. rewrite body_unfold, bind_unfold, Hsearch. cbv iota beta.
  rewrite Hresult, Hnear.
  rewrite bind_unfold, (add_bond_eq h b Ab rb Rb w1 HAb Hrb HRb). cbv zeta.
  fold nb. fold (bonded h b nb rb Rb w1). fold w2.
  rewrite bind_unfold, (get_atom_eq b Ab) by exact HAb.
  cbv zeta. rewrite Hkey.
  rewrite bind_unfold, (get_atom_eq h (set_symbol "H" Ah))
    by (unfold w2, bonded, w1, marked; wsimpl; apply lookup_insert_eq).
  reflexivity.
Qed.

Variables (src : ref) (As : Atom) (rs : ref) (Rs : Residue).
Hypothesis Hkey : atom_by_position !! get_position_key Ab = Some src.
Hypothesis HAs : atoms_of w1 !! src = Some As.
Hypothesis Hrs : residue As = Some rs.
Hypothesis HRs : residues_of w2 !! rs = Some Rs.

Let na := fresh (dom (atoms_of w1)).
Let nb' := fresh (dom (bonds_of w2)).

Lemma body_grafted :
  match_and_update_body atom_by_position result_complex atoms id w
  = Return (Grafted na nb')
           (grafted na nb' src rs (grafted_atom (set_symbol "H" Ah) As rs) Rs w2).
Proof.
  assert (Hna : na ≠ src).
  { intros E. apply (is_fresh (dom (atoms_of w1))). fold na. rewrite E.
    apply elem_of_dom. eauto. }
  assert (Hsrc : forall A, atoms_of (with_atoms <[na := A]> w2) !! src = Some As).
  { intros A. unfold w2, bonded. wsimpl. rewrite lookup_insert_ne by exact Hna. exact HAs. }
  rewrite body_unfold, bind_unfold, Hsearch. cbv iota beta.
  rewrite Hresult, Hnear.
  rewrite bind_unfold, (add_bond_eq h b Ab rb Rb w1 HAb Hrb HRb). cbv zeta.
  fold nb. fold (bonded h b nb rb Rb w1). fold w2.
  rewrite bind_unfold, (get_atom_eq b Ab) by exact HAb.
  cbv zeta. rewrite Hkey.
  unfold Atom_shallow_copy.
  rewrite bind_unfold, bind_unfold, (get_atom_eq h (set_symbol "H" Ah))
    by (unfold w2, bonded, w1, marked; wsimpl; apply lookup_insert_eq).
  unfold new_atom_object at 1.
  change (fresh (dom (atoms_of w2))) with na. cbv zeta.
  do 5 (rewrite bind_unfold, (get_atom_eq src As) by apply Hsrc;
        rewrite bind_unfold;
        erewrite update_atom_eq by (wsimpl; apply lookup_insert_eq);
        rewrite with_atoms_twice).
  unfold Bond_shallow_copy.
  rewrite bind_unfold, bind_unfold.
  rewrite (get_bond_eq nb (mkBond CovalentSingle (Some h) (Some b) (Some rb)))
    by (unfold w2, bonded; wsimpl; apply lookup_insert_eq).
  unfold new_bond_object at 1. wsimpl. change (fresh (dom (bonds_of w2))) with nb'.
  cbv zeta.
  do 2 (rewrite bind_unfold;
        erewrite update_bond_eq by (wsimpl; apply lookup_insert_eq);
        rewrite with_bonds_twice).
  rewrite bind_unfold, (get_atom_eq src As) by (wsimpl; apply Hsrc).
  rewrite Hrs. simpl deref. rewrite bind_unfold. unfold mret at 1, Run_ret at 1.
  rewrite bind_unfold.
  erewrite Residue_add_atom_eq
    by (wsimpl; first [exact HRs | apply lookup_insert_eq]).
  rewrite bind_unfold.
  erewrite Residue_add_bond_eq
    by (wsimpl; first [apply lookup_insert_eq]).
  unfold mret, Run_ret. f_equal.
  unfold grafted. apply World_eq; wsimpl; rewrite ?insert_insert_eq; reflexivity.
Qed.

End Body.

(** ** Well-formed stores *)

Section WellFormed.

Lemma parent_of_Some (w : World) (a r : ref) :
  parent_of w a = Some r <-> exists A, atoms_of w !! a = Some A /\ residue A = Some r.
Proof.
  unfold parent_of. destruct (atoms_of w !! a) as [A |]; simpl; split.
  - eauto.
  - intros (A' & E & Hr). injection E as <-. exact Hr.
  - discriminate.
  - intros (A' & E & _). discriminate.
Qed.

Lemma atoms_at_elem (w : World) (r a : ref) :
  a ∈ atoms_at w r <-> exists R, residues_of w !! r = Some R /\ a ∈ res_atoms R.
Proof.
  unfold atoms_at. destruct (residues_of w !! r) as [R |]; simpl; split.
  - eauto.
  - intros (R' & E & Hin). injection E as <-. exact Hin.
  - intros Hin. inversion Hin.
  - intros (R' & E & _). discriminate.
Qed.

Lemma bonds_at_elem (w : World) (r b : ref) :
  b ∈ bonds_at w r <-> exists R, residues_of w !! r = Some R /\ b ∈ res_bonds R.
Proof.
  unfold bonds_at. destruct (residues_of w !! r) as [R |]; simpl; split.
  - eauto.
  - intros (R' & E & Hin). injection E as <-. exact Hin.
  - intros Hin. inversion Hin.
  - intros (R' & E & _). discriminate.
Qed.

Lemma atom_in_elem (w : World) (c : Complex) (a : ref) :
  atom_in w c a <->
  exists r R, r ∈ residues c /\ residues_of w !! r = Some R /\ a ∈ res_atoms R.
Proof.
  unfold atom_in. rewrite Exists_exists. split.
  - intros (r & Hr & Hin). apply atoms_at_elem in Hin as (R & HR & Hin). eauto.
  - intros (r & R & Hr & HR & Hin). exists r. split; [exact Hr |].
    apply atoms_at_elem. eauto.
Qed.

Lemma bond_in_elem (w : World) (c : Complex) (b : ref) :
  bond_in w c b <->
  exists r R, r ∈ residues c /\ residues_of w !! r = Some R /\ b ∈ res_bonds R.
Proof.
  unfold bond_in. rewrite Exists_exists. split.
  - intros (r & Hr & Hin). apply bonds_at_elem in Hin as (R & HR & Hin). eauto.
  - intros (r & R & Hr & HR & Hin). exists r. split; [exact Hr |].
    apply bonds_at_elem. eauto.
Qed.

Lemma atom_list_elem (w : World) (c : Complex) (a : ref) :
  a ∈ atom_list w c <-> atom_in w c a.
Proof.
  unfold atom_list, atom_in. rewrite Exists_exists, list_elem_of_In, in_concat. split.
  - intros (l & Hl & Hin). apply in_map_iff in Hl as (r & <- & Hr).
    exists r. split; apply list_elem_of_In; assumption.
  - intros (r & Hr & Hin). exists (atoms_at w r).
    split; [apply in_map, list_elem_of_In, Hr | apply list_elem_of_In, Hin].
Qed.

Lemma wf_heap_lookup (w : World) (r a : ref) (R : Residue) :
  wf_heap w -> residues_of w !! r = Some R -> a ∈ res_atoms R ->
  exists A, atoms_of w !! a = Some A /\ residue A = Some r.
Proof.
  intros Hwf HR Hin. destruct (Hwf r R HR) as [Ha _].
  rewrite Forall_forall in Ha. apply parent_of_Some, Ha, Hin.
Qed.

Lemma wf_heap_bond (w : World) (r b : ref) (R : Residue) :
  wf_heap w -> residues_of w !! r = Some R -> b ∈ res_bonds R ->
  is_Some (bonds_of w !! b).
Proof.
  intros Hwf HR Hin. destruct (Hwf r R HR) as [_ Hb].
  rewrite Forall_forall in Hb. apply Hb, Hin.
Qed.

(** The two parts of well-formedness, residue by residue. *)
Lemma wf_heap_intro (w : World) :
  (forall r R a, residues_of w !! r = Some R -> a ∈ res_atoms R ->
     exists A, atoms_of w !! a = Some A /\ residue A = Some r) ->
  (forall r R b, residues_of w !! r = Some R -> b ∈ res_bonds R ->
     is_Some (bonds_of w !! b)) ->
  wf_heap w.
Proof.
  intros Ha Hb r R HR. split; apply Forall_forall.
  - intros a Hin. apply parent_of_Some. eauto.
  - intros b Hin. eauto.
Qed.

Lemma wf_heap_resolves (w : World) (r : ref) (R : Residue) :
  wf_heap w -> residues_of w !! r = Some R ->
  Forall (fun a => is_Some (atoms_of w !! a)) (res_atoms R).
Proof.
  intros Hwf HR. apply Forall_forall. intros a Hin.
  destruct (wf_heap_lookup w r a R Hwf HR Hin) as (A & E & _). eauto.
Qed.

(** An atom of a complex: its object, its residue, and the residue's object. *)
Lemma atom_in_object (w : World) (c : Complex) (a : ref) :
  wf_heap w -> atom_in w c a ->
  exists A r R, atoms_of w !! a = Some A /\ residue A = Some r /\
    r ∈ residues c /\ residues_of w !! r = Some R /\ a ∈ res_atoms R.
Proof.
  intros Hwf Hin. apply atom_in_elem in Hin as (r & R & Hr & HR & Hin).
  destruct (wf_heap_lookup w r a R Hwf HR Hin) as (A & E & Hp).
  exists A, r, R. auto.
Qed.

(** Complexes without a common residue have no common atom. *)
Lemma separate_atoms (w : World) (O Rc : Complex) (a : ref) :
  wf_heap w -> separate O Rc -> atom_in w O a -> atom_in w Rc a -> False.
Proof.
  intros Hwf Hsep HO HR.
  destruct (atom_in_object w O a Hwf HO) as (A & r & R & E & Hp & Hr & _).
  destruct (atom_in_object w Rc a Hwf HR) as (A' & r' & R' & E' & Hp' & Hr' & _).
  rewrite E in E'. injection E' as <-. rewrite Hp in Hp'. injection Hp' as <-.
  unfold separate in Hsep. rewrite Forall_forall in Hsep. exact (Hsep r Hr Hr').
Qed.

End WellFormed.

(** ** The effect of a round on the two complexes *)

Section Membership.

Lemma atom_in_mono (w w' : World) (c : Complex) (a : ref) :
  (forall r, a ∈ atoms_at w r -> a ∈ atoms_at w' r) ->
  atom_in w c a -> atom_in w' c a.
Proof.
  intros Hm. unfold atom_in. rewrite !Exists_exists.
  intros (r & Hr & Hin). exists r. auto.
Qed.

Lemma bond_in_mono (w w' : World) (c : Complex) (b : ref) :
  (forall r, b ∈ bonds_at w r -> b ∈ bonds_at w' r) ->
  bond_in w c b -> bond_in w' c b.
Proof.
  intros Hm. unfold bond_in. rewrite !Exists_exists.
  intros (r & Hr & Hin). exists r. auto.
Qed.

Lemma atom_in_residues (w w' : World) (c : Complex) (a : ref) :
  (forall r, r ∈ residues c -> residues_of w' !! r = residues_of w !! r) ->
  atom_in w c a -> atom_in w' c a.
Proof.
  intros Hs. unfold atom_in. rewrite !Exists_exists.
  intros (r & Hr & Hin). exists r. split; [exact Hr |].
  unfold atoms_at in *. now rewrite (Hs r Hr).
Qed.

Lemma bond_in_residues (w w' : World) (c : Complex) (b : ref) :
  (forall r, r ∈ residues c -> residues_of w' !! r = residues_of w !! r) ->
  bond_in w c b -> bond_in w' c b.
Proof.
  intros Hs. unfold bond_in. rewrite !Exists_exists.
  intros (r & Hr & Hin). exists r. split; [exact Hr |].
  unfold bonds_at in *. now rewrite (Hs r Hr).
Qed.

Lemma wf_complex_mono (w w' : World) (c : Complex) :
  (forall r, is_Some (residues_of w !! r) -> is_Some (residues_of w' !! r)) ->
  wf_complex w c -> wf_complex w' c.
Proof.
  intros Hm. unfold wf_complex. rewrite !Forall_forall. intros Hc r Hr. auto.
Qed.

Lemma index_of_mono (w w' : World) (O : Complex) (atom_by_position : gmap Key ref) :
  (forall a, atom_in w O a -> atom_in w' O a) ->
  index_of w O atom_by_position -> index_of w' O atom_by_position.
Proof. intros Hm Hi k a Hk. apply Hm, (Hi k a Hk). Qed.

Lemma untouched_refl (O : Complex) (w : World) : untouched O w w.
Proof. repeat split. Qed.

Lemma untouched_trans (O : Complex) (w1 w2 w3 : World) :
  untouched O w1 w2 -> untouched O w2 w3 -> untouched O w1 w3.
Proof.
  intros (Hr & Ha & Hb) (Hr' & Ha' & Hb'). split; [| split].
  - intros r Hin. rewrite (Hr' r Hin). auto.
  - intros a Hin. rewrite (Ha' a), (Ha a); auto.
    apply (atom_in_residues w1 w2); assumption.
  - intros b Hin. rewrite (Hb' b), (Hb b); auto.
    apply (bond_in_residues w1 w2); assumption.
Qed.

Lemma untouched_preserved (O : Complex) (w w' : World) :
  untouched O w w' -> preserved O w w'.
Proof.
  intros (Hr & Ha & Hb). split.
  - intros a Hin. split; [apply (atom_in_residues w w'); assumption | auto].
  - intros b Hin. split; [apply (bond_in_residues w w'); assumption | auto].
Qed.

Lemma preserved_refl (O : Complex) (w : World) : preserved O w w.
Proof. apply untouched_preserved, untouched_refl. Qed.

Lemma preserved_trans (O : Complex) (w1 w2 w3 : World) :
  preserved O w1 w2 -> preserved O w2 w3 -> preserved O w1 w3.
Proof.
  intros [Ha Hb] [Ha' Hb']. split.
  - intros a Hin. destruct (Ha a Hin) as [Hin2 E2].
    destruct (Ha' a Hin2) as [Hin3 E3]. split; [exact Hin3 | congruence].
  - intros b Hin. destruct (Hb b Hin) as [Hin2 E2].
    destruct (Hb' b Hin2) as [Hin3 E3]. split; [exact Hin3 | congruence].
Qed.

(** A state with the same molecular store is the same scene. *)
Lemma scene_same_store (w w' : World) (O Rc : Complex) (atom_by_position : gmap Key ref) :
  atoms_of w' = atoms_of w -> bonds_of w' = bonds_of w ->
  residues_of w' = residues_of w ->
  scene w O Rc atom_by_position -> scene w' O Rc atom_by_position.
Proof.
  intros Ea Eb Er [Hh Ho Hr Hs Hi].
  assert (Hat : forall r, atoms_at w' r = atoms_at w r)
    by (intros r; unfold atoms_at; now rewrite Er).
  split.
  - apply wf_heap_intro.
    + intros r R a HR Hin. rewrite Er in HR. rewrite Ea.
      exact (wf_heap_lookup w r a R Hh HR Hin).
    + intros r R b HR Hin. rewrite Er in HR. rewrite Eb.
      exact (wf_heap_bond w r b R Hh HR Hin).
  - apply (wf_complex_mono w); [intros r; now rewrite Er | exact Ho].
  - apply (wf_complex_mono w); [intros r; now rewrite Er | exact Hr].
  - exact Hs.
  - apply (index_of_mono w); [| exact Hi].
    intros a. apply atom_in_mono. intros r. now rewrite Hat.
Qed.

Lemma untouched_same_store (w w' : World) (O : Complex) :
  atoms_of w' = atoms_of w -> bonds_of w' = bonds_of w ->
  residues_of w' = residues_of w -> untouched O w w'.
Proof. intros Ea Eb Er. repeat split; intros; congruence. Qed.

End Membership.

Section Effects.
Variables (O Rc : Complex) (atom_by_position : gmap Key ref).

(** *** Marking the hydrogen *)

Lemma scene_marked (w : World) (h : ref) (Ah : Atom) :
  scene w O Rc atom_by_position -> atoms_of w !! h = Some Ah ->
  scene (marked h Ah w) O Rc atom_by_position.
Proof.
  intros [Hh Ho Hr Hs Hi] HAh. split.
  - apply wf_heap_intro.
    + intros r R a HR Hin. unfold marked. wsimpl.
      destruct (wf_heap_lookup w r a R Hh HR Hin) as (A & E & Hp).
      destruct (decide (a = h)) as [-> | Hne].
      * rewrite lookup_insert_eq. rewrite HAh in E. injection E as <-.
        eexists. split; [reflexivity | exact Hp].
      * rewrite lookup_insert_ne by auto. eauto.
    + intros r R b HR Hin. exact (wf_heap_bond w r b R Hh HR Hin).
  - exact Ho.
  - exact Hr.
  - exact Hs.
  - exact Hi.
Qed.

Lemma untouched_marked (w : World) (h : ref) (Ah : Atom) :
  scene w O Rc atom_by_position -> atom_in w Rc h ->
  untouched O w (marked h Ah w).
Proof.
  intros Hsc Hh. split; [| split].
  - reflexivity.
  - intros a Ha. unfold marked. wsimpl. apply lookup_insert_ne.
    intros ->. exact (separate_atoms w O Rc a (scene_heap _ _ _ _ Hsc)
                        (scene_separate _ _ _ _ Hsc) Ha Hh).
  - reflexivity.
Qed.

(** *** The bond on the reparsed side *)

Section Bonded.
Variables (w : World) (h b nb rb : ref) (Rb : Residue).
Hypothesis Hsc : scene w O Rc atom_by_position.
Hypothesis Hrb : rb ∈ residues Rc.
Hypothesis HRb : residues_of w !! rb = Some Rb.
Hypothesis Hnb : bonds_of w !! nb = None.

Let w' := bonded h b nb rb Rb w.

Lemma bonded_residue (r : ref) (R : Residue) :
  residues_of w' !! r = Some R ->
  exists R0, residues_of w !! r = Some R0 /\ res_atoms R = res_atoms R0 /\
    (forall x, x ∈ res_bonds R -> x ∈ res_bonds R0 \/ x = nb).
Proof.
  unfold w', bonded. wsimpl. destruct (decide (r = rb)) as [-> | Hne].
  - rewrite lookup_insert_eq. intros E. injection E as <-.
    exists Rb. split; [exact HRb |]. split; [reflexivity |].
    intros x Hx. simpl in Hx. apply elem_of_app in Hx as [Hx | Hx]; [auto |].
    apply list_elem_of_singleton in Hx. auto.
  - rewrite lookup_insert_ne by auto. intros E. exists R. auto.
Qed.

Lemma bonded_atoms_at (r : ref) : atoms_at w' r = atoms_at w r.
Proof.
  unfold atoms_at, w', bonded. wsimpl. destruct (decide (r = rb)) as [-> | Hne].
  - rewrite lookup_insert_eq, HRb. reflexivity.
  - now rewrite lookup_insert_ne by auto.
Qed.

Lemma bonded_residue_other (r : ref) :
  r ≠ rb -> residues_of w' !! r = residues_of w !! r.
Proof. intros Hne. unfold w', bonded. wsimpl. now rewrite lookup_insert_ne by auto. Qed.

Lemma bonded_bond_old (x : ref) :
  is_Some (bonds_of w !! x) -> bonds_of w' !! x = bonds_of w !! x.
Proof.
  intros Hx. unfold w', bonded. wsimpl. apply lookup_insert_ne.
  intros ->. rewrite Hnb in Hx. destruct Hx as [? Hx]. discriminate Hx.
Qed.

Lemma scene_bonded : scene w' O Rc atom_by_position.
Proof.
  destruct Hsc as [Hh Ho Hr Hs Hi]. split.
  - apply wf_heap_intro.
    + intros r R a HR Hin. destruct (bonded_residue r R HR) as (R0 & HR0 & Ea & _).
      rewrite Ea in Hin. exact (wf_heap_lookup w r a R0 Hh HR0 Hin).
    + intros r R x HR Hin. destruct (bonded_residue r R HR) as (R0 & HR0 & _ & Hb).
      destruct (Hb x Hin) as [Hold | ->].
      * rewrite bonded_bond_old; exact (wf_heap_bond w r x R0 Hh HR0 Hold).
      * unfold w', bonded. wsimpl. rewrite lookup_insert_eq. eauto.
  - apply (wf_complex_mono w); [| exact Ho].
    intros r [R HR]. unfold w', bonded. wsimpl.
    destruct (decide (r = rb)) as [-> | Hne];
      [rewrite lookup_insert_eq | rewrite lookup_insert_ne by auto]; eauto.
  - apply (wf_complex_mono w); [| exact Hr].
    intros r [R HR]. unfold w', bonded. wsimpl.
    destruct (decide (r = rb)) as [-> | Hne];
      [rewrite lookup_insert_eq | rewrite lookup_insert_ne by auto]; eauto.
  - exact Hs.
  - apply (index_of_mono w); [| exact Hi].
    intros a. apply atom_in_mono. intros r. now rewrite bonded_atoms_at.
Qed.

Lemma atom_in_bonded (c : Complex) (a : ref) : atom_in w' c a <-> atom_in w c a.
Proof.
  split; apply atom_in_mono; intros r; now rewrite bonded_atoms_at.
Qed.

Lemma untouched_bonded : untouched O w w'.
Proof.
  assert (Hne : forall r, r ∈ residues O -> r ≠ rb).
  { intros r Hr ->. pose proof (scene_separate _ _ _ _ Hsc) as Hs.
    unfold separate in Hs. rewrite Forall_forall in Hs. exact (Hs rb Hr Hrb). }
  split; [| split].
  - intros r Hr. apply bonded_residue_other, Hne, Hr.
  - reflexivity.
  - intros x Hx. apply bonded_bond_old.
    apply bond_in_elem in Hx as (r & R & Hr & HR & Hin).
    exact (wf_heap_bond w r x R (scene_heap _ _ _ _ Hsc) HR Hin).
Qed.

End Bonded.

(** *** The graft on the original side *)

Section Grafted.
Variables (w : World) (na nb' src rs : ref) (NA : Atom) (Rs : Residue).
Hypothesis Hsc : scene w O Rc atom_by_position.
Hypothesis Hrs : rs ∈ residues O.
Hypothesis HRs : residues_of w !! rs = Some Rs.
Hypothesis Hsrc : src ∈ res_atoms Rs.
Hypothesis Hna : atoms_of w !! na = None.
Hypothesis Hnb : bonds_of w !! nb' = None.
Hypothesis HNA : residue NA = Some rs.

Let w' := grafted na nb' src rs NA Rs w.

Lemma grafted_atom_old (a : ref) :
  is_Some (atoms_of w !! a) -> atoms_of w' !! a = atoms_of w !! a.
Proof.
  intros Ha. unfold w', grafted. wsimpl. apply lookup_insert_ne.
  intros ->. rewrite Hna in Ha. destruct Ha as [? Ha]. discriminate Ha.
Qed.

Lemma grafted_bond_old (x : ref) :
  is_Some (bonds_of w !! x) -> bonds_of w' !! x = bonds_of w !! x.
Proof.
  intros Hx. unfold w', grafted. wsimpl. apply lookup_insert_ne.
  intros ->. rewrite Hnb in Hx. destruct Hx as [? Hx]. discriminate Hx.
Qed.

Lemma grafted_residue (r : ref) (R : Residue) :
  residues_of w' !! r = Some R ->
  exists R0, residues_of w !! r = Some R0 /\
    (forall a, a ∈ res_atoms R -> a ∈ res_atoms R0 \/ (a = na /\ r = rs)) /\
    (forall x, x ∈ res_bonds R -> x ∈ res_bonds R0 \/ x = nb').
Proof.
  unfold w', grafted. wsimpl. destruct (decide (r = rs)) as [-> | Hne].
  - rewrite lookup_insert_eq. intros E. injection E as <-.
    exists Rs. split; [exact HRs |]. simpl. split.
    + intros a Ha. apply elem_of_app in Ha as [Ha | Ha]; [auto |].
      apply list_elem_of_singleton in Ha. auto.
    + intros x Hx. apply elem_of_app in Hx as [Hx | Hx]; [auto |].
      apply list_elem_of_singleton in Hx. auto.
  - rewrite lookup_insert_ne by auto. intros E. exists R. auto.
Qed.

Lemma grafted_atoms_at (r a : ref) : a ∈ atoms_at w r -> a ∈ atoms_at w' r.
Proof.
  unfold atoms_at, w', grafted. wsimpl. destruct (decide (r = rs)) as [-> | Hne].
  - rewrite lookup_insert_eq, HRs. simpl. intros Ha. apply elem_of_app. auto.
  - now rewrite lookup_insert_ne by auto.
Qed.

Lemma grafted_bonds_at (r x : ref) : x ∈ bonds_at w r -> x ∈ bonds_at w' r.
Proof.
  unfold bonds_at, w', grafted. wsimpl. destruct (decide (r = rs)) as [-> | Hne].
  - rewrite lookup_insert_eq, HRs. simpl. intros Hx. apply elem_of_app. auto.
  - now rewrite lookup_insert_ne by auto.
Qed.

Lemma grafted_residue_other (r : ref) :
  r ≠ rs -> residues_of w' !! r = residues_of w !! r.
Proof. intros Hne. unfold w', grafted. wsimpl. now rewrite lookup_insert_ne by auto. Qed.

Lemma scene_grafted : scene w' O Rc atom_by_position.
Proof.
  destruct Hsc as [Hh Ho Hr Hs Hi]. split.
  - apply wf_heap_intro.
    + intros r R a HR Hin. destruct (grafted_residue r R HR) as (R0 & HR0 & Ha & _).
      destruct (Ha a Hin) as [Hold | [-> ->]].
      * destruct (wf_heap_lookup w r a R0 Hh HR0 Hold) as (A & E & Hp).
        exists A. split; [| exact Hp]. rewrite grafted_atom_old; eauto.
      * exists NA. split; [| exact HNA].
        unfold w', grafted. wsimpl. apply lookup_insert_eq.
    + intros r R x HR Hin. destruct (grafted_residue r R HR) as (R0 & HR0 & _ & Hb).
      destruct (Hb x Hin) as [Hold | ->].
      * rewrite grafted_bond_old; exact (wf_heap_bond w r x R0 Hh HR0 Hold).
      * unfold w', grafted. wsimpl. rewrite lookup_insert_eq. eauto.
  - apply (wf_complex_mono w); [| exact Ho].
    intros r [R HR]. unfold w', grafted. wsimpl.
    destruct (decide (r = rs)) as [-> | Hne];
      [rewrite lookup_insert_eq | rewrite lookup_insert_ne by auto]; eauto.
  - apply (wf_complex_mono w); [| exact Hr].
    intros r [R HR]. unfold w', grafted. wsimpl.
    destruct (decide (r = rs)) as [-> | Hne];
      [rewrite lookup_insert_eq | rewrite lookup_insert_ne by auto]; eauto.
  - exact Hs.
  - apply (index_of_mono w); [| exact Hi].
    intros a. apply atom_in_mono. intros r. apply grafted_atoms_at.
Qed.

Lemma atom_in_grafted (c : Complex) (a : ref) : atom_in w c a -> atom_in w' c a.
Proof. apply atom_in_mono. intros r. apply grafted_atoms_at. Qed.

(** The reparsed complex has the atoms it had. *)
Lemma atom_in_grafted_reparsed (a : ref) : atom_in w' Rc a -> atom_in w Rc a.
Proof.
  intros Ha. apply atom_in_elem in Ha as (r & R & Hr & HR & Hin).
  assert (Hne : r ≠ rs).
  { intros ->. pose proof (scene_separate _ _ _ _ Hsc) as Hs.
    unfold separate in Hs. rewrite Forall_forall in Hs. exact (Hs rs Hrs Hr). }
  rewrite grafted_residue_other in HR by exact Hne.
  apply atom_in_elem. eauto.
Qed.

Lemma preserved_grafted : preserved O w w'.
Proof.
  split.
  - intros a Ha. split; [apply atom_in_grafted, Ha |].
    apply grafted_atom_old.
    destruct (atom_in_object w O a (scene_heap _ _ _ _ Hsc) Ha) as (A & _ & _ & E & _).
    eauto.
  - intros x Hx. split.
    + revert Hx. apply bond_in_mono. intros r. apply grafted_bonds_at.
    + apply grafted_bond_old.
      apply bond_in_elem in Hx as (r & R & Hr & HR & Hin).
      exact (wf_heap_bond w r x R (scene_heap _ _ _ _ Hsc) HR Hin).
Qed.

(** The inserted atom and bond, and where they are. *)
Lemma grafted_new_atom : atoms_of w' !! na = Some NA.
Proof. unfold w', grafted. wsimpl. apply lookup_insert_eq. Qed.

Lemma grafted_new_bond :
  bonds_of w' !! nb' = Some (mkBond CovalentSingle (Some src) (Some na) (Some rs)).
Proof. unfold w', grafted. wsimpl. apply lookup_insert_eq. Qed.

Lemma grafted_residue_lists :
  atoms_at w' rs = res_atoms Rs ++ [na] /\ bonds_at w' rs = res_bonds Rs ++ [nb'].
Proof.
  unfold atoms_at, bonds_at, w', grafted. wsimpl. rewrite lookup_insert_eq.
  split; reflexivity.
Qed.

Lemma grafted_endpoints_original : atom_in w' O src /\ atom_in w' O na.
Proof.
  destruct grafted_residue_lists as [Ea _].
  split; apply Exists_exists; exists rs; (split; [exact Hrs |]); rewrite Ea;
    apply elem_of_app; [left; exact Hsrc | right; apply list_elem_of_singleton; reflexivity].
Qed.

Lemma grafted_endpoints_not_reparsed : ~ atom_in w' Rc src /\ ~ atom_in w' Rc na.
Proof.
  destruct grafted_endpoints_original as [Hs Hn].
  pose proof scene_grafted as Hsc'.
  split; intros Hin.
  - exact (separate_atoms w' O Rc src (scene_heap _ _ _ _ Hsc')
             (scene_separate _ _ _ _ Hsc') Hs Hin).
  - exact (separate_atoms w' O Rc na (scene_heap _ _ _ _ Hsc')
             (scene_separate _ _ _ _ Hsc') Hn Hin).
Qed.

End Grafted.

End Effects.

(** ** A round in a scene *)

Section Round.
Context `{Host}.
Variables (O Rc : Complex) (atom_by_position : gmap Key ref).
Variables (atoms : list ref) (id : nat) (w : World) (h : ref).
Hypothesis Hsc : scene w O Rc atom_by_position.
Hypothesis Hid : atoms !! id = Some h.
Hypothesis Hh : atom_in w Rc h.

Lemma round_cases :
  exists Ah rh Rh acc,
    atoms_of w !! h = Some Ah /\ residue Ah = Some rh /\ rh ∈ residues Rc /\
    residues_of w !! rh = Some Rh /\ h ∈ res_atoms Rh /\
    get_closest_heavy_atom_in_residue Rc h (marked h Ah w) = Return acc (marked h Ah w) /\
    best_so_far (marked h Ah w) h (set_symbol "H" Ah) (res_atoms Rh) acc /\
    round_post atom_by_position O Rc atoms id w h Ah rh Rh acc.
Proof.
  pose proof (scene_heap _ _ _ _ Hsc) as Hwf.
  destruct (atom_in_object w Rc h Hwf Hh) as (Ah & rh & Rh & HAh & Hp & Hrh & HRh & Hin).
  pose proof (scene_marked O Rc atom_by_position w h Ah Hsc HAh) as Hsc1.
  pose proof (scene_heap _ _ _ _ Hsc1) as Hwf1.
  set (w1 := marked h Ah w) in *.
  assert (HA1 : atoms_of w1 !! h = Some (set_symbol "H" Ah))
    by (unfold w1, marked; wsimpl; apply lookup_insert_eq).
  assert (HR1 : residues_of w1 !! rh = Some Rh) by exact HRh.
  destruct (get_closest_spec Rc h w1 (set_symbol "H" Ah) rh Rh HA1 Hp HR1
              (wf_heap_resolves w1 rh Rh Hwf1 HR1)) as (acc & Hsearch & Hbest).
  exists Ah, rh, Rh, acc. repeat (split; [assumption |]).
  unfold round_post. cbv zeta. fold w1.
  destruct acc as [result dist]. simpl fst. simpl snd.
  destruct result as [b |].
  - destruct Hbest as [_ (Ab & Hbin & (Hbh & HAb1 & Hsym) & _)]. simpl in Hbin.
    destruct (Py_cmp.gt dist 2) eqn:Hgt.
    + exact (body_too_far atom_by_position Rc atoms id w h Ah Hid HAh (Some b) dist
               Hsearch b eq_refl Hgt).
    + assert (HAb : atoms_of w !! b = Some Ab).
      { unfold w1, marked in HAb1. wsimpl_in HAb1.
        rewrite lookup_insert_ne in HAb1 by auto. exact HAb1. }
      destruct (wf_heap_lookup w rh b Rh Hwf HRh Hbin) as (Ab' & E & Hpb).
      rewrite HAb in E. injection E as <-.
      exists Ab. repeat (split; [assumption |]).
      destruct (atom_by_position !! get_position_key Ab) as [src |] eqn:Hkey.
      * pose proof (scene_index _ _ _ _ Hsc _ _ Hkey) as Hsrc. simpl in Hsrc.
        destruct (atom_in_object w O src Hwf Hsrc)
          as (As & rs & Rs & HAs & Hps & Hrs & HRs & Hsin).
        exists As, rs, Rs. repeat (split; [assumption |]).
        assert (Hne : src ≠ h).
        { intros ->. exact (separate_atoms w O Rc h Hwf (scene_separate _ _ _ _ Hsc) Hsrc Hh). }
        assert (Hrne : rs ≠ rh).
        { intros ->. pose proof (scene_separate _ _ _ _ Hsc) as Hs.
          unfold separate in Hs. rewrite Forall_forall in Hs. exact (Hs rh Hrs Hrh). }
        apply (body_grafted atom_by_position Rc atoms id w h Ah Hid HAh (Some b) dist
                 Hsearch b Ab rh Rh eq_refl Hgt HAb1 Hpb HRh src As rs Rs Hkey).
        -- unfold marked. wsimpl. rewrite lookup_insert_ne by auto. exact HAs.
        -- exact Hps.
        -- unfold bonded, marked. wsimpl. rewrite lookup_insert_ne by auto. exact HRs.
      * exact (body_orphan atom_by_position Rc atoms id w h Ah Hid HAh (Some b) dist
                 Hsearch b Ab rh Rh eq_refl Hgt HAb1 Hpb HRh Hkey).
  - exact (body_no_partner atom_by_position Rc atoms id w h Ah Hid HAh None dist
             Hsearch eq_refl).
Qed.

End Round.

Lemma fresh_lookup_None {V} (m : gmap ref V) : m !! fresh (dom m) = None.
Proof. apply not_elem_of_dom, is_fresh. Qed.

Section RoundSummary.
Context `{Host}.
Variables (O Rc : Complex) (atom_by_position : gmap Key ref).
Variables (atoms : list ref) (id : nat) (w : World) (h : ref).
Hypothesis Hsc : scene w O Rc atom_by_position.
Hypothesis Hid : atoms !! id = Some h.
Hypothesis Hh : atom_in w Rc h.

(** The state after a skip without a bond. *)
Lemma skip_marked (Ah : Atom) (e : LogEntry) :
  atoms_of w !! h = Some Ah ->
  let w' := logged e (marked h Ah w) in
  scene w' O Rc atom_by_position /\
  (forall a, atom_in w Rc a -> atom_in w' Rc a) /\
  untouched O w w'.
Proof.
  intros HAh w'. split; [| split].
  - apply (scene_same_store (marked h Ah w)); try reflexivity.
    apply scene_marked; assumption.
  - intros a. apply atom_in_residues. reflexivity.
  - apply (untouched_trans O w (marked h Ah w)).
    + apply (untouched_marked O Rc atom_by_position); assumption.
    + apply untouched_same_store; reflexivity.
Qed.

(** The state after a skip with the bond on the reparsed side. *)
Lemma skip_bonded (Ah : Atom) (rh : ref) (Rh : Residue) (b : ref) (e : LogEntry) :
  atoms_of w !! h = Some Ah -> rh ∈ residues Rc -> residues_of w !! rh = Some Rh ->
  let w2 := bonded h b (fresh (dom (bonds_of w))) rh Rh (marked h Ah w) in
  scene w2 O Rc atom_by_position /\
  scene (logged e w2) O Rc atom_by_position /\
  (forall a, atom_in w Rc a -> atom_in (logged e w2) Rc a) /\
  untouched O w w2 /\ untouched O w (logged e w2).
Proof.
  intros HAh Hrh HRh w2.
  pose proof (scene_marked O Rc atom_by_position w h Ah Hsc HAh) as Hsc1.
  assert (Hsc2 : scene w2 O Rc atom_by_position).
  { apply scene_bonded; try assumption. apply (fresh_lookup_None (bonds_of w)). }
  assert (Hun : untouched O w w2).
  { apply (untouched_trans O w (marked h Ah w)).
    - apply (untouched_marked O Rc atom_by_position); assumption.
    - apply (untouched_bonded O Rc atom_by_position); try assumption.
      apply (fresh_lookup_None (bonds_of w)). }
  split; [exact Hsc2 |]. split; [| split; [| split; [exact Hun |]]].
  - apply (scene_same_store w2); try reflexivity. exact Hsc2.
  - intros a Ha. apply (atom_in_residues w2); [reflexivity |].
    apply (atom_in_bonded (marked h Ah w) h b _ rh Rh HRh).
    revert Ha. apply atom_in_residues. reflexivity.
  - apply (untouched_trans O w w2); [exact Hun |].
    apply untouched_same_store; reflexivity.
Qed.

(** Every round returns, keeps the scene, and keeps what the original
    complex holds; a round that skips leaves the original complex as it is. *)
Lemma round_summary :
  exists m w',
    match_and_update_body atom_by_position Rc atoms id w = Return m w' /\
    scene w' O Rc atom_by_position /\
    (forall a, atom_in w Rc a -> atom_in w' Rc a) /\
    preserved O w w' /\
    (skipped m -> untouched O w w').
Proof.
  destruct (round_cases O Rc atom_by_position atoms id w h Hsc Hid Hh)
    as (Ah & rh & Rh & [result dist] & HAh & Hp & Hrh & HRh & Hin & _ & _ & Hpost).
  unfold round_post in Hpost. cbv zeta in Hpost. simpl fst in Hpost. simpl snd in Hpost.
  destruct result as [b |].
  - destruct (Py_cmp.gt dist 2).
    + destruct (skip_marked Ah (log_too_far id) HAh) as (S1 & S2 & S3).
      eexists _, _. split; [exact Hpost |].
      split; [exact S1 |]. split; [exact S2 |].
      split; [apply untouched_preserved, S3 | intros _; exact S3].
    + destruct Hpost as (Ab & HAb & Hbh & Hbin & Hpost).
      destruct (atom_by_position !! get_position_key Ab) as [src |].
      * destruct Hpost as (As & rs & Rs & HAs & Hps & Hrs & HRs & Hsin & Hrun).
        destruct (skip_bonded Ah rh Rh b (log_no_partner id) HAh Hrh HRh)
          as (S1 & _ & S3 & S4 & _).
        set (w2 := bonded h b (fresh (dom (bonds_of w))) rh Rh (marked h Ah w)) in *.
        assert (Hrne : rs ≠ rh).
        { intros ->. pose proof (scene_separate _ _ _ _ Hsc) as Hs.
          unfold separate in Hs. rewrite Forall_forall in Hs. exact (Hs rh Hrs Hrh). }
        assert (HRs2 : residues_of w2 !! rs = Some Rs).
        { unfold w2, bonded, marked. wsimpl. rewrite lookup_insert_ne by auto. exact HRs. }
        assert (Hna : atoms_of w2 !! fresh (dom (atoms_of (marked h Ah w))) = None)
          by apply (fresh_lookup_None (atoms_of (marked h Ah w))).
        assert (Hnb : bonds_of w2 !! fresh (dom (bonds_of w2)) = None)
          by apply fresh_lookup_None.
        eexists _, _. split; [exact Hrun |]. split; [| split; [| split]].
        -- apply scene_grafted; try assumption. reflexivity.
        -- intros a Ha. apply atom_in_grafted; [assumption |].
           apply (atom_in_bonded (marked h Ah w) h b _ rh Rh HRh).
           revert Ha. apply atom_in_residues. reflexivity.
        -- apply (preserved_trans O w w2); [apply untouched_preserved, S4 |].
           apply (preserved_grafted O Rc atom_by_position); assumption.
        -- intros [Hm | [Hm | Hm]]; discriminate Hm.
      * destruct (skip_bonded Ah rh Rh b (log_orphan (set_symbol "H" Ah) Ab) HAh Hrh HRh)
          as (_ & S2 & S3 & _ & S5).
        eexists _, _. split; [exact Hpost |].
        split; [exact S2 |]. split; [exact S3 |].
        split; [apply untouched_preserved, S5 | intros _; exact S5].
  - destruct (skip_marked Ah (log_no_partner id) HAh) as (S1 & S2 & S3).
    eexists _, _. split; [exact Hpost |].
    split; [exact S1 |]. split; [exact S2 |].
    split; [apply untouched_preserved, S3 | intros _; exact S3].
Qed.

End RoundSummary.

(** ** The loop over the hydrogen indices *)

Section Loop.
Context `{Host}.
Variables (O Rc : Complex) (atom_by_position : gmap Key ref).

Lemma Complex_atoms_fold (w : World) (l : list ref) (acc : list ref) :
  Forall (fun r => is_Some (residues_of w !! r)) l ->
  for_fold (fun acc r => R ← get_residue r; mret (acc ++ res_atoms R)) l acc w
  = Return (acc ++ concat (map (atoms_at w) l)) w.
Proof.
  revert acc. induction l as [| r l IH]; intros acc Hl; simpl.
  - now rewrite app_nil_r.
  - apply Forall_cons in Hl as [[R HR] Hl].
    rewrite bind_unfold, bind_unfold, (get_residue_eq r R w HR).
    unfold mret at 1, Run_ret at 1. rewrite (IH _ Hl).
    unfold atoms_at at 2. rewrite HR. simpl. now rewrite app_assoc.
Qed.

Lemma Complex_atoms_spec (w : World) (c : Complex) :
  wf_complex w c -> Complex_atoms c w = Return (atom_list w c) w.
Proof. intros Hc. unfold Complex_atoms. now rewrite Complex_atoms_fold. Qed.

Lemma round_out_of_range (atoms : list ref) (id : nat) (w : World) :
  (length atoms <= id)%nat -> round atom_by_position Rc atoms id w = Raise IndexError w.
Proof.
  intros Hge. unfold round, match_and_update_body, getitem.
  rewrite lookup_ge_None_2 by exact Hge. reflexivity.
Qed.

(** The loop ends in a state that preserves the original complex; it
    returns if every index is in range, and raises at the first that is not. *)
Lemma loop_outcome (atoms : list ref) (ids : list nat) (w : World) :
  scene w O Rc atom_by_position ->
  Forall (fun a => atom_in w Rc a) atoms ->
  exists w',
    preserved O w w' /\
    ((Forall (fun id => (id < length atoms)%nat) ids /\
      for_each (round atom_by_position Rc atoms) ids w = Return tt w' /\
      scene w' O Rc atom_by_position) \/
     (Exists (fun id => (length atoms <= id)%nat) ids /\
      for_each (round atom_by_position Rc atoms) ids w = Raise IndexError w')).
Proof.
  revert w. induction ids as [| id ids IH]; intros w Hsc Hat.
  - exists w. split; [apply preserved_refl |]. left. auto.
  - destruct (Nat.lt_ge_cases id (length atoms)) as [Hlt | Hge].
    + destruct (lookup_lt_is_Some_2 atoms id Hlt) as [h Hid].
      assert (Hh : atom_in w Rc h).
      { rewrite Forall_forall in Hat. apply Hat. apply list_elem_of_lookup. eauto. }
      destruct (round_summary O Rc atom_by_position atoms id w h Hsc Hid Hh)
        as (m & w1 & Erun & Hsc1 & Hmono & Hpres & _).
      assert (Hat1 : Forall (fun a => atom_in w1 Rc a) atoms).
      { rewrite Forall_forall in *. auto. }
      destruct (IH w1 Hsc1 Hat1) as (w' & Hpres' & Hcases).
      exists w'. split; [exact (preserved_trans O w w1 w' Hpres Hpres') |].
      assert (Estep : for_each (round atom_by_position Rc atoms) (id :: ids) w = for_each (round atom_by_position Rc atoms) ids w1).
      { simpl for_each. rewrite bind_unfold. unfold round at 1.
        rewrite bind_unfold, Erun. reflexivity. }
      rewrite Estep. destruct Hcases as [(Hall & Eret & Hsc') | (Hex & Eraise)].
      * left. split; [constructor; assumption | auto].
      * right. split; [apply Exists_cons_tl; assumption | exact Eraise].
    + exists w. split; [apply preserved_refl |]. right.
      split; [apply Exists_cons_hd; exact Hge |].
      simpl for_each. rewrite bind_unfold, round_out_of_range by exact Hge. reflexivity.
Qed.

(** [match_and_update] in a scene. *)
Lemma match_and_update_outcome (ids : list nat) (w : World) :
  scene w O Rc atom_by_position ->
  let n := length (atom_list w Rc) in
  exists w',
    preserved O w w' /\
    ((Forall (fun id => (id < n)%nat) ids /\
      match_and_update atom_by_position Rc ids w = Return tt w') \/
     (Exists (fun id => (n <= id)%nat) ids /\
      match_and_update atom_by_position Rc ids w = Raise IndexError w')).
Proof.
  intros Hsc n.
  set (e := mkLog LDebug "Matching atoms between Reduce-generated file and Nanome structure" []).
  assert (Hsc0 : scene (logged e w) O Rc atom_by_position)
    by (apply (scene_same_store w); try reflexivity; exact Hsc).
  assert (Hat : Forall (fun a => atom_in (logged e w) Rc a) (atom_list w Rc)).
  { apply Forall_forall. intros a Ha. apply atom_list_elem in Ha.
    revert Ha. apply atom_in_residues. reflexivity. }
  destruct (loop_outcome (atom_list w Rc) ids (logged e w) Hsc0 Hat) as (w1 & Hpres & Hcases).
  assert (Hpres0 : preserved O w w1).
  { apply (preserved_trans O w (logged e w)); [| exact Hpres].
    apply untouched_preserved, untouched_same_store; reflexivity. }
  assert (Eun : match_and_update atom_by_position Rc ids w =
                (for_each (round atom_by_position Rc (atom_list w Rc)) ids;; Logs_debug "Matching done" [])
                  (logged e w)).
  { unfold match_and_update. rewrite bind_unfold.
    change (Logs_debug _ [] w) with (Return tt (logged e w)). cbv iota beta.
    rewrite bind_unfold.
    rewrite (Complex_atoms_spec (logged e w) Rc) by exact (scene_reparsed _ _ _ _ Hsc0).
    reflexivity. }
  destruct Hcases as [(Hall & Eret & Hsc1) | (Hex & Eraise)].
  - exists (logged (mkLog LDebug "Matching done" []) w1). split.
    + apply (preserved_trans O w w1); [exact Hpres0 |].
      apply untouched_preserved, untouched_same_store; reflexivity.
    + left. split; [exact Hall |]. rewrite Eun, bind_unfold, Eret. reflexivity.
  - exists w1. split; [exact Hpres0 |]. right. split; [exact Hex |].
    rewrite Eun, bind_unfold, Eraise. reflexivity.
Qed.

End Loop.

(** ** The batch driver *)

Section Driver.
Context `{Host}.

Lemma index_fold (w : World) (atoms : list ref) (d : gmap Key ref) :
  Forall (fun a => is_Some (atoms_of w !! a)) atoms ->
  exists d',
    for_fold (fun (d : gmap Key ref) atom =>
                A ← get_atom atom; mret (<[get_position_key A := atom]> d)) atoms d w
    = Return d' w.
Proof.
  revert d. induction atoms as [| a atoms IH]; intros d Hres.
  - exists d. reflexivity.
  - apply Forall_cons in Hres as [[A HA] Hres].
    destruct (IH (<[get_position_key A := a]> d) Hres) as (d' & E).
    exists d'. simpl for_fold. rewrite bind_unfold, bind_unfold, (get_atom_eq a A w HA).
    unfold mret at 1, Run_ret at 1. exact E.
Qed.

Lemma atom_list_resolves (w : World) (c : Complex) :
  wf_heap w -> Forall (fun a => is_Some (atoms_of w !! a)) (atom_list w c).
Proof.
  intros Hwf. apply Forall_forall. intros a Ha. apply atom_list_elem in Ha.
  destruct (atom_in_object w c a Hwf Ha) as (A & _ & _ & E & _). eauto.
Qed.

End Driver.

(** * The claims of the specification *)

(** ** C1: the position key *)





(** ** C9: the indices of the new hydrogens *)

(** C9, as worded, fails on a record of exactly 84 characters that ends with
    [new]: the adapter returns its index, because the length it tests counts
    the line feed, while the line is not longer than 84 characters; and read
    with its line feed, the line does not end with [new]. *)
Lemma new_hydrogen_claim_fails :
  exists c w',
    call_Reduce "in.pdb" 2%positive true false (files_world (terminated new_record))
      = Return (Parsed c [0%nat]) w' /\
    fs w' !! "out.pdb"%string = Some (terminated new_record) /\
    PyStr.splitlines (terminated new_record) = [new_record] /\
    PyStr.readlines (terminated new_record) = [terminated new_record] /\
    spec_is_new new_record = false /\
    spec_is_new (terminated new_record) = false.
Proof.
  eexists _, _. split; [vm_compute; reflexivity |].
  repeat split; vm_compute; reflexivity.
Qed.

(** C9, amended: when the adapter returns a parsed complex, an index [i] is
    in its list exactly when line [i] of the output file, read with its line
    feed, is a text of at least 84 characters that ends with [new], followed
    by the line feed (so the line with its line feed is longer than 84); [i]
    counts all the lines of the file from zero. *)
Theorem new_hydrogens_are_marked_lines `{Host} (pdb_path : string) (output_pdb : ref)
    (flip histidines : bool) (w w' : World) (c : option Complex) (ids : list nat) :
  call_Reduce pdb_path output_pdb flip histidines w = Return (Parsed c ids) w' ->
  exists F text,
    files_of w !! output_pdb = Some F /\ fs w' !! name F = Some text /\
    forall i : nat,
      i ∈ ids <->
      exists pre, PyStr.readlines text !! i = Some (terminated (pre +:+ "new")) /\
                  (84 <= String.length (pre +:+ "new"))%nat.
Proof.
  intros E. apply call_Reduce_Parsed_inv in E as (F & text & HF & Htext & ->).
  exists F, text. split; [exact HF |]. split; [exact Htext |].
  intros i. rewrite scan_lines_index. split.
  - intros (line & Hl & Hn). apply is_new_line_spec in Hn as [Hlen [pre ->]].
    exists pre. split; [exact Hl |].
    unfold terminated in Hlen. rewrite string_length_app in Hlen. simpl in Hlen. lia.
  - intros (pre & Hl & Hlen). eexists. split; [exact Hl |].
    apply is_new_line_spec. split; [| eauto].
    unfold terminated. rewrite string_length_app. simpl. lia.
Qed.

Lemma new_hydrogens_are_marked_lines_witness :
  exists c ids w',
    call_Reduce "in.pdb" 2%positive true false
      (files_world (terminated old_record +:+ terminated new_record))
      = Return (Parsed c ids) w' /\
    exists F text,
      files_of (files_world (terminated old_record +:+ terminated new_record)) !! 2%positive
        = Some F /\
      fs w' !! name F = Some text /\
      forall i : nat,
        i ∈ ids <->
        exists pre, PyStr.readlines text !! i = Some (terminated (pre +:+ "new")) /\
                    (84 <= String.length (pre +:+ "new"))%nat.
Proof.
  eexists _, _, _. split; [vm_compute; reflexivity |].
  eapply (new_hydrogens_are_marked_lines (H := test_host) "in.pdb" 2%positive true false).
  vm_compute. reflexivity.
Defined.

(** ** C7: the output buffer across invocations *)

(** C7 fails on the code.  Two invocations in succession, each on its own
    open output file: the first prints [old_record], the second prints
    [second_record], and the file the second writes holds both records,
    whereas the same invocation from a state with an empty buffer writes only
    its own.  With the file object of the first invocation, closed by it, the
    second invocation raises on its first record. *)
Theorem second_run_writes_first_output :
  let w0 := files_world (terminated old_record) in
  let next (w : World) := with_fs <["in.pdb"%string := terminated second_record]> w in
  exists c1 ids1 w1 c2 ids2 w2,
    call_Reduce "in.pdb" 2%positive true false w0 = Return (Parsed c1 ids1) w1 /\
    call_Reduce "in.pdb" 3%positive true false (next w1) = Return (Parsed c2 ids2) w2 /\
    fs w2 !! "out2.pdb"%string
      = Some (terminated old_record +:+ terminated second_record) /\
    (exists c ids w,
        call_Reduce "in.pdb" 3%positive true false (next w0) = Return (Parsed c ids) w /\
        fs w !! "out2.pdb"%string = Some (terminated second_record)) /\
    (exists w, call_Reduce "in.pdb" 2%positive true false (next w1) = Raise ValueError w).
Proof.
  eexists _, _, _, _, _, _. split; [vm_compute; reflexivity |].
  split; [vm_compute; reflexivity |].
  split; [vm_compute; reflexivity |].
  split.
  - eexists _, _, _. split; vm_compute; reflexivity.
  - eexists. vm_compute. reflexivity.
Qed.

(** ** The concrete scene is a scene *)

Lemma demo_scene : scene demo_world demo_original demo_reparsed demo_index.
Proof.
  split; apply (bool_decide_unpack _); vm_compute; exact I.
Qed.

(** ** C2: the original complex is preserved *)

(** C2: in a well-formed store where the original and the reparsed complex
    share no residue and the index holds atoms of the original, the state
    [match_and_update] ends in (returned or raised) has every atom and bond
    the original complex had, unmodified; and a round of the loop that skips
    its hydrogen (no partner, partner too far, or orphan key) leaves the
    residues, atoms and bonds of the original complex exactly as they were. *)
Theorem original_is_preserved `{Host} (O Rc : Complex) (atom_by_position : gmap Key ref)
    (hydrogen_ids : list nat) (w : World) :
  scene w O Rc atom_by_position ->
  preserved O w (final_world (match_and_update atom_by_position Rc hydrogen_ids w)) /\
  forall (atoms : list ref) (id : nat) (h : ref) (w1 w2 : World) (m : Matched),
    scene w1 O Rc atom_by_position -> atoms !! id = Some h -> atom_in w1 Rc h ->
    match_and_update_body atom_by_position Rc atoms id w1 = Return m w2 ->
    skipped m -> untouched O w1 w2.
Proof.
  intros Hsc. split.
  - destruct (match_and_update_outcome O Rc atom_by_position hydrogen_ids w Hsc)
      as (w' & Hpres & [(_ & E) | (_ & E)]); rewrite E; exact Hpres.
  - intros atoms id h w1 w2 m Hsc1 Hid Hh Erun Hskip.
    destruct (round_summary O Rc atom_by_position atoms id w1 h Hsc1 Hid Hh)
      as (m' & w' & Erun' & _ & _ & _ & Hun).
    rewrite Erun in Erun'. injection Erun' as <- <-. exact (Hun Hskip).
Qed.

Lemma original_is_preserved_witness :
  scene demo_world demo_original demo_reparsed demo_index /\
  preserved demo_original demo_world
    (final_world (match_and_update demo_index demo_reparsed [1; 2; 3; 5]%nat demo_world)).
Proof.
  split; [exact demo_scene |].
  exact (proj1 (original_is_preserved demo_original demo_reparsed demo_index
                  [1; 2; 3; 5]%nat demo_world demo_scene)).
Defined.

(** ** C3: the inserted atom *)



(** ** C4: the inserted bond *)



(** ** C5: the partner search *)

(** C5, as worded, fails when the only candidate is 10000 or more away: the
    search starts from the distance 10000 and takes a candidate only if it is
    nearer, so it returns no atom although the candidate set is not empty. *)
Lemma partner_search_claim_fails : ~ spec_partner_search (H := test_host).
Proof.
  intros Hs.
  destruct (Hs demo_reparsed 1%positive far_world (demo_atom "H" 1 0 0 0 1%positive)
              1%positive (mkResidue [1%positive; 2%positive] []))
    as (b & Ab & minD & E & _).
  - reflexivity.
  - reflexivity.
  - reflexivity.
  - apply (bool_decide_unpack _). vm_compute. exact I.
  - exists 2%positive, (demo_atom "C" 2 10000 0 0 1%positive).
    split; [apply (bool_decide_unpack _); vm_compute; exact I |].
    split; [discriminate |]. split; [reflexivity | discriminate].
  - vm_compute in E. discriminate E.
Qed.

(** C5, amended: for the hydrogen at index [id], with its symbol set, the
    search returns the state unchanged and, among the atoms of its residue
    other than itself whose symbol is not H, a candidate of least distance if
    some candidate is nearer than 10000; if there is no candidate, or none
    nearer than 10000, it returns no partner, and the round then skips the
    hydrogen with a log entry. *)
Theorem partner_search_nearest `{Host} (atom_by_position : gmap Key ref)
    (result_complex : Complex) (atoms : list ref) (id : nat) (w : World)
    (h : ref) (Ah : Atom) (r : ref) (R : Residue) :
  atoms !! id = Some h -> atoms_of w !! h = Some Ah -> residue Ah = Some r ->
  residues_of w !! r = Some R ->
  Forall (fun a => is_Some (atoms_of w !! a)) (res_atoms R) ->
  let w1 := marked h Ah w in
  let dist_to := fun Ac : Atom => Vector3_distance (position Ac) (position Ah) in
  exists result minD,
    get_closest_heavy_atom_in_residue result_complex h w1 = Return (result, minD) w1 /\
    match result with
    | Some b =>
        exists Ab, b ∈ res_atoms R /\ heavy_candidate w1 h b Ab /\
          minD = dist_to Ab /\ (minD < 10000)%Q /\
          forall c Ac, c ∈ res_atoms R -> heavy_candidate w1 h c Ac ->
            (minD <= dist_to Ac)%Q
    | None =>
        (forall c Ac, c ∈ res_atoms R -> heavy_candidate w1 h c Ac ->
           (10000 <= dist_to Ac)%Q) /\
        match_and_update_body atom_by_position result_complex atoms id w
        = Return NoPartner (logged (log_no_partner id) w1)
    end.
Proof.
  intros Hid HAh Hr HR Hres w1 dist_to.
  assert (HA1 : atoms_of w1 !! h = Some (set_symbol "H" Ah))
    by (unfold w1, marked; wsimpl; apply lookup_insert_eq).
  assert (Hres1 : Forall (fun a => is_Some (atoms_of w1 !! a)) (res_atoms R)).
  { eapply Forall_impl; [exact Hres |]. intros a [A E]. unfold w1, marked. wsimpl.
    destruct (decide (a = h)) as [-> | Hne];
      [rewrite lookup_insert_eq | rewrite lookup_insert_ne by auto]; eauto. }
  destruct (get_closest_spec result_complex h w1 (set_symbol "H" Ah) r R HA1 Hr HR Hres1)
    as ([result minD] & Hsearch & Hmin & Hbest).
  exists result, minD. split; [exact Hsearch |].
  simpl in Hmin, Hbest. destruct result as [b |].
  - destruct Hbest as (Ab & Hin & Hc & Hm & Hlt). exists Ab. auto.
  - subst minD. split; [exact Hmin |].
    exact (body_no_partner atom_by_position result_complex atoms id w h Ah Hid HAh
             None 10000%Q Hsearch eq_refl).
Qed.

Lemma partner_search_nearest_witness :
  let atoms := atom_list demo_world demo_reparsed in
  let Ah := demo_atom "" 0 2 0 0 2%positive in
  let R := mkResidue [2%positive; 3%positive; 4%positive] [] in
  let w1 := marked 3%positive Ah demo_world in
  (atoms !! 1%nat = Some 3%positive /\ atoms_of demo_world !! 3%positive = Some Ah /\
   residue Ah = Some 2%positive /\ residues_of demo_world !! 2%positive = Some R /\
   Forall (fun a => is_Some (atoms_of demo_world !! a)) (res_atoms R)) /\
  exists result minD,
    get_closest_heavy_atom_in_residue demo_reparsed 3%positive w1 = Return (result, minD) w1 /\
    match result with
    | Some b =>
        exists Ab, b ∈ res_atoms R /\ heavy_candidate w1 3%positive b Ab /\
          minD = euclid (position Ab) (position Ah) /\ (minD < 10000)%Q /\
          forall c Ac, c ∈ res_atoms R -> heavy_candidate w1 3%positive c Ac ->
            (minD <= euclid (position Ac) (position Ah))%Q
    | None =>
        (forall c Ac, c ∈ res_atoms R -> heavy_candidate w1 3%positive c Ac ->
           (10000 <= euclid (position Ac) (position Ah))%Q) /\
        match_and_update_body demo_index demo_reparsed atoms 1 demo_world
        = Return NoPartner (logged (log_no_partner 1) w1)
    end.
Proof.
  intros atoms Ah R w1.
  assert (Hres : Forall (fun a => is_Some (atoms_of demo_world !! a)) (res_atoms R))
    by (apply (bool_decide_unpack _); vm_compute; exact I).
  split.
  - repeat split; try reflexivity. exact Hres.
  - exact (partner_search_nearest (H := test_host) demo_index demo_reparsed atoms 1
             demo_world 3%positive Ah 2%positive R eq_refl eq_refl eq_refl eq_refl Hres).
Defined.

(** ** C6: the distance threshold *)

(** C6: when the search returns a partner at a distance of at most 2.0, in
    particular exactly 2.0, the round does not skip for distance: it creates
    the bond from the hydrogen to the partner in the partner's residue and
    ends as an orphan skip or as a graft.  When the distance exceeds 2.0 the
    round returns, with the too-far entry logged and nothing else changed but
    the hydrogen's symbol, and the loop goes on with the remaining indices. *)
Theorem distance_threshold `{Host} (O Rc : Complex) (atom_by_position : gmap Key ref)
    (atoms : list ref) (id : nat) (h : ref) (w : World) :
  scene w O Rc atom_by_position -> atoms !! id = Some h -> atom_in w Rc h ->
  exists Ah rh b_opt d,
    atoms_of w !! h = Some Ah /\ residue Ah = Some rh /\
    get_closest_heavy_atom_in_residue Rc h (marked h Ah w)
      = Return (b_opt, d) (marked h Ah w) /\
    forall b, b_opt = Some b ->
      ((d <= 2)%Q ->
         exists m w',
           match_and_update_body atom_by_position Rc atoms id w = Return m w' /\
           (m = Orphan \/ exists na nb, m = Grafted na nb) /\
           bonds_of w' !! fresh (dom (bonds_of w))
             = Some (mkBond CovalentSingle (Some h) (Some b) (Some rh))) /\
      ((2 < d)%Q ->
         let w' := logged (log_too_far id) (marked h Ah w) in
         match_and_update_body atom_by_position Rc atoms id w = Return TooFar w' /\
         forall rest,
           for_each (round atom_by_position Rc atoms) (id :: rest) w
           = for_each (round atom_by_position Rc atoms) rest w').
Proof.
  intros Hsc Hid Hh.
  destruct (round_cases O Rc atom_by_position atoms id w h Hsc Hid Hh)
    as (Ah & rh & Rh & [result dist] & HAh & Hp & Hrh & HRh & Hin & Hsearch & _ & Hpost).
  exists Ah, rh, result, dist. repeat (split; [assumption |]).
  intros b ->.
  unfold round_post in Hpost. cbv zeta in Hpost. simpl fst in Hpost. simpl snd in Hpost.
  split.
  - intros Hle. assert (Hgt : Py_cmp.gt dist 2 = false) by (apply lt_false, Hle).
    rewrite Hgt in Hpost. destruct Hpost as (Ab & HAb & Hbh & Hbin & Hpost).
    destruct (atom_by_position !! get_position_key Ab) as [src |].
    + destruct Hpost as (As & rs & Rs & _ & _ & _ & _ & _ & Hrun).
      eexists _, _. split; [exact Hrun |]. split; [right; eauto |].
      unfold grafted. wsimpl. rewrite lookup_insert_ne.
      * unfold bonded. wsimpl. apply lookup_insert_eq.
      * intros E.
        pose proof (fresh_lookup_None
                      (bonds_of (bonded h b (fresh (dom (bonds_of w))) rh Rh (marked h Ah w))))
          as Hf.
        rewrite E in Hf. unfold bonded in Hf at 1. wsimpl_in Hf.
        rewrite lookup_insert_eq in Hf. discriminate Hf.
    + eexists _, _. split; [exact Hpost |]. split; [left; reflexivity |].
      unfold logged, bonded. wsimpl. apply lookup_insert_eq.
  - intros Hlt. assert (Hgt : Py_cmp.gt dist 2 = true) by (apply lt_true, Hlt).
    rewrite Hgt in Hpost. cbv zeta. split; [exact Hpost |].
    intros rest. simpl for_each. rewrite bind_unfold. unfold round at 1.
    rewrite bind_unfold, Hpost. reflexivity.
Qed.

Lemma distance_threshold_witness :
  let atoms := atom_list demo_world demo_reparsed in
  (scene demo_world demo_original demo_reparsed demo_index /\
   atoms !! 1%nat = Some 3%positive /\ atom_in demo_world demo_reparsed 3%positive) /\
  exists Ah rh b_opt d,
    atoms_of demo_world !! 3%positive = Some Ah /\ residue Ah = Some rh /\
    get_closest_heavy_atom_in_residue demo_reparsed 3%positive (marked 3%positive Ah demo_world)
      = Return (b_opt, d) (marked 3%positive Ah demo_world) /\
    forall b, b_opt = Some b ->
      ((d <= 2)%Q ->
         exists m w',
           match_and_update_body demo_index demo_reparsed atoms 1 demo_world = Return m w' /\
           (m = Orphan \/ exists na nb, m = Grafted na nb) /\
           bonds_of w' !! fresh (dom (bonds_of demo_world))
             = Some (mkBond CovalentSingle (Some 3%positive) (Some b) (Some rh))) /\
      ((2 < d)%Q ->
         let w' := logged (log_too_far 1) (marked 3%positive Ah demo_world) in
         match_and_update_body demo_index demo_reparsed atoms 1 demo_world = Return TooFar w' /\
         forall rest,
           for_each (round demo_index demo_reparsed atoms) (1%nat :: rest) demo_world
           = for_each (round demo_index demo_reparsed atoms) rest w').
Proof.
  intros atoms.
  assert (Hin : atom_in demo_world demo_reparsed 3%positive)
    by (apply (bool_decide_unpack _); vm_compute; exact I).
  split.
  - split; [exact demo_scene |]. split; [reflexivity | exact Hin].
  - exact (distance_threshold (H := test_host) demo_original demo_reparsed demo_index
             atoms 1 3%positive demo_world demo_scene eq_refl Hin).
Defined.

(** The partner of atom 3 in the concrete scene is at distance exactly 2,
    and the round grafts. *)
Example distance_exactly_two :
  exists w1 w',
    get_closest_heavy_atom_in_residue demo_reparsed 3%positive w1
      = Return (Some 2%positive, 2%Q) w1 /\
    match_and_update_body demo_index demo_reparsed (atom_list demo_world demo_reparsed)
      1 demo_world = Return (Grafted 8%positive 2%positive) w'.
Proof.
  exists (marked 3%positive (demo_atom "" 0 2 0 0 2%positive) demo_world).
  eexists. split; vm_compute; reflexivity.
Qed.

(** ** C10: indices out of range *)

(** C10: in a scene, [match_and_update] returns if every hydrogen index is
    less than the number of atoms of the reparsed complex, and raises
    [IndexError] if some index is equal to it or greater: the entry is not
    skipped. *)
Theorem index_in_range_or_error `{Host} (O Rc : Complex) (atom_by_position : gmap Key ref)
    (hydrogen_ids : list nat) (w : World) :
  scene w O Rc atom_by_position ->
  let n := length (atom_list w Rc) in
  (Forall (fun id => (id < n)%nat) hydrogen_ids ->
     exists w', match_and_update atom_by_position Rc hydrogen_ids w = Return tt w') /\
  (Exists (fun id => (n <= id)%nat) hydrogen_ids ->
     exists w', match_and_update atom_by_position Rc hydrogen_ids w = Raise IndexError w').
Proof.
  intros Hsc n.
  destruct (match_and_update_outcome O Rc atom_by_position hydrogen_ids w Hsc)
    as (w' & _ & Hcases).
  fold n in Hcases. split.
  - intros Hall. destruct Hcases as [(_ & E) | (Hex & _)]; [eauto |].
    exfalso. apply Exists_exists in Hex as (id & Hin & Hge).
    rewrite Forall_forall in Hall. specialize (Hall id Hin). lia.
  - intros Hex. destruct Hcases as [(Hall & _) | (_ & E)]; [| eauto].
    exfalso. apply Exists_exists in Hex as (id & Hin & Hge).
    rewrite Forall_forall in Hall. specialize (Hall id Hin). lia.
Qed.

Lemma index_in_range_or_error_witness :
  let n := length (atom_list demo_world demo_reparsed) in
  (scene demo_world demo_original demo_reparsed demo_index /\
   Forall (fun id => (id < n)%nat) [1; 2; 3; 5]%nat /\
   Exists (fun id => (n <= id)%nat) [1; 6]%nat) /\
  (exists w', match_and_update demo_index demo_reparsed [1; 2; 3; 5]%nat demo_world
              = Return tt w') /\
  (exists w', match_and_update demo_index demo_reparsed [1; 6]%nat demo_world
              = Raise IndexError w').
Proof.
  intros n.
  assert (Hall : Forall (fun id => (id < n)%nat) [1; 2; 3; 5]%nat)
    by (apply (bool_decide_unpack _); vm_compute; exact I).
  assert (Hex : Exists (fun id => (n <= id)%nat) [1; 6]%nat)
    by (apply (bool_decide_unpack _); vm_compute; exact I).
  split; [split; [exact demo_scene | split; [exact Hall | exact Hex]] |].
  split.
  - exact (proj1 (index_in_range_or_error (H := test_host) demo_original demo_reparsed
                    demo_index [1; 2; 3; 5]%nat demo_world demo_scene) Hall).
  - exact (proj2 (index_in_range_or_error (H := test_host) demo_original demo_reparsed
                    demo_index [1; 6]%nat demo_world demo_scene) Hex).
Defined.

(** ** C8: a failing engine *)

(** C8: when Reduce exits with a negative code on the file written for a
    complex, the adapter returns the failure result, which is no result of a
    run that parsed its output, with or without hydrogens; the driver's round
    for that complex returns with one error notification added and the atoms,
    bonds and residues of the store as they were; and the batch goes on with
    the complexes that follow. *)
Theorem engine_failure_is_contained `{Host} (self : Plugin) (complex : Complex)
    (w : World) (Fin : FileObj) :
  files_of w !! input_file self = Some Fin -> wf_heap w -> wf_complex w complex ->
  let w1 := with_fs <[name Fin := pdb_of_complex w complex]> w in
  (exit_code (reduce_run (name Fin) (reduce_flip self) (reduce_HIS self) w1) < 0)%Z ->
  (exists w2,
     call_Reduce (name Fin) (output_file self) (reduce_flip self) (reduce_HIS self) w1
     = Return Failure w2) /\
  (forall c ids, Failure <> Parsed c ids) /\
  exists w',
    add_hydrogens_body self complex w = Return tt w' /\
    notifications w'
    = notifications w ++ [NotifyError "Error computing hydrogens, reduce failed"] /\
    atoms_of w' = atoms_of w /\ bonds_of w' = bonds_of w /\
    residues_of w' = residues_of w /\
    forall rest,
      for_each (add_hydrogens_body self) (complex :: rest) w
      = for_each (add_hydrogens_body self) rest w'.
Proof.
  intros HFin Hwf Hc w1 Hexit.
  pose proof (call_Reduce_unfold (name Fin) (output_file self) (reduce_flip self)
                (reduce_HIS self) w1) as Hcall.
  cbv zeta in Hcall.
  apply Z.ltb_lt in Hexit. rewrite Hexit in Hcall.
  split; [eauto |]. split; [discriminate |].
  destruct (index_fold w1 (atom_list w1 complex) ∅ (atom_list_resolves w complex Hwf))
    as (d & Eindex).
  assert (Ebody : add_hydrogens_body self complex w =
                  Return tt
                    (with_notifications
                       (fun ns => ns ++ [NotifyError "Error computing hydrogens, reduce failed"])
                       (with_logs
                          (fun ls => ls ++ [mkLog LError "Reduce returned an error"
                             [AInt (exit_code (reduce_run (name Fin) (reduce_flip self)
                                                 (reduce_HIS self) w1))]])
                          (after_process
                             (reduce_run (name Fin) (reduce_flip self) (reduce_HIS self) w1)
                             (started (name Fin) (reduce_flip self) (reduce_HIS self) w1))))).
  { unfold add_hydrogens_body.
    rewrite bind_unfold. unfold get_file at 1.
    rewrite (from_store_Return files_of _ _ _ HFin).
    rewrite bind_unfold. unfold Complex_to_pdb at 1. fold w1.
    rewrite bind_unfold, (Complex_atoms_spec w1 complex) by exact Hc.
    rewrite bind_unfold, Eindex.
    rewrite bind_unfold, Hcall. reflexivity. }
  eexists. split; [exact Ebody |].
  split; [reflexivity |]. split; [reflexivity |]. split; [reflexivity |].
  split; [reflexivity |].
  intros rest. simpl for_each. rewrite bind_unfold, Ebody. reflexivity.
Qed.

Lemma engine_failure_is_contained_witness :
  let Fin := mkFileObj "in.pdb" false in
  let w1 := with_fs <[name Fin := pdb_of_complex demo_files_world empty_complex]>
              demo_files_world in
  (files_of demo_files_world !! input_file demo_plugin = Some Fin /\
   wf_heap demo_files_world /\ wf_complex demo_files_world empty_complex /\
   (exit_code (reduce_run (name Fin) (reduce_flip demo_plugin) (reduce_HIS demo_plugin) w1)
    < 0)%Z) /\
  exists w',
    add_hydrogens_body demo_plugin empty_complex demo_files_world = Return tt w' /\
    notifications w' = [NotifyError "Error computing hydrogens, reduce failed"] /\
    atoms_of w' = atoms_of demo_files_world /\
    forall rest,
      for_each (add_hydrogens_body demo_plugin) (empty_complex :: rest) demo_files_world
      = for_each (add_hydrogens_body demo_plugin) rest w'.
Proof.
  intros Fin w1.
  assert (Hwf : wf_heap demo_files_world)
    by (apply (bool_decide_unpack _); vm_compute; exact I).
  assert (Hc : wf_complex demo_files_world empty_complex) by constructor.
  assert (Hexit : (exit_code (reduce_run (name Fin) (reduce_flip demo_plugin)
                                (reduce_HIS demo_plugin) w1) < 0)%Z)
    by (vm_compute; reflexivity).
  split; [split; [reflexivity | split; [exact Hwf | split; [exact Hc | exact Hexit]]] |].
  destruct (engine_failure_is_contained (H := test_host) demo_plugin empty_complex
              demo_files_world Fin eq_refl Hwf Hc Hexit)
    as (_ & _ & w' & Ebody & Hn & Ha & _ & _ & Hrest).
  exists w'. split; [exact Ebody |]. split; [exact Hn |]. split; [exact Ha | exact Hrest].
Defined.

(** * Further properties of the code *)

(** ** The position key: order and symmetry *)

Section KeyOrder.

Lemma round_half_even_nearest (q : Q) : nearest_even q (Py.round_half_even q).
Proof.
  destruct (Qfloor_bounds q) as [Fl Fu].
  unfold Py.round_half_even, nearest_even.
  destruct (q - inject_Z (Qfloor q) ?= 1 # 2)%Q eqn:E; qcompare_props;
    [destruct (Z.even (Qfloor q)) eqn:Ev | |];
    rewrite ?inject_Z_plus in *; change (inject_Z 1) with 1%Q in *.
  - repeat split; try lra. intros _. exact Ev.
  - repeat split; try lra. intros _. rewrite Z.even_add, Ev. reflexivity.
  - repeat split; lra.
  - repeat split; lra.
Qed.

Lemma nearest_even_unique (q : Q) (k1 k2 : Z) :
  nearest_even q k1 -> nearest_even q k2 -> k1 = k2.
Proof.
  intros (L1 & U1 & T1) (L2 & U2 & T2).
  assert (H1 : (inject_Z k1 <= inject_Z k2 + 1)%Q) by lra.
  assert (H2 : (inject_Z k2 <= inject_Z k1 + 1)%Q) by lra.
  change 1%Q with (inject_Z 1) in H1, H2.
  rewrite <- inject_Z_plus in H1, H2. rewrite <- Zle_Qle in H1, H2.
  destruct (Z.eq_dec k1 k2) as [E | Hne]; [exact E |]. exfalso.
  assert (Hc : k2 = k1 + 1 \/ k1 = k2 + 1) by lia.
  destruct Hc as [-> | ->]; rewrite inject_Z_plus in *;
    change (inject_Z 1) with 1%Q in *.
  - assert (Ev1 : Z.even k1 = true) by (apply T1; right; lra).
    assert (Ev2 : Z.even (k1 + 1) = true) by (apply T2; left; lra).
    rewrite Z.even_add, Ev1 in Ev2. discriminate Ev2.
  - assert (Ev2 : Z.even k2 = true) by (apply T2; right; lra).
    assert (Ev1 : Z.even (k2 + 1) = true) by (apply T1; left; lra).
    rewrite Z.even_add, Ev2 in Ev1. discriminate Ev1.
Qed.

Lemma round_half_even_opp (q : Q) :
  Py.round_half_even (- q) = - Py.round_half_even q.
Proof.
  apply (nearest_even_unique (- q)); [apply round_half_even_nearest |].
  destruct (round_half_even_nearest q) as (L & U & T).
  unfold nearest_even. rewrite inject_Z_opp. repeat split; try lra.
  intros Ht. rewrite Z.even_opp. apply T. destruct Ht as [Ht | Ht]; [right | left]; lra.
Qed.

Lemma round_half_even_Qeq (p q : Q) :
  (p == q)%Q -> Py.round_half_even p = Py.round_half_even q.
Proof.
  intros E. apply (nearest_even_unique q); [| apply round_half_even_nearest].
  destruct (round_half_even_nearest p) as (L & U & T).
  unfold nearest_even. rewrite <- E. auto.
Qed.

Lemma key_coord_mono (x y : Q) : (x <= y)%Q -> key_coord x <= key_coord y.
Proof.
  intros Hle. rewrite !key_coord_eq. apply Z.quot_le_mono; [lia |].
  apply round_half_even_mono. lra.
Qed.

Lemma key_coord_opp (x : Q) : key_coord (- x) = - key_coord x.
Proof.
  rewrite !key_coord_eq.
  rewrite (round_half_even_Qeq (- x * 10000) (- (x * 10000))) by ring.
  rewrite round_half_even_opp. apply Z.quot_opp_l. lia.
Qed.

(** The cell of key 0 reaches to both sides of zero. *)
Lemma key_coord_zero_cell (x : Q) :
  (Qabs x < 399 # 20000)%Q -> key_coord x = 0.
Proof.
  intros Hx. apply Qabs_Qlt_condition in Hx as [Hlo Hhi].
  rewrite key_coord_eq.
  destruct (round_half_even_nearest (x * 10000)) as (L & U & _).
  assert (Hu : (inject_Z (Py.round_half_even (x * 10000)) < inject_Z 200)%Q)
    by (change (inject_Z 200) with 200%Q; lra).
  assert (Hl : (inject_Z (-200) < inject_Z (Py.round_half_even (x * 10000)))%Q)
    by (change (inject_Z (-200)) with (-200)%Q; lra).
  rewrite <- Zlt_Qlt in Hu, Hl.
  Z.to_euclidean_division_equations. lia.
Qed.

Lemma key_coord_nonzero (x : Q) : (1 # 50 <= Qabs x)%Q -> key_coord x <> 0.
Proof.
  intros Hx. rewrite key_coord_eq.
  destruct (Qlt_le_dec x 0) as [Hneg | Hpos].
  - rewrite Qabs_neg in Hx by lra.
    assert (Hu : Py.round_half_even (x * 10000) <= -200).
    { change (-200) with (Py.round_half_even (- 200)).
      apply round_half_even_mono. lra. }
    Z.to_euclidean_division_equations. lia.
  - rewrite Qabs_pos in Hx by lra.
    assert (Hl : 200 <= Py.round_half_even (x * 10000)).
    { change 200 with (Py.round_half_even 200).
      apply round_half_even_mono. lra. }
    Z.to_euclidean_division_equations. lia.
Qed.

End KeyOrder.

(** ** The indices of the scan *)

Section ScanOrder.

Lemma scan_lines_app (lines : list string) (id : nat) (acc : list nat) :
  scan_lines lines id acc = acc ++ scan_lines lines id [].
Proof.
  revert id acc. induction lines as [| l lines IH]; intros id acc; simpl.
  - now rewrite app_nil_r.
  - destruct (is_new_line l).
    + rewrite IH, (IH (id + 1)%nat [id]). now rewrite <- app_assoc.
    + reflexivity || apply IH.
Qed.

Lemma scan_lines_sorted (lines : list string) (id : nat) :
  StronglySorted lt (scan_lines lines id []) /\
  Forall (fun i => (id <= i < id + length lines)%nat) (scan_lines lines id []).
Proof.
  revert id. induction lines as [| l lines IH]; intros id; simpl.
  - split; constructor.
  - destruct (IH (id + 1)%nat) as [Hs Hb].
    rewrite scan_lines_app.
    assert (Hb' : Forall (fun i => (id <= i < id + S (length lines))%nat)
                    (scan_lines lines (id + 1) [])).
    { eapply Forall_impl; [exact Hb |]. simpl. intros i Hi. lia. }
    destruct (is_new_line l); simpl.
    + split.
      * constructor; [exact Hs |].
        eapply Forall_impl; [exact Hb |]. simpl. intros i Hi. lia.
      * constructor; [lia | exact Hb'].
    + split; [exact Hs | exact Hb'].
Qed.

End ScanOrder.

(** ** Lines through the file *)

Section FileLines.

Lemma LF_boundary : PyStr.is_boundary PyStr.LF = true.
Proof. reflexivity. Qed.

Lemma break_free_app (a b : string) :
  break_free (a +:+ b) = break_free a && break_free b.
Proof.
  induction a as [| c a IH]; [reflexivity |].
  rewrite append_cons. simpl. rewrite IH. now rewrite andb_assoc.
Qed.

(** [splitlines] yields lines without breaks. *)
Lemma splitlines_from_break_free (n : nat) (s cur : string) :
  (String.length s <= n)%nat -> break_free cur = true ->
  Forall (fun l => break_free l = true) (PyStr.splitlines_from cur s).
Proof.
  revert s cur. induction n as [| n IH]; intros s cur Hn Hcur.
  - destruct s; [| simpl in Hn; lia]. simpl.
    destruct (String.eqb cur ""); constructor; [exact Hcur | constructor].
  - destruct s as [| c rest].
    + simpl. destruct (String.eqb cur ""); constructor; [exact Hcur | constructor].
    + simpl in Hn. simpl PyStr.splitlines_from.
      destruct (Ascii.eqb c PyStr.CR) eqn:Ecr.
      * destruct rest as [| c' rest'].
        -- constructor; [exact Hcur | constructor].
        -- simpl in Hn. destruct (Ascii.eqb c' PyStr.LF).
           ++ constructor; [exact Hcur |]. apply IH; [lia | reflexivity].
           ++ constructor; [exact Hcur |]. apply IH; [simpl; lia | reflexivity].
      * destruct (PyStr.is_boundary c) eqn:Eb.
        -- constructor; [exact Hcur |]. apply IH; [lia | reflexivity].
        -- apply IH; [lia |]. rewrite break_free_app, Hcur. simpl.
           rewrite Ecr, Eb. reflexivity.
Qed.

Lemma splitlines_break_free (s : string) :
  Forall (fun l => break_free l = true) (PyStr.splitlines s).
Proof. apply (splitlines_from_break_free (String.length s)); [lia | reflexivity]. Qed.

(** Reading back a line without breaks that was written with a line feed. *)
Lemma readlines_from_terminated (l cur rest : string) :
  break_free l = true ->
  PyStr.readlines_from cur (terminated l +:+ rest)
  = terminated (cur +:+ l) :: PyStr.readlines_from "" rest.
Proof.
  revert cur. induction l as [| c l IH]; intros cur Hl.
  - unfold terminated. rewrite string_app_empty_r. reflexivity.
  - simpl in Hl. apply andb_true_iff in Hl as [Hc Hl].
    apply andb_true_iff in Hc as [Hcr Hb].
    apply negb_true_iff in Hcr, Hb.
    assert (Hlf : Ascii.eqb c PyStr.LF = false).
    { destruct (Ascii.eqb c PyStr.LF) eqn:E; [| reflexivity].
      apply Ascii.eqb_eq in E. subst c. rewrite LF_boundary in Hb. discriminate Hb. }
    unfold terminated in *. rewrite !append_cons. simpl PyStr.readlines_from.
    rewrite Hcr, Hlf. rewrite (IH _ Hl). f_equal. f_equal.
    rewrite string_app_assoc. reflexivity.
Qed.

Lemma readlines_written (ls : list string) :
  Forall (fun l => break_free l = true) ls ->
  PyStr.readlines (String.concat "" (map terminated ls)) = map terminated ls.
Proof.
  unfold PyStr.readlines. induction ls as [| l ls IH]; intros Hls; [reflexivity |].
  apply Forall_cons in Hls as [Hl Hls]. simpl map. rewrite concat_empty_cons.
  rewrite (readlines_from_terminated l "" _ Hl). now rewrite (IH Hls).
Qed.

Lemma filter_break_free (f : string -> bool) (ls : list string) :
  Forall (fun l => break_free l = true) ls ->
  Forall (fun l => break_free l = true) (List.filter f ls).
Proof.
  intros Hls. apply Forall_forall. intros l Hin.
  apply list_elem_of_In, filter_In in Hin as [Hin _].
  rewrite Forall_forall in Hls. apply Hls, list_elem_of_In, Hin.
Qed.

End FileLines.

(** ** The adapter, path by path *)

Section AdapterPaths.
Context `{Host}.
Variables (pdb_path : string) (output_pdb : ref) (flip histidines : bool) (w : World).

Let r := reduce_run pdb_path flip histidines w.
Let w1 := after_process r (started pdb_path flip histidines w).

(** The failure path touches neither files nor the molecular store; it
    keeps what the process printed in the buffer. *)
Lemma call_Reduce_failure_state :
  (exit_code r < 0)%Z ->
  exists w',
    call_Reduce pdb_path output_pdb flip histidines w = Return Failure w' /\
    fs w' = fs w /\ files_of w' = files_of w /\
    atoms_of w' = atoms_of w /\ bonds_of w' = bonds_of w /\
    residues_of w' = residues_of w /\ notifications w' = notifications w /\
    current_output w' = current_output w +:+ printed r.
Proof.
  intros Hexit. pose proof (call_Reduce_unfold pdb_path output_pdb flip histidines w) as E.
  cbv zeta in E. fold r in E. apply Z.ltb_lt in Hexit. rewrite Hexit in E.
  eexists. split; [exact E |]. repeat split.
Qed.

(** The success path on an open output file whose content is [old]. *)
Lemma call_Reduce_success_state (F : FileObj) (old : string) :
  parser_keeps_files ->
  ~ (exit_code r < 0)%Z ->
  files_of w !! output_pdb = Some F -> closed F = false ->
  fs w !! name F = Some old ->
  let text := old +:+ written (buffer_lines r w) in
  exists c w',
    call_Reduce pdb_path output_pdb flip histidines w
    = Return (Parsed c (scan_lines (PyStr.readlines text) 0 [])) w' /\
    fs w' !! name F = Some text /\
    files_of w' !! output_pdb = Some (mkFileObj (name F) true).
Proof.
  intros Hparser Hexit HF Hopen Hold text.
  pose proof (call_Reduce_unfold pdb_path output_pdb flip histidines w) as E.
  cbv zeta in E. fold r in E. fold w1 in E.
  apply Z.ltb_nlt in Hexit. rewrite Hexit in E.
  fold (write_structural output_pdb) in E.
  assert (Hbuf : PyStr.splitlines (current_output w1) = buffer_lines r w) by reflexivity.
  rewrite Hbuf in E.
  rewrite bind_unfold in E.
  rewrite (write_loop_open output_pdb F (buffer_lines r w) old w1 HF Hopen Hold) in E.
  fold text in E.
  set (w2 := with_fs <[name F := text]> w1) in E.
  rewrite bind_unfold in E. unfold File_close in E at 1.
  rewrite bind_unfold in E. unfold get_file in E at 1.
  rewrite (from_store_Return files_of output_pdb w2 F HF) in E.
  unfold modify in E at 1.
  set (w3 := with_files <[output_pdb := mkFileObj (name F) true]> w2) in E.
  rewrite bind_unfold in E. unfold get_file in E at 1.
  rewrite (from_store_Return files_of output_pdb w3 (mkFileObj (name F) true)) in E
    by (unfold w3; wsimpl; apply lookup_insert_eq).
  simpl name in E.
  assert (Hread3 : read_text (name F) w3 = Return text w3).
  { unfold read_text, w3, w2. wsimpl. now rewrite lookup_insert_eq. }
  rewrite bind_unfold in E. unfold Complex_from_pdb in E at 1.
  rewrite bind_unfold, Hread3 in E. unfold state in E at 1.
  destruct (complex_of_pdb text w3) as [c w4] eqn:Eparse.
  destruct (Hparser text w3) as [Hfs Hfiles]. rewrite Eparse in Hfs, Hfiles.
  simpl in Hfs, Hfiles.
  assert (Hfs4 : fs w4 !! name F = Some text).
  { rewrite Hfs. unfold w3, w2. wsimpl. apply lookup_insert_eq. }
  rewrite bind_unfold in E. unfold read_text in E at 1. rewrite Hfs4 in E.
  exists c, w4. split; [exact E |]. split; [exact Hfs4 |].
  rewrite Hfiles. unfold w3. wsimpl. apply lookup_insert_eq.
Qed.

(** A closed output file object refuses the first record. *)
Lemma call_Reduce_closed_state (F : FileObj) :
  ~ (exit_code r < 0)%Z ->
  files_of w !! output_pdb = Some F -> closed F = true ->
  kept_records r w <> [] ->
  call_Reduce pdb_path output_pdb flip histidines w = Raise ValueError w1.
Proof.
  intros Hexit HF Hclosed Hkept.
  pose proof (call_Reduce_unfold pdb_path output_pdb flip histidines w) as E.
  cbv zeta in E. fold r in E. fold w1 in E.
  apply Z.ltb_nlt in Hexit. rewrite Hexit in E.
  fold (write_structural output_pdb) in E.
  assert (Hbuf : PyStr.splitlines (current_output w1) = buffer_lines r w) by reflexivity.
  rewrite Hbuf in E. rewrite bind_unfold in E.
  rewrite (write_loop_closed output_pdb F (buffer_lines r w) w1 HF Hclosed Hkept) in E.
  exact E.
Qed.

End AdapterPaths.

Lemma terminated_inj (l l' : string) : terminated l = terminated l' -> l = l'.
Proof.
  unfold terminated. revert l'. induction l as [| c l IH]; intros [| c' l'] E.
  - reflexivity.
  - rewrite append_cons in E. simpl in E. injection E as _ E.
    destruct l'; discriminate E.
  - rewrite append_cons in E. simpl in E. injection E as _ E.
    destruct l; discriminate E.
  - rewrite !append_cons in E. injection E as -> E. f_equal. apply IH, E.
Qed.

Lemma test_host_parser_keeps_files : parser_keeps_files (H := test_host).
Proof. intros text w. split; reflexivity. Qed.

Lemma Qabs_sub_0 (x : Q) : (Qabs (x - 0) == Qabs x)%Q.
Proof. apply Qabs_wd. ring. Qed.

(** ** The position key: statements *)






(** ** The adapter: statements *)

(** X4: the indices the adapter returns are strictly increasing, so none is
    repeated, and each is less than the number of lines of the output
    file. *)
Theorem new_hydrogens_increasing `{Host} (pdb_path : string) (output_pdb : ref)
    (flip histidines : bool) (w w' : World) (c : option Complex) (ids : list nat) :
  call_Reduce pdb_path output_pdb flip histidines w = Return (Parsed c ids) w' ->
  StronglySorted lt ids /\
  exists F text,
    files_of w !! output_pdb = Some F /\ fs w' !! name F = Some text /\
    Forall (fun i => (i < length (PyStr.readlines text))%nat) ids.
Proof.
  intros E. apply call_Reduce_Parsed_inv in E as (F & text & HF & Htext & ->).
  destruct (scan_lines_sorted (PyStr.readlines text) 0) as [Hs Hb].
  split; [exact Hs |]. exists F, text. split; [exact HF |]. split; [exact Htext |].
  eapply Forall_impl; [exact Hb |]. simpl. intros i Hi. lia.
Qed.

Lemma new_hydrogens_increasing_witness :
  let w0 := files_world (terminated new_record +:+ terminated old_record
                         +:+ terminated new_record) in
  exists c ids w',
    call_Reduce "in.pdb" 2%positive true false w0 = Return (Parsed c ids) w' /\
    StronglySorted lt ids /\
    exists F text,
      files_of w0 !! 2%positive = Some F /\ fs w' !! name F = Some text /\
      Forall (fun i => (i < length (PyStr.readlines text))%nat) ids.
Proof.
  intros w0. eexists _, _, _. split; [vm_compute; reflexivity |].
  eapply (new_hydrogens_increasing (H := test_host) "in.pdb" 2%positive true false).
  vm_compute. reflexivity.
Defined.

(** X5: when Reduce exits with a negative code, the adapter writes no file,
    leaves the output file object as it is, changes no atom, bond or residue
    and sends no notification, but keeps everything the process printed in
    the buffer. *)
Theorem failed_run_keeps_files `{Host} (pdb_path : string) (output_pdb : ref)
    (flip histidines : bool) (w : World) :
  let r := reduce_run pdb_path flip histidines w in
  (exit_code r < 0)%Z ->
  exists w',
    call_Reduce pdb_path output_pdb flip histidines w = Return Failure w' /\
    fs w' = fs w /\ files_of w' = files_of w /\
    atoms_of w' = atoms_of w /\ bonds_of w' = bonds_of w /\
    residues_of w' = residues_of w /\ notifications w' = notifications w /\
    current_output w' = current_output w +:+ printed r.
Proof. intros r. apply call_Reduce_failure_state. Qed.

Lemma failed_run_keeps_files_witness :
  let w0 := files_world "" in
  (exit_code (reduce_run "in.pdb" true false w0) < 0)%Z /\
  exists w',
    call_Reduce "in.pdb" 2%positive true false w0 = Return Failure w' /\
    fs w' = fs w0 /\ files_of w' = files_of w0.
Proof.
  intros w0.
  assert (Hexit : (exit_code (reduce_run "in.pdb" true false w0) < 0)%Z)
    by (vm_compute; reflexivity).
  split; [exact Hexit |].
  destruct (failed_run_keeps_files (H := test_host) "in.pdb" 2%positive true false w0 Hexit)
    as (w' & E & Hfs & Hfiles & _).
  exists w'. auto.
Defined.



(** X7: on an open, empty output file, with a parser that touches no file,
    the lines of the file the adapter writes are the records it kept of the
    buffer, in order, each with a line feed; so an index is returned exactly
    when the kept record at that index, counted among the kept records only,
    has at least 84 characters and ends with [new]. *)
Theorem fresh_file_holds_kept_records `{Host} (pdb_path : string) (output_pdb : ref)
    (flip histidines : bool) (w : World) (F : FileObj) :
  let r := reduce_run pdb_path flip histidines w in
  parser_keeps_files ->
  ~ (exit_code r < 0)%Z ->
  files_of w !! output_pdb = Some F -> closed F = false ->
  fs w !! name F = Some ""%string ->
  exists c ids w' text,
    call_Reduce pdb_path output_pdb flip histidines w = Return (Parsed c ids) w' /\
    fs w' !! name F = Some text /\
    PyStr.readlines text = map terminated (kept_records r w) /\
    forall i : nat,
      i ∈ ids <->
      exists pre, kept_records r w !! i = Some (pre +:+ "new") /\
                  (84 <= String.length (pre +:+ "new"))%nat.
Proof.
  intros r Hparser Hexit HF Hopen Hempty.
  destruct (call_Reduce_success_state pdb_path output_pdb flip histidines w F ""
              Hparser Hexit HF Hopen Hempty) as (c & w' & E & Hfs & _).
  cbv zeta in E, Hfs. fold r in E, Hfs.
  change ("" +:+ written (buffer_lines r w))
    with (String.concat "" (map terminated (kept_records r w))) in E, Hfs.
  assert (Hread : PyStr.readlines (String.concat "" (map terminated (kept_records r w)))
                  = map terminated (kept_records r w)).
  { apply readlines_written, filter_break_free, splitlines_break_free. }
  rewrite Hread in E.
  eexists c, _, w', _. split; [exact E |]. split; [exact Hfs |]. split; [exact Hread |].
  intros i. rewrite scan_lines_index. split.
  - intros (line & Hl & Hn). rewrite list_lookup_fmap in Hl.
    destruct (kept_records r w !! i) as [l |] eqn:El; [| discriminate Hl].
    simpl in Hl. injection Hl as <-.
    apply is_new_line_spec in Hn as [Hlen [pre Hpre]].
    apply terminated_inj in Hpre. subst l. exists pre. split; [reflexivity |].
    unfold terminated in Hlen. rewrite string_length_app in Hlen. simpl in Hlen. lia.
  - intros (pre & Hl & Hlen). exists (terminated (pre +:+ "new")). split.
    + rewrite list_lookup_fmap, Hl. reflexivity.
    + apply is_new_line_spec. split; [| eauto].
      unfold terminated. rewrite string_length_app. simpl. lia.
Qed.

Lemma fresh_file_holds_kept_records_witness :
  let w0 := files_world ("REMARK reduce" +:+ String PyStr.LF "" +:+ terminated old_record
                         +:+ terminated new_record) in
  let F := mkFileObj "out.pdb" false in
  let r := reduce_run "in.pdb" true false w0 in
  (parser_keeps_files (H := test_host) /\ ~ (exit_code r < 0)%Z /\
   files_of w0 !! 2%positive = Some F /\ closed F = false /\
   fs w0 !! name F = Some ""%string) /\
  kept_records r w0 = [old_record; new_record] /\
  exists c ids w' text,
    call_Reduce "in.pdb" 2%positive true false w0 = Return (Parsed c ids) w' /\
    fs w' !! name F = Some text /\
    PyStr.readlines text = map terminated (kept_records r w0) /\
    forall i : nat,
      i ∈ ids <->
      exists pre, kept_records r w0 !! i = Some (pre +:+ "new") /\
                  (84 <= String.length (pre +:+ "new"))%nat.
Proof.
  intros w0 F r.
  assert (Hexit : ~ (exit_code r < 0)%Z) by (vm_compute; discriminate).
  split; [| split].
  - split; [exact test_host_parser_keeps_files |]. split; [exact Hexit |].
    repeat split; reflexivity.
  - vm_compute. reflexivity.
  - exact (fresh_file_holds_kept_records (H := test_host) "in.pdb" 2%positive true false
             w0 F test_host_parser_keeps_files Hexit eq_refl eq_refl eq_refl).
Defined.

(** X8: when Reduce exits with a code that is not negative but the output
    file object is already closed, and the buffer holds at least one record
    to keep, the adapter raises [ValueError] at the first record: nothing is
    written or parsed, while the buffer has already grown by what the process
    printed. *)
Theorem closed_file_raises `{Host} (pdb_path : string) (output_pdb : ref)
    (flip histidines : bool) (w : World) (F : FileObj) :
  let r := reduce_run pdb_path flip histidines w in
  ~ (exit_code r < 0)%Z ->
  files_of w !! output_pdb = Some F -> closed F = true ->
  kept_records r w <> [] ->
  exists w',
    call_Reduce pdb_path output_pdb flip histidines w = Raise ValueError w' /\
    fs w' = fs w /\ files_of w' = files_of w /\
    current_output w' = current_output w +:+ printed r.
Proof.
  intros r Hexit HF Hclosed Hkept. eexists. split.
  - exact (call_Reduce_closed_state pdb_path output_pdb flip histidines w F
             Hexit HF Hclosed Hkept).
  - repeat split.
Qed.

Lemma closed_file_raises_witness :
  let w0 := with_files <[2%positive := mkFileObj "out.pdb" true]>
              (files_world (terminated old_record)) in
  let F := mkFileObj "out.pdb" true in
  let r := reduce_run "in.pdb" true false w0 in
  (~ (exit_code r < 0)%Z /\ files_of w0 !! 2%positive = Some F /\ closed F = true /\
   kept_records r w0 <> []) /\
  exists w',
    call_Reduce "in.pdb" 2%positive true false w0 = Raise ValueError w' /\
    fs w' = fs w0 /\ files_of w' = files_of w0 /\
    current_output w' = current_output w0 +:+ printed r.
Proof.
  intros w0 F r.
  assert (Hexit : ~ (exit_code r < 0)%Z) by (vm_compute; discriminate).
  assert (Hkept : kept_records r w0 <> []) by (vm_compute; discriminate).
  split.
  - split; [exact Hexit |]. split; [reflexivity |]. split; [reflexivity | exact Hkept].
  - exact (closed_file_raises (H := test_host) "in.pdb" 2%positive true false w0 F
             Hexit eq_refl eq_refl Hkept).
Defined.

(** ** [add_bond]: statements *)

(** X9: [add_bond] on an atom [atom2] that has a residue returns a new bond
    object, single covalent, from [atom1] to [atom2], and appends it to the
    bond list of the residue of [atom2] (not of [atom1], which need not even
    have one); every other bond, every atom, the atom list of that residue
    and every other residue stay as they are. *)
Theorem add_bond_registers_on_second_atom `{Host} (atom1 atom2 : ref) (A2 : Atom)
    (r : ref) (R : Residue) (w : World) :
  atoms_of w !! atom2 = Some A2 -> residue A2 = Some r ->
  residues_of w !! r = Some R ->
  exists nb w',
    add_bond atom1 atom2 w = Return nb w' /\
    bonds_of w !! nb = None /\
    bonds_of w' !! nb = Some (mkBond CovalentSingle (Some atom1) (Some atom2) (Some r)) /\
    (forall b, b ≠ nb -> bonds_of w' !! b = bonds_of w !! b) /\
    atoms_of w' = atoms_of w /\
    residues_of w' !! r = Some (mkResidue (res_atoms R) (res_bonds R ++ [nb])) /\
    (forall r', r' ≠ r -> residues_of w' !! r' = residues_of w !! r').
Proof.
  intros HA Hr HR. eexists _, _. split; [exact (add_bond_eq atom1 atom2 A2 r R w HA Hr HR) |].
  split; [apply fresh_lookup_None |]. wsimpl.
  split; [apply lookup_insert_eq |].
  split; [intros b Hb; apply lookup_insert_ne; auto |].
  split; [reflexivity |].
  split; [apply lookup_insert_eq |].
  intros r' Hr'. apply lookup_insert_ne. auto.
Qed.

Lemma add_bond_registers_on_second_atom_witness :
  let A2 := demo_atom "N" 1 0 0 0 2%positive in
  let R := mkResidue [2%positive; 3%positive; 4%positive] [] in
  (atoms_of demo_world !! 2%positive = Some A2 /\ residue A2 = Some 2%positive /\
   residues_of demo_world !! 2%positive = Some R) /\
  exists nb w',
    add_bond 3%positive 2%positive demo_world = Return nb w' /\
    bonds_of demo_world !! nb = None /\
    bonds_of w' !! nb
    = Some (mkBond CovalentSingle (Some 3%positive) (Some 2%positive) (Some 2%positive)) /\
    (forall b, b ≠ nb -> bonds_of w' !! b = bonds_of demo_world !! b) /\
    atoms_of w' = atoms_of demo_world /\
    residues_of w' !! 2%positive = Some (mkResidue (res_atoms R) (res_bonds R ++ [nb])) /\
    (forall r', r' ≠ 2%positive -> residues_of w' !! r' = residues_of demo_world !! r').
Proof.
  intros A2 R. split; [repeat split; reflexivity |].
  exact (add_bond_registers_on_second_atom (H := test_host) 3%positive 2%positive A2
           2%positive R demo_world eq_refl eq_refl eq_refl).
Defined.

(** X10: [add_bond] on an atom [atom2] without a parent residue raises
    [AttributeError]; no residue and no existing bond is changed. *)
Theorem add_bond_without_residue `{Host} (atom1 atom2 : ref) (A2 : Atom) (w : World) :
  atoms_of w !! atom2 = Some A2 -> residue A2 = None ->
  exists w',
    add_bond atom1 atom2 w = Raise AttributeError w' /\
    residues_of w' = residues_of w /\ atoms_of w' = atoms_of w /\
    forall b B, bonds_of w !! b = Some B -> bonds_of w' !! b = Some B.
Proof.
  intros HA Hr. unfold add_bond, Bond_create.
  set (nb := fresh (dom (bonds_of w))).
  rewrite bind_unfold. unfold new_bond_object at 1. fold nb.
  rewrite bind_unfold, (update_bond_eq nb _ (mkBond KUnknown None None None))
    by (wsimpl; apply lookup_insert_eq).
  rewrite with_bonds_twice.
  rewrite bind_unfold, (update_bond_eq nb _ (mkBond CovalentSingle None None None))
    by (wsimpl; apply lookup_insert_eq).
  rewrite with_bonds_twice.
  rewrite bind_unfold, (update_bond_eq nb _ (mkBond CovalentSingle (Some atom1) None None))
    by (wsimpl; apply lookup_insert_eq).
  rewrite with_bonds_twice.
  rewrite bind_unfold, (get_atom_eq atom2 A2) by exact HA.
  rewrite Hr. simpl deref. rewrite bind_unfold.
  eexists. split; [reflexivity |]. wsimpl.
  split; [reflexivity |]. split; [reflexivity |].
  intros b B Hb. rewrite lookup_insert_ne; [exact Hb |].
  intros E. subst b. unfold nb in Hb. rewrite fresh_lookup_None in Hb. discriminate Hb.
Qed.

Lemma add_bond_without_residue_witness :
  let A2 := mkAtom "C" 2 "C" (mkVector3 1 0 0) 0 false false 0 0 None in
  (atoms_of stray_world !! 2%positive = Some A2 /\ residue A2 = None) /\
  exists w',
    add_bond 1%positive 2%positive stray_world = Raise AttributeError w' /\
    residues_of w' = residues_of stray_world /\ atoms_of w' = atoms_of stray_world /\
    forall b B, bonds_of stray_world !! b = Some B -> bonds_of w' !! b = Some B.
Proof.
  intros A2. split; [split; reflexivity |].
  exact (add_bond_without_residue (H := test_host) 1%positive 2%positive A2 stray_world
           eq_refl eq_refl).
Defined.

(** ** The driver's index *)

Section Index.

Lemma index_loop_fold (w : World) (atoms : list ref) (d : gmap Key ref) :
  Forall (fun a => is_Some (atoms_of w !! a)) atoms ->
  for_fold (fun (d : gmap Key ref) atom =>
              A ← get_atom atom; mret (<[get_position_key A := atom]> d)) atoms d w
  = Return (fold_left (index_step w) atoms d) w.
Proof.
  revert d. induction atoms as [| a atoms IH]; intros d Hres; [reflexivity |].
  apply Forall_cons in Hres as [[A HA] Hres].
  simpl for_fold. rewrite bind_unfold, bind_unfold, (get_atom_eq a A w HA).
  unfold mret at 1, Run_ret at 1. rewrite (IH _ Hres).
  assert (Es : index_step w d a = <[get_position_key A := a]> d)
    by (unfold index_step; now rewrite HA).
  change (fold_left (index_step w) (a :: atoms) d)
    with (fold_left (index_step w) atoms (index_step w d a)).
  now rewrite Es.
Qed.

Lemma index_loop_spec (w : World) (atoms : list ref) :
  Forall (fun a => is_Some (atoms_of w !! a)) atoms ->
  index_loop atoms w = Return (build_index w atoms) w.
Proof. intros Hres. unfold index_loop. now rewrite index_loop_fold. Qed.

Lemma index_fold_keeps (w : World) (l : list ref) (d : gmap Key ref) (k : Key) :
  (forall b, b ∈ l -> key_of w b <> Some k) ->
  fold_left (index_step w) l d !! k = d !! k.
Proof.
  revert d. induction l as [| b l IH]; intros d Hl; [reflexivity |].
  simpl. rewrite IH by (intros c Hc; apply Hl; right; exact Hc).
  unfold index_step. assert (Hb := Hl b ltac:(left)). unfold key_of in Hb.
  destruct (atoms_of w !! b) as [B |]; [| reflexivity].
  apply lookup_insert_ne. intros E. apply Hb. simpl. now rewrite E.
Qed.

Lemma index_fold_values (w : World) (l : list ref) (d : gmap Key ref) (k : Key) (a : ref) :
  fold_left (index_step w) l d !! k = Some a ->
  d !! k = Some a \/ (a ∈ l /\ key_of w a = Some k).
Proof.
  revert d. induction l as [| b l IH]; intros d E; [left; exact E |].
  simpl in E. apply IH in E as [E | [Hin Hk]].
  - unfold index_step in E. destruct (atoms_of w !! b) as [B |] eqn:HB; [| auto].
    destruct (decide (get_position_key B = k)) as [<- | Hne].
    + rewrite lookup_insert_eq in E. injection E as <-. right.
      split; [left |]. unfold key_of. now rewrite HB.
    + rewrite lookup_insert_ne in E by exact Hne. auto.
  - right. split; [right; exact Hin | exact Hk].
Qed.

Lemma index_fold_last (w : World) (l1 l2 : list ref) (a : ref) (d : gmap Key ref) (k : Key) :
  key_of w a = Some k ->
  (forall b, b ∈ l2 -> key_of w b <> Some k) ->
  fold_left (index_step w) (l1 ++ a :: l2) d !! k = Some a.
Proof.
  intros Hk Hl2. rewrite fold_left_app. simpl.
  rewrite index_fold_keeps by exact Hl2.
  unfold index_step at 1. unfold key_of in Hk.
  destruct (atoms_of w !! a) as [A |]; [| discriminate Hk].
  simpl in Hk. injection Hk as <-. apply lookup_insert_eq.
Qed.

Lemma index_fold_covers (w : World) (l : list ref) (d : gmap Key ref) (k : Key) (a : ref) :
  a ∈ l -> key_of w a = Some k ->
  exists a', fold_left (index_step w) l d !! k = Some a' /\ a' ∈ l /\ key_of w a' = Some k.
Proof.
  revert d a. induction l as [| b l IH]; intros d a Hin Hk; [inversion Hin |].
  destruct (decide (Exists (fun c => key_of w c = Some k) l)) as [Hex | Hno].
  - apply Exists_exists in Hex as (c & Hc & Hkc).
    destruct (IH (index_step w d b) c Hc Hkc) as (a' & E & Hin' & Hk').
    exists a'. split; [exact E |]. split; [right; exact Hin' | exact Hk'].
  - assert (Hl : forall c, c ∈ l -> key_of w c <> Some k).
    { intros c Hc Hkc. apply Hno. apply Exists_exists. eauto. }
    apply elem_of_cons in Hin as [-> | Hin]; [| exfalso; exact (Hl a Hin Hk)].
    exists b. split; [| split; [left | exact Hk]].
    exact (index_fold_last w [] l b d k Hk Hl).
Qed.

End Index.

(** X11: the loop that fills the position index, run over the atoms of a
    complex in a well-formed store, returns a dictionary that holds atoms of
    that complex only; the key of every atom of the complex is in it, bound
    to an atom of the complex with that key; and of several atoms with one
    key the last in the complex's atom order is the one it keeps. *)
Theorem index_holds_last_atom_per_key (w : World) (c : Complex) :
  wf_heap w ->
  exists d,
    index_loop (atom_list w c) w = Return d w /\
    index_of w c d /\
    (forall a A, atom_in w c a -> atoms_of w !! a = Some A ->
       exists a' A', d !! get_position_key A = Some a' /\ atom_in w c a' /\
         atoms_of w !! a' = Some A' /\ get_position_key A' = get_position_key A) /\
    (forall l1 a l2 A,
       atom_list w c = l1 ++ a :: l2 -> atoms_of w !! a = Some A ->
       (forall b B, b ∈ l2 -> atoms_of w !! b = Some B ->
          get_position_key B <> get_position_key A) ->
       d !! get_position_key A = Some a).
Proof.
  intros Hwf. exists (build_index w (atom_list w c)).
  split; [apply index_loop_spec, atom_list_resolves, Hwf |].
  change (build_index w (atom_list w c))
    with (fold_left (index_step w) (atom_list w c) ∅).
  split; [| split].
  - intros k a Hk. simpl. apply index_fold_values in Hk as [Hk | [Hin _]].
    + rewrite lookup_empty in Hk. discriminate Hk.
    + apply atom_list_elem, Hin.
  - intros a A Hin HA. apply atom_list_elem in Hin.
    assert (Hk : key_of w a = Some (get_position_key A))
      by (unfold key_of; now rewrite HA).
    destruct (index_fold_covers w (atom_list w c) ∅ _ a Hin Hk) as (a' & E & Hin' & Hk').
    unfold key_of in Hk'. destruct (atoms_of w !! a') as [A' |] eqn:HA'; [| discriminate Hk'].
    simpl in Hk'. assert (Hk'' : get_position_key A' = get_position_key A) by congruence.
    exists a', A'. split; [exact E |]. split; [apply atom_list_elem, Hin' |].
    split; [first [reflexivity | exact HA'] | exact Hk''].
  - intros l1 a l2 A El HA Hl2. rewrite El. apply index_fold_last.
    + unfold key_of. now rewrite HA.
    + intros b Hb Hkb. unfold key_of in Hkb.
      destruct (atoms_of w !! b) as [B |] eqn:HB; [| discriminate Hkb].
      simpl in Hkb. assert (Hkb' : get_position_key B = get_position_key A) by congruence.
      exact (Hl2 b B Hb HB Hkb').
Qed.

Lemma index_holds_last_atom_per_key_witness :
  wf_heap twin_world /\
  exists d,
    index_loop (atom_list twin_world twin_complex) twin_world = Return d twin_world /\
    index_of twin_world twin_complex d /\
    d !! (0, 0, 0) = Some 2%positive.
Proof.
  assert (Hwf : wf_heap twin_world) by (apply (bool_decide_unpack _); vm_compute; exact I).
  split; [exact Hwf |].
  destruct (index_holds_last_atom_per_key twin_world twin_complex Hwf)
    as (d & E & Hi & _ & Hlast).
  exists d. split; [exact E |]. split; [exact Hi |].
  exact (Hlast [1%positive] 2%positive [3%positive]
           (demo_atom "C" 2 (1 # 100) 0 0 1%positive) eq_refl eq_refl
           ltac:(intros b B Hb HB; apply list_elem_of_singleton in Hb; subst b;
                 injection HB as <-; vm_compute; discriminate)).
Defined.

(** ** The driver: statements *)

(** The round of the driver, by the result of the adapter. *)
Lemma driver_round_unfold `{Host} (self : Plugin) (complex : Complex)
    (w : World) (Fin : FileObj) :
  files_of w !! input_file self = Some Fin -> wf_heap w -> wf_complex w complex ->
  let w1 := with_fs <[name Fin := pdb_of_complex w complex]> w in
  let atom_by_position := build_index w (atom_list w complex) in
  add_hydrogens_body self complex w =
    match call_Reduce (name Fin) (output_file self) (reduce_flip self)
            (reduce_HIS self) w1 with
    | Raise e w2 => Raise e w2
    | Return Failure w2 =>
        Return tt (with_notifications
                     (fun ns => ns ++ [NotifyError "Error computing hydrogens, reduce failed"])
                     w2)
    | Return (Parsed (Some result_complex) (id :: ids)) w2 =>
        match_and_update atom_by_position result_complex (id :: ids) w2
    | Return (Parsed _ _) w2 =>
        Return tt (logged (mkLog LError "Could not read the PDB generated by Reduce" []) w2)
    end.
Proof.
  intros HFin Hwf Hc w1 abp.
  unfold add_hydrogens_body.
  rewrite bind_unfold. unfold get_file at 1.
  rewrite (from_store_Return files_of _ _ _ HFin).
  rewrite bind_unfold. unfold Complex_to_pdb at 1. fold w1.
  assert (Hatoms : Complex_atoms complex w1 = Return (atom_list w complex) w1)
    by (apply (Complex_atoms_spec w1 complex); exact Hc).
  rewrite bind_unfold, Hatoms.
  rewrite bind_unfold.
  rewrite (index_loop_fold w1 (atom_list w complex) ∅ (atom_list_resolves w complex Hwf)).
  change (fold_left (index_step w1) (atom_list w complex) ∅) with abp.
  rewrite bind_unfold.
  destruct (call_Reduce (name Fin) (output_file self) (reduce_flip self)
              (reduce_HIS self) w1) as [[| [rc |] [| id ids]] w2 | e w2]; reflexivity.
Qed.

(** X12: one round of the driver, in a well-formed store: the complex is
    written to the input file first; the position index is the one of the
    store as it was before Reduce ran; then, by the result of the adapter, an
    exception passes through, a failure gives an error notification, a parsed
    complex with at least one hydrogen index is reconciled in the state the
    adapter left, and no parsed complex or no index gives an error log entry
    and nothing else. *)
Theorem driver_round_composition `{Host} (self : Plugin) (complex : Complex)
    (w : World) (Fin : FileObj) :
  files_of w !! input_file self = Some Fin -> wf_heap w -> wf_complex w complex ->
  let w1 := with_fs <[name Fin := pdb_of_complex w complex]> w in
  let atom_by_position := build_index w (atom_list w complex) in
  add_hydrogens_body self complex w =
    match call_Reduce (name Fin) (output_file self) (reduce_flip self)
            (reduce_HIS self) w1 with
    | Raise e w2 => Raise e w2
    | Return Failure w2 =>
        Return tt (with_notifications
                     (fun ns => ns ++ [NotifyError "Error computing hydrogens, reduce failed"])
                     w2)
    | Return (Parsed (Some result_complex) (id :: ids)) w2 =>
        match_and_update atom_by_position result_complex (id :: ids) w2
    | Return (Parsed _ _) w2 =>
        Return tt (logged (mkLog LError "Could not read the PDB generated by Reduce" []) w2)
    end.
Proof. apply driver_round_unfold. Qed.

Lemma driver_round_composition_witness :
  let Fin := mkFileObj "in.pdb" false in
  let w1 := with_fs <[name Fin := pdb_of_complex demo_files_world demo_original]>
              demo_files_world in
  (files_of demo_files_world !! input_file demo_plugin = Some Fin /\
   wf_heap demo_files_world /\ wf_complex demo_files_world demo_original) /\
  add_hydrogens_body demo_plugin demo_original demo_files_world =
    match call_Reduce (name Fin) (output_file demo_plugin) (reduce_flip demo_plugin)
            (reduce_HIS demo_plugin) w1 with
    | Raise e w2 => Raise e w2
    | Return Failure w2 =>
        Return tt (with_notifications
                     (fun ns => ns ++ [NotifyError "Error computing hydrogens, reduce failed"])
                     w2)
    | Return (Parsed (Some result_complex) (id :: ids)) w2 =>
        match_and_update (build_index demo_files_world
                            (atom_list demo_files_world demo_original))
          result_complex (id :: ids) w2
    | Return (Parsed _ _) w2 =>
        Return tt (logged (mkLog LError "Could not read the PDB generated by Reduce" []) w2)
    end.
Proof.
  intros Fin w1.
  assert (Hwf : wf_heap demo_files_world)
    by (apply (bool_decide_unpack _); vm_compute; exact I).
  assert (Hc : wf_complex demo_files_world demo_original)
    by (apply (bool_decide_unpack _); vm_compute; exact I).
  split; [split; [reflexivity | split; [exact Hwf | exact Hc]] |].
  exact (driver_round_composition (H := test_host) demo_plugin demo_original
           demo_files_world Fin eq_refl Hwf Hc).
Defined.

(** X13: when the plugin's output file object is already closed, Reduce
    exits with a code that is not negative and the buffer holds a record to
    keep, the driver's round raises [ValueError] and so does the loop over
    the batch: the complexes that follow are not processed, no notification
    is sent, and no atom, bond or residue is changed. *)
Theorem batch_stops_on_closed_file `{Host} (self : Plugin) (complex : Complex)
    (w : World) (Fin Fout : FileObj) :
  files_of w !! input_file self = Some Fin ->
  files_of w !! output_file self = Some Fout -> closed Fout = true ->
  wf_heap w -> wf_complex w complex ->
  let w1 := with_fs <[name Fin := pdb_of_complex w complex]> w in
  let r := reduce_run (name Fin) (reduce_flip self) (reduce_HIS self) w1 in
  ~ (exit_code r < 0)%Z -> kept_records r w1 <> [] ->
  exists w',
    add_hydrogens_body self complex w = Raise ValueError w' /\
    (forall rest, add_hydrogens self None (complex :: rest) w = Raise ValueError w') /\
    notifications w' = notifications w /\
    atoms_of w' = atoms_of w /\ bonds_of w' = bonds_of w /\
    residues_of w' = residues_of w.
Proof.
  intros HFin HFout Hclosed Hwf Hc w1 r Hexit Hkept.
  pose proof (driver_round_unfold self complex w Fin HFin Hwf Hc) as Ebody.
  cbv zeta in Ebody. fold w1 in Ebody.
  assert (HFout1 : files_of w1 !! output_file self = Some Fout) by exact HFout.
  rewrite (call_Reduce_closed_state (name Fin) (output_file self) (reduce_flip self)
             (reduce_HIS self) w1 Fout Hexit HFout1 Hclosed Hkept) in Ebody.
  eexists. split; [exact Ebody |]. split; [| repeat split].
  intros rest. unfold add_hydrogens. rewrite bind_unfold.
  simpl for_each. rewrite bind_unfold, Ebody. reflexivity.
Qed.

Lemma batch_stops_on_closed_file_witness :
  let w0 := with_files <[2%positive := mkFileObj "out.pdb" true]> demo_files_world in
  let Fin := mkFileObj "in.pdb" false in
  let Fout := mkFileObj "out.pdb" true in
  let w1 := with_fs <[name Fin := pdb_of_complex w0 demo_original]> w0 in
  let r := reduce_run (name Fin) (reduce_flip demo_plugin) (reduce_HIS demo_plugin) w1 in
  (files_of w0 !! input_file demo_plugin = Some Fin /\
   files_of w0 !! output_file demo_plugin = Some Fout /\ closed Fout = true /\
   wf_heap w0 /\ wf_complex w0 demo_original /\
   ~ (exit_code r < 0)%Z /\ kept_records r w1 <> []) /\
  exists w',
    add_hydrogens_body demo_plugin demo_original w0 = Raise ValueError w' /\
    (forall rest, add_hydrogens demo_plugin None (demo_original :: rest) w0
                  = Raise ValueError w') /\
    notifications w' = notifications w0 /\
    atoms_of w' = atoms_of w0 /\ bonds_of w' = bonds_of w0 /\
    residues_of w' = residues_of w0.
Proof.
  intros w0 Fin Fout w1 r.
  assert (Hwf : wf_heap w0) by (apply (bool_decide_unpack _); vm_compute; exact I).
  assert (Hc : wf_complex w0 demo_original)
    by (apply (bool_decide_unpack _); vm_compute; exact I).
  assert (Hexit : ~ (exit_code r < 0)%Z) by (vm_compute; discriminate).
  assert (Hkept : kept_records r w1 <> []) by (vm_compute; discriminate).
  split.
  - split; [reflexivity |]. split; [reflexivity |]. split; [reflexivity |].
    split; [exact Hwf |]. split; [exact Hc |]. split; [exact Hexit | exact Hkept].
  - exact (batch_stops_on_closed_file (H := test_host) demo_plugin demo_original w0
             Fin Fout eq_refl eq_refl eq_refl Hwf Hc Hexit Hkept).
Defined.

(** ** The rounds and the reparsed complex *)

Section ReparsedSide.
Context `{Host}.
Variables (O Rc : Complex) (atom_by_position : gmap Key ref).

Lemma renamed_at_most_refl (w : World) : renamed_at_most w w.
Proof. intros a A HA. eauto. Qed.

Lemma renamed_at_most_trans (w1 w2 w3 : World) :
  renamed_at_most w1 w2 -> renamed_at_most w2 w3 -> renamed_at_most w1 w3.
Proof.
  intros H12 H23 a A HA. destruct (H12 a A HA) as (A2 & HA2 & E2).
  destruct (H23 a A2 HA2) as (A3 & HA3 & E3). exists A3. split; [exact HA3 |].
  destruct E2 as [-> | ->], E3 as [-> | ->]; auto.
Qed.

(** What a round does on the reparsed side. *)
Lemma round_reparsed_effect (atoms : list ref) (id : nat) (w : World) (h : ref) :
  scene w O Rc atom_by_position -> atoms !! id = Some h -> atom_in w Rc h ->
  exists m w' Ah,
    match_and_update_body atom_by_position Rc atoms id w = Return m w' /\
    atoms_of w !! h = Some Ah /\
    atoms_of w' !! h = Some (set_symbol "H" Ah) /\
    (forall a, a ≠ h -> is_Some (atoms_of w !! a) -> atoms_of w' !! a = atoms_of w !! a) /\
    (forall r, r ∈ residues Rc -> atoms_at w' r = atoms_at w r) /\
    match m with
    | NoPartner | TooFar => bonds_of w' = bonds_of w /\ residues_of w' = residues_of w
    | Orphan =>
        exists b rb Rb,
          rb ∈ residues Rc /\ residues_of w !! rb = Some Rb /\ b ∈ res_atoms Rb /\
          bonds_of w' = <[fresh (dom (bonds_of w)) :=
                            mkBond CovalentSingle (Some h) (Some b) (Some rb)]> (bonds_of w) /\
          residues_of w' = <[rb := push_bond (fresh (dom (bonds_of w))) Rb]> (residues_of w)
    | Grafted _ _ => True
    end.
Proof.
  intros Hsc Hid Hh.
  destruct (round_cases O Rc atom_by_position atoms id w h Hsc Hid Hh)
    as (Ah & rh & Rh & [result dist] & HAh & Hp & Hrh & HRh & Hin & _ & _ & Hpost).
  unfold round_post in Hpost. cbv zeta in Hpost. simpl fst in Hpost. simpl snd in Hpost.
  assert (Hmarked_h : forall w0, atoms_of w0 = atoms_of (marked h Ah w) ->
                                 atoms_of w0 !! h = Some (set_symbol "H" Ah)).
  { intros w0 ->. unfold marked. wsimpl. apply lookup_insert_eq. }
  assert (Hmarked_o : forall w0, atoms_of w0 = atoms_of (marked h Ah w) ->
             forall a, a ≠ h -> atoms_of w0 !! a = atoms_of w !! a).
  { intros w0 -> a Ha. unfold marked. wsimpl. apply lookup_insert_ne. auto. }
  assert (Hbonded_at : forall b r,
             atoms_at (bonded h b (fresh (dom (bonds_of w))) rh Rh (marked h Ah w)) r
             = atoms_at w r).
  { intros b r. unfold atoms_at, bonded, marked. wsimpl.
    destruct (decide (r = rh)) as [-> | Hne];
      [rewrite lookup_insert_eq, HRh; reflexivity | now rewrite lookup_insert_ne by auto]. }
  destruct result as [b |].
  - destruct (Py_cmp.gt dist 2).
    + eexists _, _, Ah. split; [exact Hpost |]. split; [exact HAh |].
      split; [apply Hmarked_h; reflexivity |].
      split; [intros a Ha _; apply Hmarked_o; [reflexivity | exact Ha] |].
      split; [reflexivity | split; reflexivity].
    + destruct Hpost as (Ab & HAb & Hbh & Hbin & Hpost).
      destruct (atom_by_position !! get_position_key Ab) as [src |].
      * destruct Hpost as (As & rs & Rs & HAs & Hps & Hrs & HRs & Hsin & Hrun).
        assert (Hrne : rs ≠ rh).
        { intros ->. pose proof (scene_separate _ _ _ _ Hsc) as Hs.
          unfold separate in Hs. rewrite Forall_forall in Hs. exact (Hs rh Hrs Hrh). }
        eexists _, _, Ah. split; [exact Hrun |]. split; [exact HAh |].
        assert (Hfresh : forall a, is_Some (atoms_of w !! a) ->
                                   fresh (dom (atoms_of (marked h Ah w))) ≠ a).
        { intros a [A HA] E.
          pose proof (fresh_lookup_None (atoms_of (marked h Ah w))) as Hf.
          rewrite E in Hf. unfold marked in Hf. wsimpl_in Hf.
          apply lookup_insert_None in Hf as [Hf _]. rewrite HA in Hf. discriminate Hf. }
        split; [| split; [| split; [| exact I]]].
        -- unfold grafted. wsimpl. rewrite lookup_insert_ne by (apply Hfresh; eauto).
           apply lookup_insert_eq.
        -- intros a Ha Hex. unfold grafted. wsimpl.
           rewrite lookup_insert_ne by (apply Hfresh; exact Hex).
           apply lookup_insert_ne. auto.
        -- intros r Hr. rewrite <- (Hbonded_at b r).
           unfold atoms_at at 1. unfold grafted. wsimpl.
           rewrite lookup_insert_ne; [reflexivity |].
           intros <-. pose proof (scene_separate _ _ _ _ Hsc) as Hs.
           unfold separate in Hs. rewrite Forall_forall in Hs. exact (Hs rs Hrs Hr).
      * eexists _, _, Ah. split; [exact Hpost |]. split; [exact HAh |].
        split; [apply Hmarked_h; reflexivity |].
        split; [intros a Ha _; apply Hmarked_o; [reflexivity | exact Ha] |].
        split; [intros r _; apply (Hbonded_at b r) |].
        exists b, rh, Rh. repeat split; assumption.
  - eexists _, _, Ah. split; [exact Hpost |]. split; [exact HAh |].
    split; [apply Hmarked_h; reflexivity |].
    split; [intros a Ha _; apply Hmarked_o; [reflexivity | exact Ha] |].
    split; [reflexivity | split; reflexivity].
Qed.

(** The loop over indices in range: the scene is kept, atoms are renamed at
    most, the atom lists of the reparsed complex stay, and the atom at every
    index has the symbol H in the end. *)
Lemma loop_reparsed (atoms : list ref) (ids : list nat) (w : World) :
  scene w O Rc atom_by_position ->
  Forall (fun a => atom_in w Rc a) atoms ->
  Forall (fun id => (id < length atoms)%nat) ids ->
  exists w',
    for_each (round atom_by_position Rc atoms) ids w = Return tt w' /\
    renamed_at_most w w' /\
    (forall r, r ∈ residues Rc -> atoms_at w' r = atoms_at w r) /\
    (forall id h, id ∈ ids -> atoms !! id = Some h ->
       exists A', atoms_of w' !! h = Some A' /\ symbol A' = "H"%string).
Proof.
  revert w. induction ids as [| id ids IH]; intros w Hsc Hat Hids.
  - exists w. split; [reflexivity |]. split; [apply renamed_at_most_refl |].
    split; [reflexivity |]. intros id h Hin. inversion Hin.
  - apply Forall_cons in Hids as [Hlt Hids].
    destruct (lookup_lt_is_Some_2 atoms id Hlt) as [h Hid].
    assert (Hh : atom_in w Rc h).
    { rewrite Forall_forall in Hat. apply Hat. apply list_elem_of_lookup. eauto. }
    destruct (round_summary O Rc atom_by_position atoms id w h Hsc Hid Hh)
      as (m & w1 & Erun & Hsc1 & Hmono & _ & _).
    destruct (round_reparsed_effect atoms id w h Hsc Hid Hh)
      as (m' & w1' & Ah & Erun' & HAh & Hh1 & Hother & Hlists & _).
    rewrite Erun in Erun'. injection Erun' as <- <-.
    assert (Hat1 : Forall (fun a => atom_in w1 Rc a) atoms).
    { rewrite Forall_forall in *. auto. }
    destruct (IH w1 Hsc1 Hat1 Hids) as (w' & Eloop & Hren & Hlists' & Hsym).
    assert (Hren1 : renamed_at_most w w1).
    { intros a A HA. destruct (decide (a = h)) as [-> | Hne].
      - rewrite HAh in HA. injection HA as <-. eauto.
      - exists A. split; [rewrite Hother; eauto | auto]. }
    exists w'. split; [| split; [| split]].
    + simpl for_each. rewrite bind_unfold. unfold round at 1.
      rewrite bind_unfold, Erun. exact Eloop.
    + exact (renamed_at_most_trans w w1 w' Hren1 Hren).
    + intros r Hr. rewrite Hlists', Hlists; auto.
    + intros id' h' Hin Hid'. apply elem_of_cons in Hin as [-> | Hin].
      * rewrite Hid in Hid'. injection Hid' as <-.
        destruct (Hren h (set_symbol "H" Ah) Hh1) as (A' & HA' & [-> | ->]);
          exists (set_symbol "H" Ah); split; first [exact HA' | reflexivity].
      * exact (Hsym id' h' Hin Hid').
Qed.

Lemma match_and_update_unfold (ids : list nat) (w : World) :
  wf_complex w Rc ->
  match_and_update atom_by_position Rc ids w =
  (for_each (round atom_by_position Rc (atom_list w Rc)) ids;;
   Logs_debug "Matching done" []) (logged log_matching w).
Proof.
  intros Hc. unfold match_and_update. rewrite bind_unfold.
  change (Logs_debug _ [] w) with (Return tt (logged log_matching w)). cbv iota beta.
  rewrite bind_unfold.
  rewrite (Complex_atoms_spec (logged log_matching w) Rc) by exact Hc.
  reflexivity.
Qed.

Lemma for_each_app {A} (f : A -> Run unit) (l1 l2 : list A) (w w1 : World) :
  for_each f l1 w = Return tt w1 ->
  for_each f (l1 ++ l2) w = for_each f l2 w1.
Proof.
  revert w. induction l1 as [| x l1 IH]; intros w E.
  - simpl in E. injection E as <-. reflexivity.
  - simpl in *. rewrite bind_unfold in *.
    destruct (f x w) as [[] w' | e w']; [| discriminate E]. apply IH, E.
Qed.

End ReparsedSide.

(** ** The search keeps the first of equals *)

Section FirstBest.
Context `{Host}.

Lemma closest_body_first (atom : ref) (A : Atom) (w : World) (seen : list ref)
    (acc : option ref * Q) (a : ref) :
  atoms_of w !! atom = Some A ->
  is_Some (atoms_of w !! a) ->
  best_so_far w atom A seen acc -> first_best w atom A seen acc ->
  exists acc1,
    closest_body atom acc a w = Return acc1 w /\
    best_so_far w atom A (seen ++ [a]) acc1 /\
    first_best w atom A (seen ++ [a]) acc1.
Proof.
  intros HA Ha Hbest Hfirst.
  destruct (closest_body_spec atom A w seen acc a HA Ha Hbest) as (acc1 & Estep & Hbest1).
  exists acc1. split; [exact Estep |]. split; [exact Hbest1 |].
  assert (Hkeep : first_best w atom A (seen ++ [a]) acc).
  { unfold first_best in *. destruct acc.1 as [b |]; [| exact I].
    destruct Hfirst as (l1 & l2 & -> & Hl1). exists l1, (l2 ++ [a])%list.
    split; [now rewrite <- app_assoc | exact Hl1]. }
  destruct Ha as [Aa HAa]. destruct acc as [result minD]. unfold closest_body in Estep.
  destruct (decide (a ≠ atom)) as [Hne | Heq].
  - rewrite bind_unfold in Estep. unfold get_atom in Estep.
    rewrite (from_store_Return atoms_of _ _ _ HAa) in Estep.
    destruct (String.eqb (symbol Aa) "H") eqn:Esym; unfold negb in Estep; cbv iota in Estep.
    + injection Estep as <-. exact Hkeep.
    + rewrite bind_unfold in Estep. rewrite (from_store_Return atoms_of _ _ _ HA) in Estep.
      destruct (Py_cmp.lt (Vector3_distance (position Aa) (position A)) minD) eqn:Elt.
      * injection Estep as <-. apply lt_true in Elt.
        unfold first_best. simpl. exists seen, []. split; [reflexivity |].
        intros c Ac Hin Hc. destruct Hbest as [Hmin _].
        specialize (Hmin c Ac Hin Hc). simpl in Hmin. lra.
      * injection Estep as <-. exact Hkeep.
  - injection Estep as <-. exact Hkeep.
Qed.

Lemma closest_fold_first (atom : ref) (A : Atom) (w : World) (l seen : list ref)
    (acc : option ref * Q) :
  atoms_of w !! atom = Some A ->
  Forall (fun a => is_Some (atoms_of w !! a)) l ->
  best_so_far w atom A seen acc -> first_best w atom A seen acc ->
  exists acc',
    for_fold (closest_body atom) l acc w = Return acc' w /\
    best_so_far w atom A (seen ++ l) acc' /\
    first_best w atom A (seen ++ l) acc'.
Proof.
  intros HA. revert seen acc.
  induction l as [| a l IH]; intros seen acc Hres Hbest Hfirst.
  - exists acc. rewrite app_nil_r. auto.
  - apply Forall_cons in Hres as [Ha Hres].
    destruct (closest_body_first atom A w seen acc a HA Ha Hbest Hfirst)
      as (acc1 & Estep & Hbest1 & Hfirst1).
    destruct (IH (seen ++ [a])%list acc1 Hres Hbest1 Hfirst1) as (acc' & Efold & Hb & Hf).
    exists acc'. split; [| split].
    + simpl for_fold. rewrite bind_unfold, Estep. exact Efold.
    + rewrite <- app_assoc in Hb. exact Hb.
    + rewrite <- app_assoc in Hf. exact Hf.
Qed.

End FirstBest.

(** X14: the search breaks ties by position in the residue: the partner it
    returns stands in the atom list of the residue behind candidates that are
    all strictly farther from the hydrogen than it is, so of several
    candidates at the least distance it is the one listed first; and no
    candidate of the whole residue is nearer. *)
Theorem partner_search_first_of_equals `{Host} (complex : Complex) (atom : ref)
    (w : World) (A : Atom) (r : ref) (R : Residue) (b : ref) (d : Q) (w' : World) :
  atoms_of w !! atom = Some A -> residue A = Some r -> residues_of w !! r = Some R ->
  Forall (fun a => is_Some (atoms_of w !! a)) (res_atoms R) ->
  get_closest_heavy_atom_in_residue complex atom w = Return (Some b, d) w' ->
  let dist_to := fun Ac : Atom => Vector3_distance (position Ac) (position A) in
  exists l1 l2 Ab,
    res_atoms R = (l1 ++ b :: l2)%list /\
    heavy_candidate w atom b Ab /\ d = dist_to Ab /\
    (forall c Ac, c ∈ l1 -> heavy_candidate w atom c Ac -> (d < dist_to Ac)%Q) /\
    (forall c Ac, c ∈ l2 -> heavy_candidate w atom c Ac -> (d <= dist_to Ac)%Q).
Proof.
  intros HA Hr HR Hres Hrun dist_to.
  unfold get_closest_heavy_atom_in_residue in Hrun.
  rewrite bind_unfold in Hrun. unfold get_atom in Hrun at 1.
  rewrite (from_store_Return atoms_of _ _ _ HA) in Hrun.
  rewrite Hr in Hrun. simpl deref in Hrun. rewrite bind_unfold in Hrun.
  unfold mret, Run_ret in Hrun. rewrite bind_unfold in Hrun. unfold get_residue in Hrun.
  rewrite (from_store_Return residues_of _ _ _ HR) in Hrun.
  destruct (closest_fold_first atom A w (res_atoms R) [] (None, 10000%Q) HA Hres)
    as (acc & Efold & Hbest & Hfirst).
  { split; [| reflexivity]. intros c Ac Hc. inversion Hc. }
  { exact I. }
  rewrite Efold in Hrun. injection Hrun as -> _.
  simpl app in Hbest, Hfirst. unfold first_best in Hfirst. simpl in Hfirst.
  destruct Hfirst as (l1 & l2 & Elist & Hl1).
  destruct Hbest as [Hmin (Ab & _ & Hcand & Hd & _)]. simpl in Hmin, Hd.
  exists l1, l2, Ab. split; [exact Elist |]. split; [exact Hcand |].
  split; [exact Hd |]. split; [exact Hl1 |].
  intros c Ac Hin Hc. apply (Hmin c Ac); [| exact Hc].
  rewrite Elist. apply elem_of_app. right. apply elem_of_cons. auto.
Qed.

Lemma partner_search_first_of_equals_witness :
  let A := demo_atom "H" 1 0 0 0 1%positive in
  let R := mkResidue [4%positive; 1%positive; 2%positive; 3%positive] [] in
  let dist_to := fun Ac : Atom => Vector3_distance (position Ac) (position A) in
  (atoms_of tie_world !! 1%positive = Some A /\ residue A = Some 1%positive /\
   residues_of tie_world !! 1%positive = Some R /\
   Forall (fun a => is_Some (atoms_of tie_world !! a)) (res_atoms R) /\
   get_closest_heavy_atom_in_residue empty_complex 1%positive tie_world
   = Return (Some 4%positive, 1%Q) tie_world) /\
  exists l1 l2 Ab,
    res_atoms R = (l1 ++ 4%positive :: l2)%list /\
    heavy_candidate tie_world 1%positive 4%positive Ab /\ 1%Q = dist_to Ab /\
    (forall c Ac, c ∈ l1 -> heavy_candidate tie_world 1%positive c Ac ->
       (1 < dist_to Ac)%Q) /\
    (forall c Ac, c ∈ l2 -> heavy_candidate tie_world 1%positive c Ac ->
       (1 <= dist_to Ac)%Q).
Proof.
  intros A R dist_to.
  assert (Hres : Forall (fun a => is_Some (atoms_of tie_world !! a)) (res_atoms R))
    by (apply (bool_decide_unpack _); vm_compute; exact I).
  assert (Hrun : get_closest_heavy_atom_in_residue empty_complex 1%positive tie_world
                 = Return (Some 4%positive, 1%Q) tie_world)
    by (vm_compute; reflexivity).
  split.
  - split; [reflexivity |]. split; [reflexivity |]. split; [reflexivity |].
    split; [exact Hres | exact Hrun].
  - exact (partner_search_first_of_equals (H := test_host) empty_complex 1%positive
             tie_world A 1%positive R 4%positive 1%Q tie_world
             eq_refl eq_refl eq_refl Hres Hrun).
Defined.

(** ** The reparsed complex: statements *)

(** X15: what a round of [match_and_update] does to the reparsed complex, in
    a scene and for an index in range: the hydrogen gets the symbol H in
    every case, also when the round skips it; every other atom object that
    existed is as it was; the atom lists of the residues of the reparsed
    complex are as they were; a round without partner or with a partner too
    far changes no bond and no residue; and a round that skips for an unknown
    partner key leaves the bond it created, from the hydrogen to the partner,
    in the partner's residue of the reparsed complex. *)
Theorem round_effect_on_reparsed `{Host} (O Rc : Complex) (atom_by_position : gmap Key ref)
    (atoms : list ref) (id : nat) (w : World) (h : ref) :
  scene w O Rc atom_by_position -> atoms !! id = Some h -> atom_in w Rc h ->
  exists m w' Ah,
    match_and_update_body atom_by_position Rc atoms id w = Return m w' /\
    atoms_of w !! h = Some Ah /\
    atoms_of w' !! h = Some (set_symbol "H" Ah) /\
    (forall a, a ≠ h -> is_Some (atoms_of w !! a) -> atoms_of w' !! a = atoms_of w !! a) /\
    (forall r, r ∈ residues Rc -> atoms_at w' r = atoms_at w r) /\
    match m with
    | NoPartner | TooFar => bonds_of w' = bonds_of w /\ residues_of w' = residues_of w
    | Orphan =>
        exists b rb Rb,
          rb ∈ residues Rc /\ residues_of w !! rb = Some Rb /\ b ∈ res_atoms Rb /\
          bonds_of w' = <[fresh (dom (bonds_of w)) :=
                            mkBond CovalentSingle (Some h) (Some b) (Some rb)]> (bonds_of w) /\
          residues_of w' = <[rb := push_bond (fresh (dom (bonds_of w))) Rb]> (residues_of w)
    | Grafted _ _ => True
    end.
Proof. apply round_reparsed_effect. Qed.

Lemma round_effect_on_reparsed_witness :
  let atoms := atom_list demo_world demo_reparsed in
  (scene demo_world demo_original demo_reparsed demo_index /\
   atoms !! 5%nat = Some 7%positive /\ atom_in demo_world demo_reparsed 7%positive) /\
  exists m w' Ah,
    match_and_update_body demo_index demo_reparsed atoms 5 demo_world = Return m w' /\
    atoms_of demo_world !! 7%positive = Some Ah /\
    atoms_of w' !! 7%positive = Some (set_symbol "H" Ah) /\
    (forall a, a ≠ 7%positive -> is_Some (atoms_of demo_world !! a) ->
       atoms_of w' !! a = atoms_of demo_world !! a) /\
    (forall r, r ∈ residues demo_reparsed -> atoms_at w' r = atoms_at demo_world r) /\
    match m with
    | NoPartner | TooFar =>
        bonds_of w' = bonds_of demo_world /\ residues_of w' = residues_of demo_world
    | Orphan =>
        exists b rb Rb,
          rb ∈ residues demo_reparsed /\ residues_of demo_world !! rb = Some Rb /\
          b ∈ res_atoms Rb /\
          bonds_of w' = <[fresh (dom (bonds_of demo_world)) :=
                            mkBond CovalentSingle (Some 7%positive) (Some b) (Some rb)]>
                          (bonds_of demo_world) /\
          residues_of w' = <[rb := push_bond (fresh (dom (bonds_of demo_world))) Rb]>
                             (residues_of demo_world)
    | Grafted _ _ => True
    end.
Proof.
  intros atoms.
  assert (Hin : atom_in demo_world demo_reparsed 7%positive)
    by (apply (bool_decide_unpack _); vm_compute; exact I).
  split.
  - split; [exact demo_scene |]. split; [reflexivity | exact Hin].
  - exact (round_effect_on_reparsed (H := test_host) demo_original demo_reparsed demo_index
             atoms 5 demo_world 7%positive demo_scene eq_refl Hin).
Defined.

(** X16: a run of [match_and_update] over indices in range, in a scene:
    it returns; every atom object that existed is afterwards as it was or as
    it was with the symbol H; the reparsed complex has the same atoms in the
    same order; and the atom at each of the indices has the symbol H,
    whether its round grafted or skipped. *)
Theorem run_renames_indexed_atoms `{Host} (O Rc : Complex) (atom_by_position : gmap Key ref)
    (hydrogen_ids : list nat) (w : World) :
  scene w O Rc atom_by_position ->
  Forall (fun id => (id < length (atom_list w Rc))%nat) hydrogen_ids ->
  exists w',
    match_and_update atom_by_position Rc hydrogen_ids w = Return tt w' /\
    renamed_at_most w w' /\
    atom_list w' Rc = atom_list w Rc /\
    forall id h, id ∈ hydrogen_ids -> atom_list w Rc !! id = Some h ->
      exists A', atoms_of w' !! h = Some A' /\ symbol A' = "H"%string.
Proof.
  intros Hsc Hids.
  rewrite (match_and_update_unfold Rc atom_by_position hydrogen_ids w
             (scene_reparsed _ _ _ _ Hsc)).
  assert (Hsc0 : scene (logged log_matching w) O Rc atom_by_position)
    by (apply (scene_same_store w); try reflexivity; exact Hsc).
  assert (Hat : Forall (fun a => atom_in (logged log_matching w) Rc a) (atom_list w Rc)).
  { apply Forall_forall. intros a Ha. apply atom_list_elem in Ha.
    revert Ha. apply atom_in_residues. reflexivity. }
  destruct (loop_reparsed O Rc atom_by_position (atom_list w Rc) hydrogen_ids
              (logged log_matching w) Hsc0 Hat Hids) as (w1 & Eloop & Hren & Hlists & Hsym).
  exists (logged log_done w1). split; [| split; [| split]].
  - rewrite bind_unfold, Eloop. reflexivity.
  - exact Hren.
  - unfold atom_list. apply f_equal. apply map_ext_in. intros r Hr.
    apply list_elem_of_In in Hr. exact (Hlists r Hr).
  - exact Hsym.
Qed.

Lemma run_renames_indexed_atoms_witness :
  let ids := [1; 2; 3; 5]%nat in
  (scene demo_world demo_original demo_reparsed demo_index /\
   Forall (fun id => (id < length (atom_list demo_world demo_reparsed))%nat) ids) /\
  exists w',
    match_and_update demo_index demo_reparsed ids demo_world = Return tt w' /\
    renamed_at_most demo_world w' /\
    atom_list w' demo_reparsed = atom_list demo_world demo_reparsed /\
    forall id h, id ∈ ids -> atom_list demo_world demo_reparsed !! id = Some h ->
      exists A', atoms_of w' !! h = Some A' /\ symbol A' = "H"%string.
Proof.
  intros ids.
  assert (Hall : Forall (fun id => (id < length (atom_list demo_world demo_reparsed))%nat) ids)
    by (apply (bool_decide_unpack _); vm_compute; exact I).
  split; [split; [exact demo_scene | exact Hall] |].
  exact (run_renames_indexed_atoms (H := test_host) demo_original demo_reparsed demo_index
           ids demo_world demo_scene Hall).
Defined.

(** X17: when the hydrogen indices before the first one out of range are
    in range, [match_and_update] raises [IndexError] in exactly the state in
    which a run over those earlier indices alone ends, short of its closing
    log entry: the rounds before the offending index have taken effect and
    stay, the indices after it are never looked at, and the closing entry is
    not logged. *)
Theorem index_error_keeps_earlier_rounds `{Host} (O Rc : Complex)
    (atom_by_position : gmap Key ref) (before : list nat) (bad : nat) (rest : list nat)
    (w : World) :
  scene w O Rc atom_by_position ->
  Forall (fun id => (id < length (atom_list w Rc))%nat) before ->
  (length (atom_list w Rc) <= bad)%nat ->
  exists w',
    match_and_update atom_by_position Rc (before ++ bad :: rest) w = Raise IndexError w' /\
    match_and_update atom_by_position Rc before w = Return tt (logged log_done w').
Proof.
  intros Hsc Hids Hbad.
  rewrite !(match_and_update_unfold Rc atom_by_position _ w (scene_reparsed _ _ _ _ Hsc)).
  assert (Hsc0 : scene (logged log_matching w) O Rc atom_by_position)
    by (apply (scene_same_store w); try reflexivity; exact Hsc).
  assert (Hat : Forall (fun a => atom_in (logged log_matching w) Rc a) (atom_list w Rc)).
  { apply Forall_forall. intros a Ha. apply atom_list_elem in Ha.
    revert Ha. apply atom_in_residues. reflexivity. }
  destruct (loop_reparsed O Rc atom_by_position (atom_list w Rc) before
              (logged log_matching w) Hsc0 Hat Hids) as (w1 & Eloop & _).
  exists w1. split.
  - rewrite bind_unfold.
    rewrite (for_each_app _ before (bad :: rest) _ w1 Eloop).
    simpl for_each. rewrite bind_unfold.
    rewrite (round_out_of_range Rc atom_by_position (atom_list w Rc) bad w1 Hbad).
    reflexivity.
  - rewrite bind_unfold, Eloop. reflexivity.
Qed.

Lemma index_error_keeps_earlier_rounds_witness :
  let before := [1; 5]%nat in
  (scene demo_world demo_original demo_reparsed demo_index /\
   Forall (fun id => (id < length (atom_list demo_world demo_reparsed))%nat) before /\
   (length (atom_list demo_world demo_reparsed) <= 6)%nat) /\
  exists w',
    match_and_update demo_index demo_reparsed (before ++ 6%nat :: [2%nat]) demo_world
    = Raise IndexError w' /\
    match_and_update demo_index demo_reparsed before demo_world
    = Return tt (logged log_done w').
Proof.
  intros before.
  assert (Hall : Forall (fun id => (id < length (atom_list demo_world demo_reparsed))%nat)
                   before)
    by (apply (bool_decide_unpack _); vm_compute; exact I).
  assert (Hbad : (length (atom_list demo_world demo_reparsed) <= 6)%nat)
    by (vm_compute; lia).
  split; [split; [exact demo_scene | split; [exact Hall | exact Hbad]] |].
  exact (index_error_keeps_earlier_rounds (H := test_host) demo_original demo_reparsed
           demo_index before 6 [2%nat] demo_world demo_scene Hall Hbad).
Defined.

(** ** The buffer and the output file across calls *)

Section Regrowth.

Lemma prefix_app (p s x : string) :
  String.prefix p s = true -> String.prefix p (s +:+ x) = true.
Proof.
  revert s. induction p as [| c p IH]; intros s Hp; [destruct (s +:+ x); reflexivity |].
  destruct s as [| c' s]; [discriminate Hp |]. simpl in *.
  destruct (ascii_dec c c'); [apply IH, Hp | discriminate Hp].
Qed.

Lemma is_structural_app (l x : string) :
  is_structural l = true -> is_structural (l +:+ x) = true.
Proof.
  unfold is_structural, PyStr.startswith. rewrite !orb_true_iff.
  intros [[Hp | Hp] | Hp]; [left; left | left; right | right]; apply prefix_app, Hp.
Qed.

(** A record under construction stays one when text follows. *)
Lemma splitlines_from_head (p cur : string) :
  is_structural cur = true -> has_record (PyStr.splitlines_from cur p).
Proof.
  revert cur. induction p as [| c p IH]; intros cur Hcur; unfold has_record in *.
  - simpl. destruct (String.eqb cur "") eqn:E.
    + apply String.eqb_eq in E. subst cur. discriminate Hcur.
    + apply Exists_cons_hd, Hcur.
  - simpl. destruct (Ascii.eqb c PyStr.CR).
    + destruct p as [| c' p']; [apply Exists_cons_hd, Hcur |].
      destruct (Ascii.eqb c' PyStr.LF); apply Exists_cons_hd, Hcur.
    + destruct (PyStr.is_boundary c); [apply Exists_cons_hd, Hcur |].
      apply IH, is_structural_app, Hcur.
Qed.

Lemma splitlines_from_grows (n : nat) (s p cur : string) :
  (String.length s <= n)%nat ->
  has_record (PyStr.splitlines_from cur s) ->
  has_record (PyStr.splitlines_from cur (s +:+ p)).
Proof.
  revert s cur. induction n as [| n IH]; intros s cur Hn Hrec.
  - destruct s; [| simpl in Hn; lia]. simpl in Hrec. change ("" +:+ p) with p.
    destruct (String.eqb cur ""); [inversion Hrec |].
    apply Exists_cons in Hrec as [Hcur | Hnil]; [| inversion Hnil].
    apply splitlines_from_head, Hcur.
  - destruct s as [| c s].
    { simpl in Hrec. change ("" +:+ p) with p.
      destruct (String.eqb cur ""); [inversion Hrec |].
      apply Exists_cons in Hrec as [Hcur | Hnil]; [| inversion Hnil].
      apply splitlines_from_head, Hcur. }
    simpl in Hn. rewrite append_cons. simpl in Hrec |- *.
    destruct (Ascii.eqb c PyStr.CR).
    + destruct s as [| c' s'].
      * apply Exists_cons in Hrec as [Hcur | Hnil]; [| inversion Hnil].
        change ("" +:+ p) with p. destruct p as [| c' p']; [apply Exists_cons_hd, Hcur |].
        destruct (Ascii.eqb c' PyStr.LF); apply Exists_cons_hd, Hcur.
      * rewrite append_cons. simpl in Hn.
        destruct (Ascii.eqb c' PyStr.LF).
        -- apply Exists_cons in Hrec as [Hcur | Hrest]; [apply Exists_cons_hd, Hcur |].
           apply Exists_cons_tl. apply IH; [lia | exact Hrest].
        -- apply Exists_cons in Hrec as [Hcur | Hrest]; [apply Exists_cons_hd, Hcur |].
           apply Exists_cons_tl. rewrite <- append_cons.
           apply IH; [simpl; lia | exact Hrest].
    + destruct (PyStr.is_boundary c).
      * apply Exists_cons in Hrec as [Hcur | Hrest]; [apply Exists_cons_hd, Hcur |].
        apply Exists_cons_tl. apply IH; [lia | exact Hrest].
      * apply IH; [lia | exact Hrest || exact Hrec].
Qed.

(** The buffer only grows: a record it holds is still there after more has
    been appended. *)
Lemma splitlines_grows (s p : string) :
  has_record (PyStr.splitlines s) -> has_record (PyStr.splitlines (s +:+ p)).
Proof. apply (splitlines_from_grows (String.length s)). lia. Qed.

Lemma filter_has_record (ls : list string) :
  List.filter is_structural ls <> [] <-> has_record ls.
Proof.
  unfold has_record. induction ls as [| l ls IH]; simpl.
  - split; [congruence | intros Hx; inversion Hx].
  - destruct (is_structural l) eqn:E.
    + split; [intros _; apply Exists_cons_hd, E | discriminate].
    + rewrite IH. split; [apply Exists_cons_tl |].
      intros Hx. apply Exists_cons in Hx as [Hx | Hx]; [congruence | exact Hx].
Qed.

End Regrowth.

Section SingleUse.
Context `{Host}.
Variables (pdb_path : string) (output_pdb : ref) (flip histidines : bool) (w : World).

Let r := reduce_run pdb_path flip histidines w.

(** The success path: the file object is closed and the buffer holds what
    it held and what the process printed. *)
Lemma call_Reduce_success_buffer (F : FileObj) (old : string) :
  parser_keeps_files -> parser_keeps_buffer ->
  ~ (exit_code r < 0)%Z ->
  files_of w !! output_pdb = Some F -> closed F = false ->
  fs w !! name F = Some old ->
  exists c ids w',
    call_Reduce pdb_path output_pdb flip histidines w = Return (Parsed c ids) w' /\
    files_of w' !! output_pdb = Some (mkFileObj (name F) true) /\
    current_output w' = current_output w +:+ printed r.
Proof.
  intros Hparser Hbuffer Hexit HF Hopen Hold.
  pose proof (call_Reduce_unfold pdb_path output_pdb flip histidines w) as E.
  cbv zeta in E. fold r in E.
  set (w1 := after_process r (started pdb_path flip histidines w)) in E.
  apply Z.ltb_nlt in Hexit. rewrite Hexit in E.
  fold (write_structural output_pdb) in E.
  rewrite bind_unfold in E.
  rewrite (write_loop_open output_pdb F (PyStr.splitlines (current_output w1)) old w1
             HF Hopen Hold) in E.
  set (text := old +:+ written (PyStr.splitlines (current_output w1))) in E.
  set (w2 := with_fs <[name F := text]> w1) in E.
  rewrite bind_unfold in E. unfold File_close in E at 1.
  rewrite bind_unfold in E. unfold get_file in E at 1.
  rewrite (from_store_Return files_of output_pdb w2 F HF) in E.
  unfold modify in E at 1.
  set (w3 := with_files <[output_pdb := mkFileObj (name F) true]> w2) in E.
  rewrite bind_unfold in E. unfold get_file in E at 1.
  rewrite (from_store_Return files_of output_pdb w3 (mkFileObj (name F) true)) in E
    by (unfold w3; wsimpl; apply lookup_insert_eq).
  simpl name in E.
  assert (Hread3 : read_text (name F) w3 = Return text w3).
  { unfold read_text, w3, w2. wsimpl. now rewrite lookup_insert_eq. }
  rewrite bind_unfold in E. unfold Complex_from_pdb in E at 1.
  rewrite bind_unfold, Hread3 in E. unfold state in E at 1.
  destruct (complex_of_pdb text w3) as [c w4] eqn:Eparse.
  destruct (Hparser text w3) as [Hfs Hfiles]. pose proof (Hbuffer text w3) as Hbuf.
  rewrite Eparse in Hfs, Hfiles, Hbuf. simpl in Hfs, Hfiles, Hbuf.
  assert (Hfs4 : fs w4 !! name F = Some text).
  { rewrite Hfs. unfold w3, w2. wsimpl. apply lookup_insert_eq. }
  rewrite bind_unfold in E. unfold read_text in E at 1. rewrite Hfs4 in E.
  eexists c, _, w4. split; [exact E |]. split.
  - rewrite Hfiles. unfold w3. wsimpl. apply lookup_insert_eq.
  - rewrite Hbuf. reflexivity.
Qed.

End SingleUse.

(** X18: the output file object serves one successful call.  When a call
    of the adapter ends on its success path (Reduce exits with a code that
    is not negative, the file object is open, the parser touches neither
    files nor the buffer) and the buffer held at least one record to keep,
    that call closes the file object and leaves the buffer as grown; then
    every later call with the same file object for which Reduce again exits
    with a code that is not negative raises [ValueError], whatever path and
    flags it is given, whatever Reduce prints and whatever was appended to
    the buffer in between, and it writes nothing. *)
Theorem output_file_is_single_use `{Host} (pdb_path : string) (output_pdb : ref)
    (flip histidines : bool) (w : World) (F : FileObj) (old : string) :
  let r := reduce_run pdb_path flip histidines w in
  parser_keeps_files -> parser_keeps_buffer ->
  ~ (exit_code r < 0)%Z ->
  files_of w !! output_pdb = Some F -> closed F = false ->
  fs w !! name F = Some old ->
  kept_records r w <> [] ->
  exists c ids w1,
    call_Reduce pdb_path output_pdb flip histidines w = Return (Parsed c ids) w1 /\
    forall (pdb_path' : string) (flip' histidines' : bool) (w2 : World) (more : string),
      files_of w2 !! output_pdb = files_of w1 !! output_pdb ->
      current_output w2 = current_output w1 +:+ more ->
      ~ (exit_code (reduce_run pdb_path' flip' histidines' w2) < 0)%Z ->
      exists w3,
        call_Reduce pdb_path' output_pdb flip' histidines' w2 = Raise ValueError w3 /\
        fs w3 = fs w2.
Proof.
  intros r Hparser Hbuffer Hexit HF Hopen Hold Hkept.
  destruct (call_Reduce_success_buffer pdb_path output_pdb flip histidines w F old
              Hparser Hbuffer Hexit HF Hopen Hold) as (c & ids & w1 & Ecall & Hfile & Hbuf).
  exists c, ids, w1. split; [exact Ecall |].
  intros pdb_path' flip' histidines' w2 more Hfile2 Hbuf2 Hexit2.
  rewrite Hfile in Hfile2.
  eexists. split.
  - apply (call_Reduce_closed_state pdb_path' output_pdb flip' histidines' w2
             (mkFileObj (name F) true) Hexit2 Hfile2 eq_refl).
    apply filter_has_record. unfold buffer_lines.
    rewrite Hbuf2, Hbuf. fold r. rewrite string_app_assoc.
    apply splitlines_grows. apply filter_has_record. exact Hkept.
  - reflexivity.
Qed.

Lemma output_file_is_single_use_witness :
  let w0 := files_world (terminated old_record) in
  let F := mkFileObj "out.pdb" false in
  let r := reduce_run (H := test_host) "in.pdb" true false w0 in
  (parser_keeps_files (H := test_host) /\ parser_keeps_buffer (H := test_host) /\
   ~ (exit_code r < 0)%Z /\
   files_of w0 !! 2%positive = Some F /\ closed F = false /\
   fs w0 !! name F = Some ""%string /\ kept_records r w0 <> []) /\
  exists c ids w1,
    call_Reduce "in.pdb" 2%positive true false w0 = Return (Parsed c ids) w1 /\
    forall (pdb_path' : string) (flip' histidines' : bool) (w2 : World) (more : string),
      files_of w2 !! 2%positive = files_of w1 !! 2%positive ->
      current_output w2 = current_output w1 +:+ more ->
      ~ (exit_code (reduce_run pdb_path' flip' histidines' w2) < 0)%Z ->
      exists w3,
        call_Reduce pdb_path' 2%positive flip' histidines' w2 = Raise ValueError w3 /\
        fs w3 = fs w2.
Proof.
  intros w0 F r.
  assert (Hbuffer : parser_keeps_buffer (H := test_host)) by (intros text w; reflexivity).
  assert (Hexit : ~ (exit_code r < 0)%Z) by (vm_compute; discriminate).
  assert (Hkept : kept_records r w0 <> []) by (vm_compute; discriminate).
  split.
  - split; [exact test_host_parser_keeps_files |]. split; [exact Hbuffer |].
    split; [exact Hexit |]. repeat (split; [reflexivity |]). exact Hkept.
  - exact (output_file_is_single_use (H := test_host) "in.pdb" 2%positive true false w0 F
             ""%string test_host_parser_keeps_files Hbuffer Hexit eq_refl eq_refl eq_refl
             Hkept).
Defined.
